(** * Carboni: emission calculator and monthly ranking

    A shallow embedding of the carbon-footprint logic of the repository:

    - [CarbonCalculations] : client/src/lib/carbonCalculations.ts
    - [Routes]             : the server routes module (its own copy of the
                             calculator, and the dashboard's reduction
                             percentage)
    - [Storage]            : the server storage module (totals, activity
                             lists, leaderboard and rank queries)

    JavaScript numbers are IEEE 754 binary64 values, modelled by Rocq's
    primitive [float].  The emission values kept in the database are
    PostgreSQL [real] columns: IEEE 754 binary32 values, NaN and the
    infinities included, modelled by [spec_float] with the binary32
    precision and exponent range, and summed as PostgreSQL sums them.
    Dates are day numbers; the month of a query is computed from the
    server's clock and time zone as the code computes it.  A query is
    awaited: it resolves to a value or rejects with a database error. *)


From Stdlib Require Import ZArith Bool List String Floats Lia.
From Stdlib Require Import Permutation Sorted.
From Stdlib Require Uint63.
Import ListNotations.

#[local] Set Warnings "-inexact-float".

(* ================================================================== *)
(** * JavaScript numbers *)
(* ================================================================== *)

Module JS.
Local Open Scope float_scope.

(** Values that a property read on an object literal can produce: a number
    stored in the literal, [undefined] when no property of that name exists,
    or a non-numeric object (the functions and the prototype object that
    every object literal inherits from [Object.prototype]). *)
Inductive value : Type :=
| Undefined
| Number (x : float)
| Object.

(** [ToNumber]: [undefined] and non-numeric objects convert to NaN. *)
Definition ToNumber (v : value) : float :=
  match v with
  | Number x => x
  | Undefined | Object => nan
  end.

(** Truthiness of an optional number: absent, [0], [-0] and NaN are falsy. *)
Definition truthy_number (x : float) : bool := negb (is_zero x || is_nan x).

Definition truthy (x : option float) : bool :=
  match x with
  | Some v => truthy_number v
  | None => false
  end.

(** Truthiness of an optional string: absent and the empty string are falsy. *)
Definition truthy_string (s : option string) : bool :=
  match s with
  | Some v => negb (String.eqb v EmptyString)
  | None => false
  end.

(** The names every object literal inherits from [Object.prototype]. *)
Definition Object_prototype_keys : list string :=
  [ "constructor"; "hasOwnProperty"; "isPrototypeOf"; "propertyIsEnumerable";
    "toLocaleString"; "toString"; "valueOf"; "__proto__";
    "__defineGetter__"; "__defineSetter__";
    "__lookupGetter__"; "__lookupSetter__" ]%string.

Fixpoint own_property (o : list (string * float)) (k : string) : option float :=
  match o with
  | [] => None
  | (k', v) :: rest => if String.eqb k k' then Some v else own_property rest k
  end.

(** [o[k]] for an object literal [o] with numeric fields. *)
Definition get (o : list (string * float)) (k : string) : value :=
  match own_property o k with
  | Some v => Number v
  | None =>
      if existsb (String.eqb k) Object_prototype_keys then Object else Undefined
  end.

(** Exact conversion of an integer below 2^63 in magnitude. *)
Definition float_of_Z (n : Z) : float :=
  let a := of_uint63 (Uint63Axioms.of_Z (Z.abs n)) in
  if (n <? 0)%Z then - a else a.

(** [Math.round]: the integer closest to [x], ties towards +infinity; the
    sign of a zero result is the sign of [x].  A finite double with a
    non-negative exponent is already an integer; otherwise [x] is
    [sm / 2^k] and the result is [floor ((2 * sm + 2^k) / 2^(k+1))]. *)
Definition Math_round (x : float) : float :=
  match Prim2SF x with
  | S754_finite s m e =>
      if (0 <=? e)%Z then x
      else
        let k := (- e)%Z in
        let sm := if s then Z.neg m else Z.pos m in
        let n := Z.shiftr (2 * sm + Z.shiftl 1 k) (k + 1) in
        if (n =? 0)%Z then (if s then neg_zero else zero) else float_of_Z n
  | _ => x
  end.


End JS.

(* ================================================================== *)
(** * Shared data shapes *)
(* ================================================================== *)

(** [ActivityData]: every field is optional ([None] is an absent, undefined
    or null field). *)
Record ActivityData : Type := {
  transportType : option string;
  transportDistance : option float;
  electricityUsage : option float;
  naturalGasUsage : option float;
  beefServings : option float;
  chickenServings : option float;
  vegetableServings : option float
}.

Record EmissionResults : Type := {
  transportEmissions : float;
  energyEmissions : float;
  foodEmissions : float;
  totalEmissions : float
}.

Record EnergyFactors : Type := { electricity : float; naturalGas : float }.
Record FoodFactors : Type := { beef : float; chicken : float; vegetables : float }.
Record Factors : Type := {
  transport : list (string * float);
  energy : EnergyFactors;
  food : FoodFactors
}.

(** The unrounded values the calculator accumulates before it rounds. *)
Record RawEmissions : Type := {
  rawTransport : float;
  rawEnergy : float;
  rawFood : float
}.

(** [Math.round(x * 100) / 100]. *)
Definition round2 (x : float) : float :=
  (JS.Math_round (x * 100) / 100)%float.

(** The six transport types of the factor table. *)
Definition recognized_types : list string :=
  [ "car_gasoline"; "car_electric"; "bus"; "train"; "bike"; "walking" ]%string.

(** The argument of the tip functions: emissions summed by category. *)
Module ByCategory.
Record t : Type := { transport : float; energy : float; food : float }.
End ByCategory.

Record Tip : Type := {
  title : string;
  description : string;
  category : string
}.

(** The tip texts, the same in the client and in the server. *)
Definition tipPublicTransport : Tip :=
  {| title := "Use public transportation";
     description := "Reduce transport emissions by 45%";
     category := "transport" |}.
Definition tipCarpooling : Tip :=
  {| title := "Consider carpooling";
     description := "Share rides to cut emissions in half";
     category := "transport" |}.
Definition tipLedBulbs : Tip :=
  {| title := "Switch to LED bulbs";
     description := "Save 75% energy usage on lighting";
     category := "energy" |}.
Definition tipUnplug : Tip :=
  {| title := "Unplug devices when not in use";
     description := "Eliminate phantom energy consumption";
     category := "energy" |}.
Definition tipPlantBased : Tip :=
  {| title := "Eat more plant-based meals";
     description := "Lower food carbon footprint significantly";
     category := "food" |}.
Definition tipLocalProduce : Tip :=
  {| title := "Choose local and seasonal produce";
     description := "Reduce food transportation emissions";
     category := "food" |}.
Definition tipKeepItUp : Tip :=
  {| title := "Great job! Keep it up";
     description := "Your emissions are below average";
     category := "general" |}.
Definition tipOffset : Tip :=
  {| title := "Consider offsetting remaining emissions";
     description := "Support verified carbon offset projects";
     category := "general" |}.

(** The result of [getEmissionCategory]. *)
Inductive EmissionCategory : Type := low | medium | high.

(* ================================================================== *)
(** * client/src/lib/carbonCalculations.ts *)
(* ================================================================== *)

Module CarbonCalculations.
Local Open Scope float_scope.

Definition EMISSION_FACTORS : Factors := {|
  transport :=
    [ ("car_gasoline", 0.39); ("car_electric", 0.13); ("bus", 0.07);
      ("train", 0.045); ("bike", 0); ("walking", 0) ]%string;
  energy := {| electricity := 0.37; naturalGas := 5.3 |};
  food := {| beef := 30.4; chicken := 4.2; vegetables := 1.0 |}
|}.

(** Transport: the product is assigned only when the looked-up factor is
    not [undefined]. *)
Definition transportStep (data : ActivityData) : float :=
  if JS.truthy_string (transportType data) && JS.truthy (transportDistance data) then
    match transportType data, transportDistance data with
    | Some t, Some d =>
        let factor := JS.get (transport EMISSION_FACTORS) t in
        match factor with
        | JS.Undefined => 0
        | _ => JS.ToNumber factor * d
        end
    | _, _ => 0
    end
  else 0.

Definition energyStep (data : ActivityData) : float :=
  let energyEmissions := 0 in
  let energyEmissions :=
    match electricityUsage data with
    | Some u =>
        if JS.truthy_number u
        then energyEmissions + electricity (energy EMISSION_FACTORS) * u
        else energyEmissions
    | None => energyEmissions
    end in
  match naturalGasUsage data with
  | Some u =>
      if JS.truthy_number u
      then energyEmissions + naturalGas (energy EMISSION_FACTORS) * u
      else energyEmissions
  | None => energyEmissions
  end.

Definition foodStep (data : ActivityData) : float :=
  let foodEmissions := 0 in
  let foodEmissions :=
    match beefServings data with
    | Some n =>
        if JS.truthy_number n
        then foodEmissions + beef (food EMISSION_FACTORS) * 0.5 * n
        else foodEmissions
    | None => foodEmissions
    end in
  let foodEmissions :=
    match chickenServings data with
    | Some n =>
        if JS.truthy_number n
        then foodEmissions + chicken (food EMISSION_FACTORS) * 0.2 * n
        else foodEmissions
    | None => foodEmissions
    end in
  match vegetableServings data with
  | Some n =>
      if JS.truthy_number n
      then foodEmissions + vegetables (food EMISSION_FACTORS) * 0.15 * n
      else foodEmissions
  | None => foodEmissions
  end.

Definition rawEmissions (data : ActivityData) : RawEmissions := {|
  rawTransport := transportStep data;
  rawEnergy := energyStep data;
  rawFood := foodStep data
|}.

Definition calculateEmissions (data : ActivityData) : EmissionResults :=
  let raw := rawEmissions data in
  let total := rawTransport raw + rawEnergy raw + rawFood raw in
  {| transportEmissions := round2 (rawTransport raw);
     energyEmissions := round2 (rawEnergy raw);
     foodEmissions := round2 (rawFood raw);
     totalEmissions := round2 total |}.

(** Based on daily emissions: below 5 is low, below 15 is medium. *)
Definition getEmissionCategory (totalEmissions : float) : EmissionCategory :=
  if totalEmissions <? 5 then low
  else if totalEmissions <? 15 then medium
  else high.

Definition getReductionTips (emissionsByCategory : ByCategory.t) : list Tip :=
  let tips := [] in
  let tips :=
    if (ByCategory.energy emissionsByCategory <? ByCategory.transport emissionsByCategory)
       && (ByCategory.food emissionsByCategory <? ByCategory.transport emissionsByCategory)
    then tips ++ [tipPublicTransport; tipCarpooling]
    else tips in
  let tips :=
    if 1.0 <? ByCategory.energy emissionsByCategory
    then tips ++ [tipLedBulbs; tipUnplug]
    else tips in
  let tips :=
    if 0.5 <? ByCategory.food emissionsByCategory
    then tips ++ [tipPlantBased; tipLocalProduce]
    else tips in
  tips.

End CarbonCalculations.

(* ================================================================== *)
(** * server routes module *)
(* ================================================================== *)

Module Routes.
Local Open Scope float_scope.

Definition EMISSION_FACTORS : Factors := {|
  transport :=
    [ ("car_gasoline", 0.39); ("car_electric", 0.13); ("bus", 0.07);
      ("train", 0.045); ("bike", 0); ("walking", 0) ]%string;
  energy := {| electricity := 0.37; naturalGas := 5.3 |};
  food := {| beef := 30.4; chicken := 4.2; vegetables := 1.0 |}
|}.

(** Transport: the looked-up factor is multiplied unconditionally, so an
    [undefined] factor is converted to a number by the multiplication. *)
Definition transportStep (data : ActivityData) : float :=
  if JS.truthy_string (transportType data) && JS.truthy (transportDistance data) then
    match transportType data, transportDistance data with
    | Some t, Some d =>
        let factor := JS.get (transport EMISSION_FACTORS) t in
        JS.ToNumber factor * d
    | _, _ => 0
    end
  else 0.

Definition energyStep (data : ActivityData) : float :=
  let energyEmissions := 0 in
  let energyEmissions :=
    match electricityUsage data with
    | Some u =>
        if JS.truthy_number u
        then energyEmissions + electricity (energy EMISSION_FACTORS) * u
        else energyEmissions
    | None => energyEmissions
    end in
  match naturalGasUsage data with
  | Some u =>
      if JS.truthy_number u
      then energyEmissions + naturalGas (energy EMISSION_FACTORS) * u
      else energyEmissions
  | None => energyEmissions
  end.

Definition foodStep (data : ActivityData) : float :=
  let foodEmissions := 0 in
  let foodEmissions :=
    match beefServings data with
    | Some n =>
        if JS.truthy_number n
        then foodEmissions + beef (food EMISSION_FACTORS) * 0.5 * n
        else foodEmissions
    | None => foodEmissions
    end in
  let foodEmissions :=
    match chickenServings data with
    | Some n =>
        if JS.truthy_number n
        then foodEmissions + chicken (food EMISSION_FACTORS) * 0.2 * n
        else foodEmissions
    | None => foodEmissions
    end in
  match vegetableServings data with
  | Some n =>
      if JS.truthy_number n
      then foodEmissions + vegetables (food EMISSION_FACTORS) * 0.15 * n
      else foodEmissions
  | None => foodEmissions
  end.

Definition rawEmissions (data : ActivityData) : RawEmissions := {|
  rawTransport := transportStep data;
  rawEnergy := energyStep data;
  rawFood := foodStep data
|}.

Definition calculateEmissions (data : ActivityData) : EmissionResults :=
  let raw := rawEmissions data in
  let total := rawTransport raw + rawEnergy raw + rawFood raw in
  {| transportEmissions := round2 (rawTransport raw);
     energyEmissions := round2 (rawEnergy raw);
     foodEmissions := round2 (rawFood raw);
     totalEmissions := round2 total |}.

(** The dashboard's reduction percentage:
    [last > 0 ? Math.round(((last - this) / last) * 100) : 0]. *)
Definition reductionPercentage (emissionsLastMonth emissionsThisMonth : float) : float :=
  if 0 <? emissionsLastMonth
  then JS.Math_round (((emissionsLastMonth - emissionsThisMonth) / emissionsLastMonth) * 100)
  else 0.



Definition generatePersonalizedTips (emissionsByCategory : ByCategory.t) : list Tip :=
  let tips := [] in
  let tips :=
    if (ByCategory.energy emissionsByCategory <? ByCategory.transport emissionsByCategory)
       && (ByCategory.food emissionsByCategory <? ByCategory.transport emissionsByCategory)
    then tips ++ [tipPublicTransport; tipCarpooling]
    else tips in
  let tips :=
    if 1.0 <? ByCategory.energy emissionsByCategory
    then tips ++ [tipLedBulbs; tipUnplug]
    else tips in
  let tips :=
    if 0.5 <? ByCategory.food emissionsByCategory
    then tips ++ [tipPlantBased; tipLocalProduce]
    else tips in
  let tips :=
    if Nat.eqb (List.length tips) 0
    then tips ++ [tipKeepItUp; tipOffset]
    else tips in
  firstn 3 tips.

End Routes.


(* ================================================================== *)
(** * Promises *)
(* ================================================================== *)

(** The errors with which PostgreSQL refuses a query of the storage
    module: "value out of range: overflow" and "invalid input syntax for
    type date". *)
Inductive DatabaseError : Type :=
| FloatOverflow
| InvalidDate.

(** What awaiting an [async] function of the storage module gives: the
    value the promise resolves to, or the error it rejects with. *)
Inductive Promise (A : Type) : Type :=
| Resolves (value : A)
| Rejects (error : DatabaseError).

Arguments Resolves {A} value.
Arguments Rejects {A} error.

Definition await {A B : Type} (p : Promise A) (k : A -> Promise B) : Promise B :=
  match p with
  | Resolves value => k value
  | Rejects error => Rejects error
  end.

Notation "x <- p ;; k" := (await p (fun x => k))
  (at level 61, p at next level, right associativity).

(** [f] on each row in turn; the first error ends the query. *)
Fixpoint forEach {A B : Type} (f : A -> Promise B) (l : list A) : Promise (list B) :=
  match l with
  | [] => Resolves []
  | x :: rest =>
      y <- f x ;;
      ys <- forEach f rest ;;
      Resolves (y :: ys)
  end.

(* ================================================================== *)
(** * JavaScript dates *)
(* ================================================================== *)

(** Time values are milliseconds since 1970-01-01T00:00:00Z, days are
    counted from the same instant; both are integers.  The definitions are
    those of the ECMAScript specification (Day, DayFromYear, MakeDay,
    MakeDate, UTC).  Years are taken from 1970 on and of four digits, which
    is what a server clock reads. *)

Module JSDate.
Local Open Scope Z_scope.

Definition msPerDay : Z := 86400000.

Definition Day (t : Z) : Z := t / msPerDay.

Definition DayFromYear (y : Z) : Z :=
  365 * (y - 1970) + (y - 1969) / 4 - (y - 1901) / 100 + (y - 1601) / 400.

Definition InLeapYear (y : Z) : bool :=
  ((y mod 4 =? 0) && negb (y mod 100 =? 0)) || (y mod 400 =? 0).

(** The day within the year on which month [mn] (0 = January) begins. *)
Definition monthStart (mn : Z) (leap : bool) : Z :=
  let l := if leap then 1 else 0 in
  match mn with
  | 0 => 0
  | 1 => 31
  | 2 => 59 + l
  | 3 => 90 + l
  | 4 => 120 + l
  | 5 => 151 + l
  | 6 => 181 + l
  | 7 => 212 + l
  | 8 => 243 + l
  | 9 => 273 + l
  | 10 => 304 + l
  | _ => 334 + l
  end.

(** [MakeDay(year, month, date)]: months beyond 0..11 carry into the year,
    days are counted on from the first of the month, so that date 0 is the
    last day of the month before. *)
Definition MakeDay (year month date : Z) : Z :=
  let ym := year + month / 12 in
  let mn := month mod 12 in
  DayFromYear ym + monthStart mn (InLeapYear ym) + date - 1.

Definition MakeDate (day time : Z) : Z := day * msPerDay + time.

(** What the server's clock and time zone give the code: the local year
    and month of [new Date()], and the offset of local time from UTC, in
    milliseconds (positive east of Greenwich), in force at a local time
    value. *)
Record Clock : Type := {
  getFullYear : Z;
  getMonth : Z;
  LocalTZA : Z -> Z
}.

Definition UTC (c : Clock) (t : Z) : Z := t - LocalTZA c t.

(** [new Date(year, month, date)]: local midnight of that day, as a time
    value. *)
Definition newDate (c : Clock) (year month date : Z) : Z :=
  UTC c (MakeDate (MakeDay year month date) 0).

(** [d.toISOString().split('T')[0]]: the date of the time value in UTC.
    It is written YYYY-MM-DD and read back by PostgreSQL as the same day,
    so the model keeps the day number. *)
Definition toISODate (tv : Z) : Z := Day tv.

End JSDate.

(* ================================================================== *)
(** * PostgreSQL real numbers *)
(* ================================================================== *)

(** The [real] columns hold IEEE 754 binary32 values, NaN and the
    infinities included.  [float4pl], [float4lt] and [float4le] are the
    functions of PostgreSQL's float.c under these names: addition rounds to
    binary32 and refuses an overflow; in comparisons NaN is equal to itself
    and greater than every other value. *)

Module Real.

Definition real : Type := spec_float.

Definition FLT_MANT_DIG : Z := 24.
Definition FLT_MAX_EXP : Z := 128.

Definition zero : real := S754_zero false.

Definition isnan (x : real) : bool :=
  match x with
  | S754_nan => true
  | _ => false
  end.

Definition isinf (x : real) : bool :=
  match x with
  | S754_infinity _ => true
  | _ => false
  end.

Definition iszero (x : real) : bool :=
  match x with
  | S754_zero _ => true
  | _ => false
  end.

Definition float4pl (val1 val2 : real) : Promise real :=
  let result := SFadd FLT_MANT_DIG FLT_MAX_EXP val1 val2 in
  if isinf result && negb (isinf val1) && negb (isinf val2)
  then Rejects FloatOverflow
  else Resolves result.

Definition float4lt (val1 val2 : real) : bool :=
  negb (isnan val1) && (isnan val2 || SFltb val1 val2).

Definition float4le (val1 val2 : real) : bool :=
  isnan val2 || (negb (isnan val1) && SFleb val1 val2).

(** The binary32 value nearest to [m * 2^e]. *)
Definition float4 (m e : Z) : real :=
  binary_normalize FLT_MANT_DIG FLT_MAX_EXP m e false.

(** The binary32 value nearest to [m / 10^k], for [m] and [10^k] that are
    binary32 values themselves. *)
Definition decimal (m : Z) (k : Z) : real :=
  SFdiv FLT_MANT_DIG FLT_MAX_EXP (float4 m 0) (float4 (10 ^ k) 0).

End Real.

(* ================================================================== *)
(** * server storage module *)
(* ================================================================== *)

(** The queries of the storage module, read with the relational semantics
    of PostgreSQL.  A table is the list of its rows, in the order in which a
    scan returns them; an aggregate reads the rows of its group in that
    order.  The [date] column holds day numbers (days since 1970-01-01), the
    [real] columns binary32 values.  A date string bound to a parameter is
    compared as the day it denotes.

    A number read from a [real] column reaches JavaScript as the number of
    the same value, and a number bound to a parameter that is compared with
    a [real] is read back as that binary32 value (PostgreSQL prints a real
    in the shortest form that reads back unchanged); the model keeps the
    binary32 value on both sides. *)

Module Storage.
Import JSDate Real.

(** A row of [users], without its two timestamps. *)
Record User : Type := {
  id : string;
  email : option string;
  firstName : option string;
  lastName : option string;
  profileImageUrl : option string
}.

(** The columns of [activities] the queries below read. *)
Record Activity : Type := {
  userId : string;
  date : Z;
  totalEmissions : real
}.

Record DB : Type := {
  users : list User;
  activities : list Activity
}.

Record LeaderboardEntry : Type := {
  user : User;
  entryTotalEmissions : real;
  rank : nat
}.

(** [and(gte(activities.date, from), lte(activities.date, to))] *)
Definition inRange (from to d : Z) : bool :=
  (from <=? d)%Z && (d <=? to)%Z.

(** [sum(real)] adds with [float4pl], from the first value on and in the
    order of the rows. *)
Fixpoint sumFrom (state : real) (values : list real) : Promise real :=
  match values with
  | [] => Resolves state
  | x :: rest =>
      next <- float4pl state x ;;
      sumFrom next rest
  end.

(** SQL [sum] over a [real] column: NULL over no rows. *)
Definition sql_sum (values : list real) : Promise (option real) :=
  match values with
  | [] => Resolves None
  | x :: rest =>
      total <- sumFrom x rest ;;
      Resolves (Some total)
  end.

(** [total || 0] on a possibly NULL aggregate: null, NaN and both zeros
    are falsy. *)
Definition or_zero (total : option real) : real :=
  match total with
  | Some x => if isnan x || iszero x then zero else x
  | None => zero
  end.

(** [GROUP BY key]: one group per distinct key, holding the rows of that
    key. *)
Definition groupBy {A : Type} (key : A -> string) (rows : list A)
  : list (string * list A) :=
  map (fun k => (k, filter (fun r => String.eqb (key r) k) rows))
      (nodup string_dec (map key rows)).

(** [ORDER BY] leaves the order of rows with equal keys to the engine.  A
    query with an [ORDER BY] takes the engine's sort as its first argument;
    a sort is admissible when it returns, for every list of rows, the same
    rows in an order that [le] accepts. *)
Definition sortsBy {A : Type} (le : A -> A -> bool) (order : list A -> list A)
  : Prop :=
  forall rows,
    Permutation rows (order rows)
    /\ StronglySorted (fun a b => le a b = true) (order rows).

(** One admissible sort: the stable insertion sort. *)
Fixpoint insertBy {A : Type} (le : A -> A -> bool) (x : A) (l : list A) : list A :=
  match l with
  | [] => [x]
  | y :: rest =>
      if le x y then x :: y :: rest
      else y :: insertBy le x rest
  end.

Definition orderBy {A : Type} (le : A -> A -> bool) (l : list A) : list A :=
  fold_right (insertBy le) [] l.

(** [rows.map((row, index) => f(row, index))] *)
Definition mapi {A B : Type} (f : A -> nat -> B) (rows : list A) : list B :=
  map (fun p => f (snd p) (fst p)) (combine (seq 0 (List.length rows)) rows).

(** The query shared by [getEmissionsThisMonth], [getEmissionsLastMonth]
    and the first query of [getUserRank]:
    [select sum(total_emissions) from activities
     where user_id = $1 and date >= $2 and date <= $3]. *)
Definition sumInRange (db : DB) (uid : string) (from to : Z)
  : Promise (option real) :=
  sql_sum
    (map totalEmissions
       (filter (fun a => String.eqb (userId a) uid && inRange from to (date a))
               (activities db))).

Definition getTotalEmissions (db : DB) (uid : string) : Promise real :=
  result <-
    sql_sum (map totalEmissions
               (filter (fun a => String.eqb (userId a) uid) (activities db))) ;;
  Resolves (or_zero result).

Definition getEmissionsThisMonth (db : DB) (now : Clock) (uid : string)
  : Promise real :=
  let startOfMonth := newDate now (getFullYear now) (getMonth now) 1 in
  let endOfMonth := newDate now (getFullYear now) (getMonth now + 1) 0 in
  result <- sumInRange db uid (toISODate startOfMonth) (toISODate endOfMonth) ;;
  Resolves (or_zero result).

Definition getEmissionsLastMonth (db : DB) (now : Clock) (uid : string)
  : Promise real :=
  let startOfLastMonth := newDate now (getFullYear now) (getMonth now - 1) 1 in
  let endOfLastMonth := newDate now (getFullYear now) (getMonth now) 0 in
  result <-
    sumInRange db uid (toISODate startOfLastMonth) (toISODate endOfLastMonth) ;;
  Resolves (or_zero result).

(** [users LEFT JOIN activities ON users.id = activities.userId] *)
Definition leftJoin (us : list User) (acts : list Activity)
  : list (User * option Activity) :=
  flat_map
    (fun u =>
       match filter (fun a => String.eqb (id u) (userId a)) acts with
       | [] => [(u, None)]
       | matches => map (fun a => (u, Some a)) matches
       end)
    us.

(** The [WHERE] clause of the leaderboard: a row whose activity columns are
    NULL fails both comparisons. *)
Definition whereInRange (from to : Z) (rows : list (User * option Activity))
  : list (User * Activity) :=
  flat_map
    (fun r =>
       match snd r with
       | Some a => if inRange from to (date a) then [(fst r, a)] else []
       | None => []
       end)
    rows.

(** The selected columns of one group: the user row and
    [sum(activities.totalEmissions)].  A group holds at least one row and
    the column is NOT NULL, so the sum is not NULL. *)
Definition selectGroup (g : string * list (User * Activity))
  : Promise (list (User * real)) :=
  match snd g with
  | [] => Resolves []
  | (u, a) :: rest =>
      total <-
        sumFrom (totalEmissions a)
                     (map (fun r => totalEmissions (snd r)) rest) ;;
      Resolves [(u, total)]
  end.

(** [ORDER BY sum(total_emissions) ASC] *)
Definition bySum (r1 r2 : User * real) : bool := float4le (snd r1) (snd r2).

(** The rows of the leaderboard query before [ORDER BY] and [LIMIT]. *)
Definition leaderboardGroups (db : DB) (from to : Z)
  : Promise (list (User * real)) :=
  let joined := leftJoin (users db) (activities db) in
  let filtered := whereInRange from to joined in
  let groups := groupBy (fun r => id (fst r)) filtered in
  selected <- forEach selectGroup groups ;;
  Resolves (List.concat selected).

(** [limit] is the row count given to LIMIT, [None] when the caller passes
    no limit; [order] is the engine's sort for [ORDER BY]. *)
Definition getLeaderboard
  (order : list (User * real) -> list (User * real))
  (db : DB) (now : Clock) (limit : option nat)
  : Promise (list LeaderboardEntry) :=
  let limit := match limit with Some n => n | None => 10%nat end in
  let startOfMonth := newDate now (getFullYear now) (getMonth now) 1 in
  let endOfMonth := newDate now (getFullYear now) (getMonth now + 1) 0 in
  groups <-
    leaderboardGroups db (toISODate startOfMonth) (toISODate endOfMonth) ;;
  let result := firstn limit (order groups) in
  Resolves
    (mapi (fun row index =>
             {| user := fst row;
                entryTotalEmissions := or_zero (Some (snd row));
                rank := index + 1 |})
          result).

(** The groups of the second query of [getUserRank] that pass
    [HAVING sum(total_emissions) < userTotal]. *)
Definition betterGroups (db : DB) (from to : Z) (userTotal : real)
  : Promise (list (string * list Activity)) :=
  let rows := filter (fun a => inRange from to (date a)) (activities db) in
  groups <-
    forEach
      (fun g =>
         total <- sql_sum (map totalEmissions (snd g)) ;;
         Resolves (g, total))
      (groupBy userId rows) ;;
  Resolves
    (map fst
       (filter
          (fun g =>
             match snd g with
             | Some total => float4lt total userTotal
             | None => false
             end)
          groups)).

Definition getUserRank (db : DB) (now : Clock) (uid : string) : Promise nat :=
  let startOfMonth := newDate now (getFullYear now) (getMonth now) 1 in
  let endOfMonth := newDate now (getFullYear now) (getMonth now + 1) 0 in
  userEmissions <-
    sumInRange db uid (toISODate startOfMonth) (toISODate endOfMonth) ;;
  let userTotal := or_zero userEmissions in
  groups <-
    betterGroups db (toISODate startOfMonth) (toISODate endOfMonth) userTotal ;;
  let betterUsers := map (fun g => List.length (snd g)) groups in
  Resolves (List.length betterUsers + 1)%nat.

(** [ORDER BY activities.date DESC] *)
Definition byDateDesc (a b : Activity) : bool := (date b <=? date a)%Z.

(** [getUserActivities(userId, limit = 30)] *)
Definition getUserActivities
  (order : list Activity -> list Activity)
  (db : DB) (uid : string) (limit : option nat) : list Activity :=
  let limit := match limit with Some n => n | None => 30%nat end in
  firstn limit
    (order (filter (fun a => String.eqb (userId a) uid) (activities db))).

(** [getUserActivitiesByDateRange]: the two strings are bound to parameters
    compared with the [date] column; [date_in] is PostgreSQL's reading of a
    string as a date, [None] for a string it refuses. *)
Definition getUserActivitiesByDateRange
  (date_in : string -> option Z)
  (order : list Activity -> list Activity)
  (db : DB) (uid startDate endDate : string) : Promise (list Activity) :=
  match date_in startDate, date_in endDate with
  | Some from, Some to =>
      Resolves
        (order
           (filter (fun a => String.eqb (userId a) uid
                             && (from <=? date a)%Z
                             && (date a <=? to)%Z)
                   (activities db)))
  | _, _ => Rejects InvalidDate
  end.

(** The integrity constraints of the schema: [users.id] is a primary key and
    [activities.userId] references it. *)
Fixpoint distinct (l : list string) : bool :=
  match l with
  | [] => true
  | x :: rest => negb (existsb (String.eqb x) rest) && distinct rest
  end.

Definition wellFormed (db : DB) : bool :=
  distinct (map id (users db))
  && forallb (fun a => existsb (fun u => String.eqb (id u) (userId a)) (users db))
             (activities db).

End Storage.

(* ================================================================== *)
(** * Sample inputs *)
(* ================================================================== *)

Definition withTransport (t : string) (d : float) : ActivityData := {|
  transportType := Some t; transportDistance := Some d;
  electricityUsage := None; naturalGasUsage := None;
  beefServings := None; chickenServings := None; vegetableServings := None
|}.

(** Train for 0.1 mile and 0.01 kWh of electricity: 0.0045 kg and 0.0037 kg,
    both rounded to 0.00, while their sum 0.0082 kg is rounded to 0.01. *)
Definition shortTrip : ActivityData := {|
  transportType := Some "train"%string; transportDistance := Some 0.1%float;
  electricityUsage := Some 0.01%float; naturalGasUsage := None;
  beefServings := None; chickenServings := None; vegetableServings := None
|}.


Definition mixedMeal : ActivityData := {|
  transportType := None; transportDistance := None;
  electricityUsage := None; naturalGasUsage := None;
  beefServings := Some 1%float; chickenServings := Some 0%float; vegetableServings := Some 3%float
|}.

(** 100 miles by gasoline car and two servings of beef. *)
Definition carAndBeef : ActivityData := {|
  transportType := Some "car_gasoline"%string; transportDistance := Some 100%float;
  electricityUsage := None; naturalGasUsage := None;
  beefServings := Some 2%float; chickenServings := None; vegetableServings := None
|}.

Module Samples.
Import JSDate Real Storage.
Local Open Scope string_scope.

Definition mkUser (i : string) : User :=
  {| id := i; email := None; firstName := None; lastName := None;
     profileImageUrl := None |}.

(** The day number of a calendar date, month 1 to 12. *)
Definition ymd (y m d : Z) : Z := MakeDay y (m - 1) d.

Definition kg (n : Z) : real := float4 n 0.

(** June 2025 on a server that keeps UTC. *)
Definition juneUTC : Clock :=
  {| getFullYear := 2025; getMonth := 5; LocalTZA := fun _ => 0%Z |}.

(** June 2025 on a server two hours east of UTC. *)
Definition juneEast : Clock :=
  {| getFullYear := 2025; getMonth := 5; LocalTZA := fun _ => 7200000%Z |}.

Definition userA : User := mkUser "A".
Definition userB : User := mkUser "B".
Definition userC : User := mkUser "C".

(** A has 100 kg over two June records, B has 50 kg, C only a May record. *)
Definition db_two : DB := {|
  users := [userA; userB; userC];
  activities :=
    [ {| userId := "A"; date := ymd 2025 6 3; totalEmissions := kg 60 |};
      {| userId := "B"; date := ymd 2025 6 4; totalEmissions := kg 50 |};
      {| userId := "C"; date := ymd 2025 5 30; totalEmissions := kg 1 |};
      {| userId := "A"; date := ymd 2025 6 10; totalEmissions := kg 40 |} ]
|}.

(** A and B both total 50 kg in June. *)
Definition db_tie : DB := {|
  users := [userA; userB];
  activities :=
    [ {| userId := "A"; date := ymd 2025 6 3; totalEmissions := kg 50 |};
      {| userId := "B"; date := ymd 2025 6 4; totalEmissions := kg 20 |};
      {| userId := "B"; date := ymd 2025 6 9; totalEmissions := kg 30 |} ]
|}.

(** A has 100 kg on the last day of June, B has 50 kg. *)
Definition db_lastDay : DB := {|
  users := [userA; userB];
  activities :=
    [ {| userId := "A"; date := ymd 2025 6 30; totalEmissions := kg 100 |};
      {| userId := "B"; date := ymd 2025 6 4; totalEmissions := kg 50 |} ]
|}.

(** A has a record whose total is NaN, B has 50 kg. *)
Definition db_nan : DB := {|
  users := [userA; userB];
  activities :=
    [ {| userId := "A"; date := ymd 2025 6 3; totalEmissions := S754_nan |};
      {| userId := "B"; date := ymd 2025 6 4; totalEmissions := kg 50 |} ]
|}.

Definition stable : list (User * real) -> list (User * real) := orderBy bySum.
Definition reversed  (l : list (User * real)) : list (User * real) := orderBy bySum (rev l).

End Samples.

(* ================================================================== *)
(** * Facts about binary64 arithmetic *)
(* ================================================================== *)

Module FloatFacts.
Local Open Scope float_scope.

Definition sf_zero (X : spec_float) : bool :=
  match X with
  | S754_zero _ => true
  | _ => false
  end.

Lemma Prim2SF_nan : Prim2SF nan = S754_nan.
Proof. reflexivity. Qed.

Lemma Prim2SF_zero : Prim2SF zero = S754_zero false.
Proof. reflexivity. Qed.

Lemma is_zero_spec (x : float) : is_zero x = sf_zero (Prim2SF x).
Proof.
  unfold is_zero. rewrite eqb_spec, Prim2SF_zero.
  destruct (Prim2SF x) as [s|s| |s m e]; try destruct s; reflexivity.
Qed.

Lemma is_nan_of_SF (x : float) : Prim2SF x = S754_nan -> is_nan x = true.
Proof. intros H. unfold is_nan. rewrite eqb_spec, H. reflexivity. Qed.



Lemma mul_nan_l (x : float) : nan * x = nan.
Proof.
  apply Prim2SF_inj. rewrite mul_spec, Prim2SF_nan.
  destruct (Prim2SF x); reflexivity.
Qed.

Lemma add_nan_l (x : float) : nan + x = nan.
Proof.
  apply Prim2SF_inj. rewrite add_spec, Prim2SF_nan.
  destruct (Prim2SF x); reflexivity.
Qed.

Lemma round2_nan : round2 nan = nan.
Proof. reflexivity. Qed.

(** ** SameValueZero on specification floats *)














End FloatFacts.

(* ================================================================== *)
(** * The emission calculator *)
(* ================================================================== *)

Module CalculatorSpec.
Import FloatFacts.
Local Open Scope float_scope.

(** The two copies of the calculator: client and server. *)
Definition calculators : list (ActivityData -> EmissionResults) :=
  [ CarbonCalculations.calculateEmissions; Routes.calculateEmissions ].

Definition calculatorsWithRaw
  : list ((ActivityData -> EmissionResults) * (ActivityData -> RawEmissions)) :=
  [ (CarbonCalculations.calculateEmissions, CarbonCalculations.rawEmissions);
    (Routes.calculateEmissions, Routes.rawEmissions) ].


Lemma energyStep_same (data : ActivityData) :
  Routes.energyStep data = CarbonCalculations.energyStep data.
Proof. reflexivity. Qed.

Lemma factor_tables_same :
  Routes.EMISSION_FACTORS = CarbonCalculations.EMISSION_FACTORS.
Proof. reflexivity. Qed.

Lemma table_keys :
  map fst (transport CarbonCalculations.EMISSION_FACTORS) = recognized_types.
Proof. reflexivity. Qed.

(** A recognized type is an own property of the table. *)
Lemma get_recognized (t : string) (f : float) :
  In (t, f) (transport CarbonCalculations.EMISSION_FACTORS) ->
  JS.get (transport CarbonCalculations.EMISSION_FACTORS) t = JS.Number f.
Proof.
  cbn [transport CarbonCalculations.EMISSION_FACTORS In].
  intros H.
  repeat (destruct H as [H|H]; [inversion H; subst; reflexivity|]).
  contradiction.
Qed.

Lemma recognized_has_factor (t : string) :
  In t recognized_types ->
  exists f, In (t, f) (transport CarbonCalculations.EMISSION_FACTORS).
Proof.
  rewrite <- table_keys. intros H. apply in_map_iff in H.
  destruct H as [[t' f] [E H]]. simpl in E. subst. now exists f.
Qed.

(** A type outside the table is not an own property. *)
Lemma own_property_unrecognized (t : string) :
  ~ In t recognized_types ->
  JS.own_property (transport CarbonCalculations.EMISSION_FACTORS) t = None.
Proof.
  intros H. cbn [transport CarbonCalculations.EMISSION_FACTORS JS.own_property].
  repeat match goal with
  | |- context [String.eqb t ?k] =>
      destruct (String.eqb_spec t k) as [E|_];
      [exfalso; apply H; rewrite E; cbn; tauto|]
  end.
  reflexivity.
Qed.

Lemma get_unrecognized (t : string) :
  ~ In t recognized_types ->
  JS.ToNumber (JS.get (transport CarbonCalculations.EMISSION_FACTORS) t) = nan.
Proof.
  intros H. unfold JS.get. rewrite (own_property_unrecognized t H).
  destruct (existsb _ _); reflexivity.
Qed.

Lemma truthy_string_Some (t : string) :
  JS.truthy_string (Some t) = negb (String.eqb t "").
Proof. reflexivity. Qed.

Lemma recognized_truthy (t : string) :
  In t recognized_types -> JS.truthy_string (Some t) = true.
Proof.
  cbn [recognized_types In]. intros H.
  repeat (destruct H as [H|H]; [subst; reflexivity|]). contradiction.
Qed.

(** The transport step of either copy on a recognized type. *)
Lemma client_transportStep_recognized (data : ActivityData) (t : string) (f d : float) :
  In (t, f) (transport CarbonCalculations.EMISSION_FACTORS) ->
  transportType data = Some t -> transportDistance data = Some d ->
  CarbonCalculations.transportStep data
  = if JS.truthy_number d then f * d else 0.
Proof.
  intros Hin Ht Hd. unfold CarbonCalculations.transportStep.
  rewrite Ht, Hd, (get_recognized t f Hin).
  rewrite recognized_truthy.
  - cbn [JS.truthy andb JS.ToNumber]. reflexivity.
  - rewrite <- table_keys. apply in_map_iff. now exists (t, f).
Qed.

Lemma server_transportStep_recognized (data : ActivityData) (t : string) (f d : float) :
  In (t, f) (transport CarbonCalculations.EMISSION_FACTORS) ->
  transportType data = Some t -> transportDistance data = Some d ->
  Routes.transportStep data
  = if JS.truthy_number d then f * d else 0.
Proof.
  intros Hin Ht Hd. unfold Routes.transportStep.
  rewrite Ht, Hd, factor_tables_same, (get_recognized t f Hin).
  rewrite recognized_truthy.
  - cbn [JS.truthy andb JS.ToNumber]. reflexivity.
  - rewrite <- table_keys. apply in_map_iff. now exists (t, f).
Qed.

Lemma transportStep_absent_type (data : ActivityData) :
  transportType data = None ->
  Routes.transportStep data = CarbonCalculations.transportStep data.
Proof.
  intros Ht. unfold Routes.transportStep, CarbonCalculations.transportStep.
  rewrite Ht. reflexivity.
Qed.

Lemma transportStep_absent_distance (data : ActivityData) :
  transportDistance data = None ->
  Routes.transportStep data = CarbonCalculations.transportStep data.
Proof.
  intros Hd. unfold Routes.transportStep, CarbonCalculations.transportStep.
  rewrite Hd. cbn [JS.truthy]. rewrite andb_false_r. reflexivity.
Qed.

(** ** Total and category fields *)

(** The total is not always round2 of the sum of the returned (rounded)
    category fields. *)
Lemma total_of_rounded_fields_counterexample :
  transportEmissions (CarbonCalculations.calculateEmissions shortTrip) = 0
  /\ energyEmissions (CarbonCalculations.calculateEmissions shortTrip) = 0
  /\ foodEmissions (CarbonCalculations.calculateEmissions shortTrip) = 0
  /\ totalEmissions (CarbonCalculations.calculateEmissions shortTrip) = 0.01
  /\ totalEmissions (CarbonCalculations.calculateEmissions shortTrip)
     <> round2 (transportEmissions (CarbonCalculations.calculateEmissions shortTrip)
                + energyEmissions (CarbonCalculations.calculateEmissions shortTrip)
                + foodEmissions (CarbonCalculations.calculateEmissions shortTrip)).
Proof.
  repeat split; try reflexivity.
  intros H. apply (f_equal (fun x => x =? 0)) in H.
  vm_compute in H. discriminate.
Qed.

(** C1 (amended): in both copies of the calculator the total is round2 of
    the sum of the unrounded transport, energy and food values, and each
    returned category field is round2 of its own unrounded value; so the
    total is round2 of the sum of the returned fields whenever rounding
    leaves the three category values unchanged. *)
Theorem total_is_round2_of_raw_sum
  (calc : ActivityData -> EmissionResults) (raw : ActivityData -> RawEmissions)
  (data : ActivityData) :
  In (calc, raw) calculatorsWithRaw ->
  totalEmissions (calc data)
  = round2 (rawTransport (raw data) + rawEnergy (raw data) + rawFood (raw data))
  /\ transportEmissions (calc data) = round2 (rawTransport (raw data))
  /\ energyEmissions (calc data) = round2 (rawEnergy (raw data))
  /\ foodEmissions (calc data) = round2 (rawFood (raw data))
  /\ (round2 (rawTransport (raw data)) = rawTransport (raw data) ->
      round2 (rawEnergy (raw data)) = rawEnergy (raw data) ->
      round2 (rawFood (raw data)) = rawFood (raw data) ->
      totalEmissions (calc data)
      = round2 (transportEmissions (calc data) + energyEmissions (calc data)
                + foodEmissions (calc data))).
Proof.
  intros Hin.
  assert (E : calc data
              = {| transportEmissions := round2 (rawTransport (raw data));
                   energyEmissions := round2 (rawEnergy (raw data));
                   foodEmissions := round2 (rawFood (raw data));
                   totalEmissions :=
                     round2 (rawTransport (raw data) + rawEnergy (raw data)
                             + rawFood (raw data)) |}).
  { destruct Hin as [[= <- <-] | [[= <- <-] | []]]; reflexivity. }
  rewrite E. cbn [totalEmissions transportEmissions energyEmissions foodEmissions].
  repeat split. intros Ht He Hf. now rewrite Ht, He, Hf.
Qed.

Lemma total_is_round2_of_raw_sum_witness :
  totalEmissions (Routes.calculateEmissions carAndBeef)
  = round2 (rawTransport (Routes.rawEmissions carAndBeef)
            + rawEnergy (Routes.rawEmissions carAndBeef)
            + rawFood (Routes.rawEmissions carAndBeef))
  /\ totalEmissions (Routes.calculateEmissions carAndBeef)
     = round2 (transportEmissions (Routes.calculateEmissions carAndBeef)
               + energyEmissions (Routes.calculateEmissions carAndBeef)
               + foodEmissions (Routes.calculateEmissions carAndBeef)).
Proof.
  destruct (total_is_round2_of_raw_sum
              Routes.calculateEmissions Routes.rawEmissions carAndBeef)
    as [Htotal [_ [_ [_ Hexact]]]].
  - cbn; tauto.
  - split; [exact Htotal|]. apply Hexact; reflexivity.
Defined.

Example carAndBeef_result :
  Routes.calculateEmissions carAndBeef
  = {| transportEmissions := 39; energyEmissions := 0;
       foodEmissions := 30.4; totalEmissions := 69.4 |}.
Proof. reflexivity. Qed.

(** ** Client and server agree on recognized types *)

(** C10: when the transport type is absent or one of the six recognized
    keys, the client's and the server's calculateEmissions return the same
    four fields. *)
Theorem client_server_agree (data : ActivityData) :
  transportType data = None
  \/ (exists t, transportType data = Some t /\ In t recognized_types) ->
  CarbonCalculations.calculateEmissions data = Routes.calculateEmissions data.
Proof.
  intros H.
  assert (E : Routes.transportStep data = CarbonCalculations.transportStep data).
  { destruct H as [H | [t [Ht Hin]]].
    - now apply transportStep_absent_type.
    - destruct (transportDistance data) as [d|] eqn:Hd.
      + destruct (recognized_has_factor t Hin) as [f Hf].
        rewrite (client_transportStep_recognized data t f d Hf Ht Hd).
        now rewrite (server_transportStep_recognized data t f d Hf Ht Hd).
      + now apply transportStep_absent_distance. }
  unfold CarbonCalculations.calculateEmissions, Routes.calculateEmissions.
  unfold CarbonCalculations.rawEmissions, Routes.rawEmissions.
  cbn [rawTransport rawEnergy rawFood].
  rewrite E. reflexivity.
Qed.

Lemma client_server_agree_witness :
  CarbonCalculations.calculateEmissions (withTransport "bus" 12)
  = Routes.calculateEmissions (withTransport "bus" 12).
Proof.
  apply (client_server_agree (withTransport "bus" 12)).
  right. exists "bus"%string. split; [reflexivity | cbn; tauto].
Defined.

(** ** Unrecognized transport types *)

(** C2 (server): for a non-empty transport type outside the factor table
    and a truthy distance, the server's calculator multiplies an undefined
    factor: transport and total emissions are NaN, not zero. *)
Theorem server_unrecognized_transport_nan (data : ActivityData) (t : string) (d : float) :
  transportType data = Some t -> t <> ""%string ->
  ~ In t recognized_types ->
  transportDistance data = Some d -> JS.truthy_number d = true ->
  transportEmissions (Routes.calculateEmissions data) = nan
  /\ totalEmissions (Routes.calculateEmissions data) = nan.
Proof.
  intros Ht Hne Hun Hd Htr.
  assert (E : Routes.transportStep data = nan).
  { unfold Routes.transportStep. rewrite Ht, Hd, truthy_string_Some.
    destruct (String.eqb_spec t "") as [->|_]; [contradiction|].
    cbn [negb JS.truthy andb]. rewrite Htr.
    rewrite factor_tables_same, (get_unrecognized t Hun).
    apply mul_nan_l. }
  unfold Routes.calculateEmissions, Routes.rawEmissions.
  cbn [transportEmissions totalEmissions rawTransport rawEnergy rawFood].
  rewrite E, !add_nan_l. split; apply round2_nan.
Qed.

Lemma server_unrecognized_transport_nan_witness :
  transportEmissions (Routes.calculateEmissions (withTransport "plane" 10)) = nan
  /\ totalEmissions (Routes.calculateEmissions (withTransport "plane" 10)) = nan.
Proof.
  apply (server_unrecognized_transport_nan (withTransport "plane" 10) "plane" 10).
  - reflexivity.
  - discriminate.
  - cbn. intuition discriminate.
  - reflexivity.
  - reflexivity.
Defined.

(** The client guards the product: an unrecognized type that is not a name
    inherited from Object.prototype gives zero transport emissions. *)
Lemma client_unrecognized_transport_zero (data : ActivityData) (t : string) :
  transportType data = Some t ->
  ~ In t recognized_types -> ~ In t JS.Object_prototype_keys ->
  transportEmissions (CarbonCalculations.calculateEmissions data) = 0.
Proof.
  intros Ht Hun Hproto.
  assert (E : CarbonCalculations.transportStep data = 0).
  { unfold CarbonCalculations.transportStep. rewrite Ht.
    destruct (JS.truthy_string (Some t) && JS.truthy (transportDistance data));
      [|reflexivity].
    destruct (transportDistance data) as [d|]; [|reflexivity].
    unfold JS.get. rewrite (own_property_unrecognized t Hun).
    destruct (existsb (String.eqb t) JS.Object_prototype_keys) eqn:Ex;
      [|reflexivity].
    apply existsb_exists in Ex. destruct Ex as [k [Hk Ek]].
    apply String.eqb_eq in Ek. subst k. contradiction. }
  unfold CarbonCalculations.calculateEmissions, CarbonCalculations.rawEmissions.
  cbn [transportEmissions rawTransport]. rewrite E. reflexivity.
Qed.

Example client_plane_is_zero :
  CarbonCalculations.calculateEmissions (withTransport "plane" 10)
  = {| transportEmissions := 0; energyEmissions := 0;
       foodEmissions := 0; totalEmissions := 0 |}.
Proof. reflexivity. Qed.

(** A name inherited from Object.prototype passes the client's guard. *)
Example client_inherited_name_is_nan :
  transportEmissions (CarbonCalculations.calculateEmissions (withTransport "constructor" 10))
  = nan.
Proof. reflexivity. Qed.

(** ** Transport emissions of recognized types *)






Example train_twelve_and_a_half :
  transportEmissions (CarbonCalculations.calculateEmissions (withTransport "train" 12.5))
  = 0.56.
Proof. reflexivity. Qed.

(** Zero times an infinite distance is NaN. *)
Example bike_infinite_distance :
  transportEmissions (CarbonCalculations.calculateEmissions (withTransport "bike" infinity))
  = nan.
Proof. reflexivity. Qed.

(** ** Food emissions *)

(** One guarded accumulation [if (n) acc += k * n]. *)
Definition addServing (acc k : float) (x : option float) : float :=
  match x with
  | Some n => if JS.truthy_number n then acc + k * n else acc
  | None => acc
  end.



Lemma foodStep_unfold (data : ActivityData) :
  CarbonCalculations.foodStep data
  = addServing
      (addServing (addServing 0 (30.4 * 0.5) (beefServings data))
                  (4.2 * 0.2) (chickenServings data))
      (1.0 * 0.15) (vegetableServings data).
Proof. reflexivity. Qed.







Example mixedMeal_food :
  foodEmissions (CarbonCalculations.calculateEmissions mixedMeal) = 15.65.
Proof. reflexivity. Qed.

Example client_car_electric_50 :
  CarbonCalculations.calculateEmissions (withTransport "car_electric" 50)
  = {| transportEmissions := 6.5; energyEmissions := 0;
       foodEmissions := 0; totalEmissions := 6.5 |}.
Proof. reflexivity. Qed.

End CalculatorSpec.

(* ================================================================== *)
(** * The dashboard's reduction percentage *)
(* ================================================================== *)

Module RoutesSpec.
Import FloatFacts.
Local Open Scope float_scope.





Example reduction_200_150 : Routes.reductionPercentage 200 150 = 25.
Proof. reflexivity. Qed.

Example reduction_increase : Routes.reductionPercentage 80 100 = -25.
Proof. reflexivity. Qed.

Example reduction_negative_zero : Routes.reductionPercentage (-0) 42 = 0.
Proof. reflexivity. Qed.

End RoutesSpec.

(* ================================================================== *)
(** * More on the emission calculator *)
(* ================================================================== *)

Module CalculatorExtras.
Import FloatFacts CalculatorSpec.
Local Open Scope float_scope.

(** ** Energy emissions *)

Lemma energyStep_unfold (data : ActivityData) :
  CarbonCalculations.energyStep data
  = addServing (addServing 0 0.37 (electricityUsage data))
               5.3 (naturalGasUsage data).
Proof. reflexivity. Qed.





(** ** Falsy inputs *)

(** The input with every falsy field (empty string, 0, -0, NaN) made
    absent. *)
Definition dropFalsyNumber (x : option float) : option float :=
  if JS.truthy x then x else None.

Definition dropFalsy (data : ActivityData) : ActivityData := {|
  transportType :=
    if JS.truthy_string (transportType data) then transportType data else None;
  transportDistance := dropFalsyNumber (transportDistance data);
  electricityUsage := dropFalsyNumber (electricityUsage data);
  naturalGasUsage := dropFalsyNumber (naturalGasUsage data);
  beefServings := dropFalsyNumber (beefServings data);
  chickenServings := dropFalsyNumber (chickenServings data);
  vegetableServings := dropFalsyNumber (vegetableServings data)
|}.

Lemma addServing_dropFalsy (acc k : float) (x : option float) :
  addServing acc k (dropFalsyNumber x) = addServing acc k x.
Proof.
  unfold dropFalsyNumber. destruct x as [n|]; [|reflexivity].
  cbn. destruct (JS.truthy_number n) eqn:E; cbn; now rewrite ?E.
Qed.

Lemma truthy_dropFalsy (x : option float) :
  JS.truthy (dropFalsyNumber x) = JS.truthy x.
Proof.
  unfold dropFalsyNumber. destruct (JS.truthy x) eqn:E; [assumption|reflexivity].
Qed.

Lemma foodStep_dropFalsy (data : ActivityData) :
  CarbonCalculations.foodStep (dropFalsy data) = CarbonCalculations.foodStep data.
Proof.
  rewrite !foodStep_unfold. cbn [dropFalsy beefServings chickenServings vegetableServings].
  now rewrite !addServing_dropFalsy.
Qed.

Lemma energyStep_dropFalsy (data : ActivityData) :
  CarbonCalculations.energyStep (dropFalsy data) = CarbonCalculations.energyStep data.
Proof.
  rewrite !energyStep_unfold. cbn [dropFalsy electricityUsage naturalGasUsage].
  now rewrite !addServing_dropFalsy.
Qed.

Lemma client_transportStep_dropFalsy (data : ActivityData) :
  CarbonCalculations.transportStep (dropFalsy data)
  = CarbonCalculations.transportStep data.
Proof.
  unfold CarbonCalculations.transportStep.
  cbn [dropFalsy transportType transportDistance].
  rewrite truthy_dropFalsy. unfold dropFalsyNumber.
  destruct (JS.truthy_string (transportType data)) eqn:Et;
    destruct (JS.truthy (transportDistance data)) eqn:Ed;
    cbn [andb]; rewrite ?Et, ?Ed; reflexivity.
Qed.

Lemma server_transportStep_dropFalsy (data : ActivityData) :
  Routes.transportStep (dropFalsy data) = Routes.transportStep data.
Proof.
  unfold Routes.transportStep.
  cbn [dropFalsy transportType transportDistance].
  rewrite truthy_dropFalsy. unfold dropFalsyNumber.
  destruct (JS.truthy_string (transportType data)) eqn:Et;
    destruct (JS.truthy (transportDistance data)) eqn:Ed;
    cbn [andb]; rewrite ?Et, ?Ed; reflexivity.
Qed.

Lemma transport_needs_both (data : ActivityData) :
  JS.truthy_string (transportType data) && JS.truthy (transportDistance data) = false ->
  CarbonCalculations.transportStep data = 0 /\ Routes.transportStep data = 0.
Proof.
  intros H. unfold CarbonCalculations.transportStep, Routes.transportStep.
  rewrite H. split; reflexivity.
Qed.

(** X2: in both copies of the calculator a falsy field (empty transport
    type, 0, -0 or NaN) counts exactly as an absent one; transport emissions
    are 0 unless both the type and the distance are truthy, whatever the
    type; and an input whose fields are all falsy gives four zeros. *)
Theorem falsy_fields_count_as_absent :
  (forall (calc : ActivityData -> EmissionResults) (data : ActivityData),
     In calc calculators -> calc (dropFalsy data) = calc data)
  /\ (forall (calc : ActivityData -> EmissionResults) (data : ActivityData),
        In calc calculators ->
        JS.truthy_string (transportType data) = false
        \/ JS.truthy (transportDistance data) = false ->
        transportEmissions (calc data) = 0)
  /\ (forall (calc : ActivityData -> EmissionResults) (data : ActivityData),
        In calc calculators ->
        JS.truthy_string (transportType data) && JS.truthy (transportDistance data) = false ->
        JS.truthy (electricityUsage data) = false ->
        JS.truthy (naturalGasUsage data) = false ->
        JS.truthy (beefServings data) = false ->
        JS.truthy (chickenServings data) = false ->
        JS.truthy (vegetableServings data) = false ->
        calc data = {| transportEmissions := 0; energyEmissions := 0;
                       foodEmissions := 0; totalEmissions := 0 |}).
Proof.
  split; [|split].
  - intros calc data [<- | [<- | []]].
    + unfold CarbonCalculations.calculateEmissions, CarbonCalculations.rawEmissions.
      cbn [rawTransport rawEnergy rawFood].
      now rewrite client_transportStep_dropFalsy, energyStep_dropFalsy,
        foodStep_dropFalsy.
    + unfold Routes.calculateEmissions, Routes.rawEmissions.
      cbn [rawTransport rawEnergy rawFood].
      rewrite server_transportStep_dropFalsy.
      change (Routes.energyStep (dropFalsy data))
        with (CarbonCalculations.energyStep (dropFalsy data)).
      change (Routes.foodStep (dropFalsy data))
        with (CarbonCalculations.foodStep (dropFalsy data)).
      now rewrite energyStep_dropFalsy, foodStep_dropFalsy.
  - intros calc data Hcalc H.
    assert (G : JS.truthy_string (transportType data)
                && JS.truthy (transportDistance data) = false).
    { destruct H as [-> | ->]; [reflexivity | apply andb_false_r]. }
    destruct (transport_needs_both data G) as [Ec Es].
    destruct Hcalc as [<- | [<- | []]].
    + unfold CarbonCalculations.calculateEmissions, CarbonCalculations.rawEmissions.
      cbn [transportEmissions rawTransport]. now rewrite Ec.
    + unfold Routes.calculateEmissions, Routes.rawEmissions.
      cbn [transportEmissions rawTransport]. now rewrite Es.
  - intros calc data Hcalc Ht He Hg Hb Hc Hv.
    destruct (transport_needs_both data Ht) as [Ec Es].
    assert (Een : CarbonCalculations.energyStep data = 0).
    { rewrite energyStep_unfold.
      destruct (electricityUsage data) as [x|], (naturalGasUsage data) as [y|];
        cbn in He, Hg |- *; rewrite ?He, ?Hg; reflexivity. }
    assert (Efo : CarbonCalculations.foodStep data = 0).
    { rewrite foodStep_unfold.
      destruct (beefServings data) as [x|], (chickenServings data) as [y|],
               (vegetableServings data) as [z|];
        cbn in Hb, Hc, Hv |- *; rewrite ?Hb, ?Hc, ?Hv; reflexivity. }
    destruct Hcalc as [<- | [<- | []]].
    + unfold CarbonCalculations.calculateEmissions, CarbonCalculations.rawEmissions.
      cbn [rawTransport rawEnergy rawFood]. rewrite Ec, Een, Efo. reflexivity.
    + unfold Routes.calculateEmissions, Routes.rawEmissions.
      cbn [rawTransport rawEnergy rawFood].
      change (Routes.energyStep data) with (CarbonCalculations.energyStep data).
      change (Routes.foodStep data) with (CarbonCalculations.foodStep data).
      rewrite Es, Een, Efo. reflexivity.
Qed.

Definition allFalsy : ActivityData := {|
  transportType := Some "plane"%string; transportDistance := Some nan;
  electricityUsage := Some 0; naturalGasUsage := Some (-0);
  beefServings := Some nan; chickenServings := None; vegetableServings := Some 0
|}.

Lemma falsy_fields_count_as_absent_witness :
  Routes.calculateEmissions (dropFalsy allFalsy) = Routes.calculateEmissions allFalsy
  /\ transportEmissions (Routes.calculateEmissions allFalsy) = 0
  /\ Routes.calculateEmissions allFalsy
     = {| transportEmissions := 0; energyEmissions := 0;
          foodEmissions := 0; totalEmissions := 0 |}.
Proof.
  destruct falsy_fields_count_as_absent as [Hdrop [Htr Hall]].
  split; [|split].
  - apply (Hdrop Routes.calculateEmissions allFalsy). cbn; tauto.
  - apply (Htr Routes.calculateEmissions allFalsy); [cbn; tauto | now right].
  - apply (Hall Routes.calculateEmissions allFalsy);
      [cbn; tauto | reflexivity | reflexivity | reflexivity
       | reflexivity | reflexivity | reflexivity].
Defined.

End CalculatorExtras.

(* ================================================================== *)
(** * Tips and categories *)
(* ================================================================== *)

Module TipsExtras.
Import FloatFacts.
Local Open Scope float_scope.

(** The three tests of the tip functions. *)
Definition transportDominates (e : ByCategory.t) : bool :=
  (ByCategory.energy e <? ByCategory.transport e)
  && (ByCategory.food e <? ByCategory.transport e).
Definition energyHigh (e : ByCategory.t) : bool := 1.0 <? ByCategory.energy e.
Definition foodHigh (e : ByCategory.t) : bool := 0.5 <? ByCategory.food e.

Lemma getReductionTips_cases (e : ByCategory.t) :
  CarbonCalculations.getReductionTips e
  = (if transportDominates e then [tipPublicTransport; tipCarpooling] else [])
    ++ (if energyHigh e then [tipLedBulbs; tipUnplug] else [])
    ++ (if foodHigh e then [tipPlantBased; tipLocalProduce] else []).
Proof.
  unfold CarbonCalculations.getReductionTips, transportDominates, energyHigh, foodHigh.
  destruct (_ && _), (1.0 <? _), (0.5 <? _); reflexivity.
Qed.

Lemma generatePersonalizedTips_client (e : ByCategory.t) :
  Routes.generatePersonalizedTips e
  = firstn 3 (match CarbonCalculations.getReductionTips e with
              | [] => [tipKeepItUp; tipOffset]
              | tips => tips
              end).
Proof.
  unfold Routes.generatePersonalizedTips, CarbonCalculations.getReductionTips.
  destruct (_ && _), (1.0 <? _), (0.5 <? _); reflexivity.
Qed.

(** X11: the server's tips are never empty and never more than three: they
    are the first three of the client's tips, or the two general tips when
    the client has none. *)
Theorem server_tips_from_client (e : ByCategory.t) :
  (2 <= List.length (Routes.generatePersonalizedTips e) <= 3)%nat
  /\ (CarbonCalculations.getReductionTips e <> [] ->
      Routes.generatePersonalizedTips e
      = firstn 3 (CarbonCalculations.getReductionTips e))
  /\ (CarbonCalculations.getReductionTips e = [] ->
      Routes.generatePersonalizedTips e = [tipKeepItUp; tipOffset]).
Proof.
  rewrite generatePersonalizedTips_client, getReductionTips_cases.
  destruct (transportDominates e), (energyHigh e), (foodHigh e); cbn;
    (split; [lia|]); split; intros H; try reflexivity; try discriminate;
    now contradiction H.
Qed.

Definition commuter : ByCategory.t :=
  {| ByCategory.transport := 12; ByCategory.energy := 3; ByCategory.food := 2 |}.
Definition idle : ByCategory.t :=
  {| ByCategory.transport := 0; ByCategory.energy := 0; ByCategory.food := 0 |}.

Lemma server_tips_from_client_witness :
  Routes.generatePersonalizedTips commuter
  = firstn 3 (CarbonCalculations.getReductionTips commuter)
  /\ Routes.generatePersonalizedTips idle = [tipKeepItUp; tipOffset].
Proof.
  split.
  - apply (proj1 (proj2 (server_tips_from_client commuter))). discriminate.
  - apply (proj2 (proj2 (server_tips_from_client idle))). reflexivity.
Defined.

(** X12: every tip the server returns is backed by its test: a transport
    tip only when transport exceeds both other categories, an energy tip
    only when energy exceeds 1, a food tip only when food exceeds 0.5 and
    transport does not dominate together with high energy, a general tip
    only when none of the three tests holds. *)
Theorem server_tips_sound (e : ByCategory.t) (tip : Tip) :
  In tip (Routes.generatePersonalizedTips e) ->
  (category tip = "transport"%string ->
   (ByCategory.energy e <? ByCategory.transport e) = true
   /\ (ByCategory.food e <? ByCategory.transport e) = true)
  /\ (category tip = "energy"%string -> (1.0 <? ByCategory.energy e) = true)
  /\ (category tip = "food"%string ->
      (0.5 <? ByCategory.food e) = true
      /\ (transportDominates e && energyHigh e = false))
  /\ (category tip = "general"%string ->
      transportDominates e = false
      /\ (1.0 <? ByCategory.energy e) = false
      /\ (0.5 <? ByCategory.food e) = false).
Proof.
  rewrite generatePersonalizedTips_client, getReductionTips_cases.
  fold (energyHigh e) (foodHigh e).
  assert (Ht : transportDominates e = true ->
               (ByCategory.energy e <? ByCategory.transport e) = true
               /\ (ByCategory.food e <? ByCategory.transport e) = true).
  { unfold transportDominates. intros H. now apply andb_prop in H. }
  destruct (transportDominates e), (energyHigh e), (foodHigh e); cbn;
    intros Hin;
    repeat (destruct Hin as [<- | Hin];
            [cbn; repeat split; try congruence; now apply Ht|]);
    contradiction.
Qed.

Lemma server_tips_sound_witness :
  (1.0 <? ByCategory.energy commuter) = true.
Proof.
  apply (proj1 (proj2 (server_tips_sound commuter tipLedBulbs
                         (or_intror (or_intror (or_introl eq_refl)))))).
  reflexivity.
Defined.

(** With all three tests true the food tips are cut off. *)
Example tips_all_high :
  Routes.generatePersonalizedTips
    {| ByCategory.transport := 20; ByCategory.energy := 5; ByCategory.food := 4 |}
  = [tipPublicTransport; tipCarpooling; tipLedBulbs].
Proof. reflexivity. Qed.

(** NaN sums fail every test. *)
Example tips_nan :
  Routes.generatePersonalizedTips
    {| ByCategory.transport := nan; ByCategory.energy := nan; ByCategory.food := nan |}
  = [tipKeepItUp; tipOffset].
Proof. reflexivity. Qed.

End TipsExtras.

(* ================================================================== *)
(** * Order and sign of binary64 numbers *)
(* ================================================================== *)

Module FloatOrder.
Import FloatFacts.
Local Open Scope float_scope.

Lemma SF_le_lt_trans (X Y Z : spec_float) :
  SFleb X Y = true -> SFltb Y Z = true -> SFltb X Z = true.
Proof.
  unfold SFleb, SFltb, SFcompare.
  destruct X as [sx|sx| |sx mx ex], Y as [sy|sy| |sy my ey], Z as [sz|sz| |sz mz ez];
    try destruct sx; try destruct sy; try destruct sz;
    try discriminate; try reflexivity.
  all: change (Pos.compare_cont Eq) with Pos.compare.
  all: repeat match goal with
       | |- context [Z.compare ?a ?b] => destruct (Z.compare_spec a b)
       | |- context [Pos.compare ?a ?b] => destruct (Pos.compare_spec a b)
       end; cbn; try discriminate; try reflexivity; try lia.
Qed.

Lemma le_lt_trans (a b c : float) :
  (a <=? b) = true -> (b <? c) = true -> (a <? c) = true.
Proof. rewrite leb_spec, !ltb_spec. apply SF_le_lt_trans. Qed.

Lemma lt_le (a b : float) : (a <? b) = true -> (a <=? b) = true.
Proof.
  rewrite leb_spec, ltb_spec. unfold SFleb, SFltb.
  destruct (SFcompare _ _) as [[| |]|]; congruence.
Qed.

Lemma lt_asym (a b : float) : (a <? b) = true -> (b <? a) = false.
Proof.
  rewrite !ltb_spec. unfold SFltb, SFcompare.
  destruct (Prim2SF a) as [sx|sx| |sx mx ex], (Prim2SF b) as [sy|sy| |sy my ey];
    try destruct sx; try destruct sy; try discriminate; try reflexivity.
  all: change (Pos.compare_cont Eq) with Pos.compare.
  all: repeat match goal with
       | |- context [Z.compare ?a ?b] => destruct (Z.compare_spec a b)
       | |- context [Pos.compare ?a ?b] => destruct (Pos.compare_spec a b)
       end; cbn; try discriminate; try reflexivity; try lia.
Qed.

Lemma nan_not_gt (x y : float) : is_nan y = true -> (x <? y) = false.
Proof.
  unfold is_nan. rewrite eqb_spec, ltb_spec. unfold SFeqb, SFltb, SFcompare.
  destruct (Prim2SF y) as [s|s| |s m e]; destruct (Prim2SF x) as [s'|s'| |s' m' e'];
    try destruct s; try destruct s'; try reflexivity; try discriminate.
  all: change (Pos.compare_cont Eq) with Pos.compare.
  all: rewrite Z.compare_refl, Pos.compare_refl; discriminate.
Qed.

Lemma positive_finite_SF (x : float) :
  (0 <? x) = true -> is_finite x = true ->
  exists m e, Prim2SF x = S754_finite false m e.
Proof.
  unfold is_finite, is_nan, is_infinity.
  rewrite ltb_spec, !eqb_spec, abs_spec.
  change (Prim2SF 0) with (S754_zero false).
  destruct (Prim2SF x) as [s|[|]| |[|] m e]; try discriminate.
  intros _ _. now exists m, e.
Qed.

Lemma sub_self (x : float) (s : bool) (m : positive) (e : Z) :
  Prim2SF x = S754_finite s m e -> x - x = 0.
Proof.
  intros H. apply Prim2SF_inj. rewrite sub_spec, H.
  unfold SF64sub, SFsub. rewrite Z.sub_diag. reflexivity.
Qed.

Lemma zero_div_positive (x : float) (m : positive) (e : Z) :
  Prim2SF x = S754_finite false m e -> 0 / x = 0.
Proof.
  intros H. apply Prim2SF_inj. rewrite div_spec, H. reflexivity.
Qed.

Lemma nan_not_lt (x y : float) : is_nan x = true -> (x <? y) = false.
Proof.
  unfold is_nan. rewrite eqb_spec, ltb_spec. unfold SFeqb, SFltb, SFcompare.
  destruct (Prim2SF x) as [s|s| |s m e]; destruct (Prim2SF y) as [s'|s'| |s' m' e'];
    try destruct s; try destruct s'; try reflexivity; try discriminate.
  all: change (Pos.compare_cont Eq) with Pos.compare.
  all: rewrite Z.compare_refl, Pos.compare_refl; discriminate.
Qed.

(** A number with a clear sign bit: +0, a positive finite number or
    +infinity. *)
Definition sf_pos (X : spec_float) : bool :=
  match X with
  | S754_zero false | S754_infinity false | S754_finite false _ _ => true
  | _ => false
  end.

Section Rounding.
Variables prec emax : Z.

Lemma shr_1_nonneg (mrs : shr_record) :
  (0 <= shr_m mrs)%Z -> (0 <= shr_m (shr_1 mrs))%Z.
Proof.
  destruct mrs as [m r s]. cbn [shr_m].
  destruct m as [|[p|p|]|[p|p|]]; cbn; lia.
Qed.

Lemma iter_shr_1_nonneg (p : positive) (mrs : shr_record) :
  (0 <= shr_m mrs)%Z -> (0 <= shr_m (iter_pos shr_1 p mrs))%Z.
Proof.
  revert mrs. induction p as [p IH|p IH|]; intros mrs H; cbn.
  - apply IH, IH. now apply shr_1_nonneg.
  - now apply IH, IH.
  - now apply shr_1_nonneg.
Qed.

Lemma shr_fexp_nonneg (m e : Z) (l : location) :
  (0 <= m)%Z -> (0 <= shr_m (fst (shr_fexp prec emax m e l)))%Z.
Proof.
  intros H. unfold shr_fexp, shr.
  assert (H0 : (0 <= shr_m (shr_record_of_loc m l))%Z).
  { destruct l as [|[| |]]; exact H. }
  destruct (fexp prec emax (Zdigits2 m + e) - e)%Z; cbn [fst]; try assumption.
  now apply iter_shr_1_nonneg.
Qed.

Lemma round_nearest_even_nonneg (m : Z) (l : location) :
  (0 <= m)%Z -> (0 <= round_nearest_even m l)%Z.
Proof.
  intros H. destruct l as [|[| |]]; cbn; try lia.
  destruct (Z.even m); lia.
Qed.

Lemma binary_round_aux_pos (mx ex : Z) (lx : location) :
  (0 <= mx)%Z -> sf_pos (binary_round_aux prec emax false mx ex lx) = true.
Proof.
  intros H. unfold binary_round_aux.
  pose proof (shr_fexp_nonneg mx ex lx H) as H1.
  destruct (shr_fexp prec emax mx ex lx) as [mrs' e']. cbn [fst] in H1.
  pose proof (shr_fexp_nonneg
                (round_nearest_even (shr_m mrs') (loc_of_shr_record mrs')) e'
                loc_Exact (round_nearest_even_nonneg _ _ H1)) as H2.
  destruct (shr_fexp prec emax _ e' loc_Exact) as [mrs'' e'']. cbn [fst] in H2.
  destruct (shr_m mrs'') as [|p|p]; [reflexivity| |lia].
  destruct (Z.leb e'' (emax - prec)); reflexivity.
Qed.

Lemma binary_round_pos (m : positive) (e : Z) :
  sf_pos (binary_round prec emax false m e) = true.
Proof.
  unfold binary_round. destruct (shl_align _ _ _) as [mz ez].
  apply binary_round_aux_pos. lia.
Qed.

Lemma SFadd_pos (X Y : spec_float) :
  sf_pos X = true -> sf_pos Y = true -> sf_pos (SFadd prec emax X Y) = true.
Proof.
  destruct X as [[|]|[|]| |[|] mx ex]; try discriminate;
    destruct Y as [[|]|[|]| |[|] my ey]; try discriminate; intros _ _;
    try reflexivity.
  unfold SFadd. cbn [cond_Zopp]. apply binary_round_pos.
Qed.

Lemma SFmul_pos_r (X : spec_float) (my : positive) (ey : Z) :
  sf_pos X = true ->
  sf_pos (SFmul prec emax X (S754_finite false my ey)) = true.
Proof.
  destruct X as [[|]|[|]| |[|] mx ex]; try discriminate; try reflexivity.
  intros _. unfold SFmul. cbn [xorb]. apply binary_round_aux_pos. lia.
Qed.

Lemma SFdiv_pos_r (X : spec_float) (my : positive) (ey : Z) :
  sf_pos X = true ->
  sf_pos (SFdiv prec emax X (S754_finite false my ey)) = true.
Proof.
  destruct X as [[|]|[|]| |[|] mx ex]; try discriminate; try reflexivity.
  intros _. unfold SFdiv, SFdiv_core_binary. cbn [xorb].
  set (s := (ex - ey - _)%Z).
  set (m' := match s with Z.pos _ => Z.shiftl (Z.pos mx) s | Z0 => Z.pos mx | Z.neg _ => 0%Z end).
  assert (Hm' : (0 <= m')%Z).
  { unfold m'. destruct s; try lia. apply Z.shiftl_nonneg. lia. }
  destruct (Z.div_eucl m' (Z.pos my)) as [q r] eqn:E.
  apply binary_round_aux_pos.
  assert (Hq : q = (m' / Z.pos my)%Z) by (unfold Z.div; now rewrite E).
  rewrite Hq. apply Z.div_pos; lia.
Qed.

End Rounding.

Lemma Prim2SF_100 : exists m e, Prim2SF 100 = S754_finite false m e.
Proof. eexists. eexists. reflexivity. Qed.

Definition nonneg (x : float) : Prop := sf_pos (Prim2SF x) = true.

Lemma nonneg_leb (x : float) : nonneg x -> (0 <=? x) = true.
Proof.
  unfold nonneg. rewrite leb_spec. change (Prim2SF 0) with (S754_zero false).
  destruct (Prim2SF x) as [[|]|[|]| |[|] m e]; try discriminate; reflexivity.
Qed.

Lemma nonneg_add (x y : float) : nonneg x -> nonneg y -> nonneg (x + y).
Proof. unfold nonneg. rewrite add_spec. apply SFadd_pos. Qed.

Lemma nonneg_mul_r (x y : float) (m : positive) (e : Z) :
  nonneg x -> Prim2SF y = S754_finite false m e -> nonneg (x * y).
Proof. unfold nonneg. intros Hx Hy. rewrite mul_spec, Hy. now apply SFmul_pos_r. Qed.

Lemma nonneg_div_r (x y : float) (m : positive) (e : Z) :
  nonneg x -> Prim2SF y = S754_finite false m e -> nonneg (x / y).
Proof. unfold nonneg. intros Hx Hy. rewrite div_spec, Hy. now apply SFdiv_pos_r. Qed.

Lemma nonneg_of_uint63 (i : PrimInt63.int) : nonneg (of_uint63 i).
Proof.
  unfold nonneg. rewrite of_uint63_spec.
  pose proof (Uint63.to_Z_bounded i) as [H _].
  unfold binary_normalize.
  destruct (Uint63Axioms.to_Z i) as [|p|p]; [reflexivity| |lia].
  apply binary_round_pos.
Qed.

Lemma nonneg_Math_round (x : float) : nonneg x -> nonneg (JS.Math_round x).
Proof.
  unfold nonneg, JS.Math_round. intros H.
  destruct (Prim2SF x) as [[|]|[|]| |[|] m e] eqn:E; try discriminate;
    try (now rewrite E).
  destruct (0 <=? e)%Z; [now rewrite E|].
  set (n := Z.shiftr _ _).
  assert (Hn : (0 <= n)%Z).
  { unfold n. apply Z.shiftr_nonneg.
    assert (0 <= Z.shiftl 1 (- e))%Z by (apply Z.shiftl_nonneg; lia). lia. }
  destruct (n =? 0)%Z eqn:En; [reflexivity|].
  unfold JS.float_of_Z.
  replace (n <? 0)%Z with false by (symmetry; apply Z.ltb_ge; exact Hn).
  apply nonneg_of_uint63.
Qed.

Lemma nonneg_round2 (x : float) : nonneg x -> nonneg (round2 x).
Proof.
  intros H. unfold round2. destruct Prim2SF_100 as [m [e E]].
  apply (nonneg_div_r _ _ m e); [|exact E].
  apply nonneg_Math_round. now apply (nonneg_mul_r _ _ m e).
Qed.

End FloatOrder.

(* ================================================================== *)
(** * Daily category and reduction percentage *)
(* ================================================================== *)

Module CategoryExtras.
Import FloatFacts FloatOrder.
Local Open Scope float_scope.

Definition categoryRank (c : EmissionCategory) : nat :=
  match c with
  | low => 0
  | medium => 1
  | high => 2
  end.

Lemma below_5_below_15 (x : float) : (x <? 5) = true -> (x <? 15) = true.
Proof.
  intros H. apply (le_lt_trans x 5 15); [now apply lt_le | reflexivity].
Qed.

(** X13: the daily category never decreases when the emissions increase;
    it is low exactly below 5 and high exactly when the value is not below
    15, which includes NaN. *)
Theorem emission_category_monotone :
  (forall a b : float,
     (a <=? b) = true ->
     (categoryRank (CarbonCalculations.getEmissionCategory a)
      <= categoryRank (CarbonCalculations.getEmissionCategory b))%nat)
  /\ (forall x : float,
        CarbonCalculations.getEmissionCategory x = low <-> (x <? 5) = true)
  /\ (forall x : float,
        CarbonCalculations.getEmissionCategory x = high <-> (x <? 15) = false)
  /\ (forall x : float,
        is_nan x = true -> CarbonCalculations.getEmissionCategory x = high).
Proof.
  assert (Hhigh : forall x, (x <? 15) = false ->
                            CarbonCalculations.getEmissionCategory x = high).
  { intros x H. unfold CarbonCalculations.getEmissionCategory. rewrite H.
    destruct (x <? 5) eqn:E; [|reflexivity].
    apply below_5_below_15 in E. congruence. }
  split; [|split; [|split]].
  - intros a b Hab. unfold CarbonCalculations.getEmissionCategory.
    destruct (b <? 5) eqn:B5.
    + now rewrite (le_lt_trans a b 5 Hab B5).
    + destruct (b <? 15) eqn:B15.
      * rewrite (le_lt_trans a b 15 Hab B15). destruct (a <? 5); cbn; lia.
      * destruct (a <? 5), (a <? 15); cbn; lia.
  - intros x. unfold CarbonCalculations.getEmissionCategory.
    destruct (x <? 5); [tauto|]. destruct (x <? 15); split; discriminate.
  - intros x. split; [|apply Hhigh].
    unfold CarbonCalculations.getEmissionCategory.
    destruct (x <? 5); [discriminate|]. destruct (x <? 15); [discriminate|reflexivity].
  - intros x H. apply Hhigh. now apply nan_not_lt.
Qed.

Lemma emission_category_monotone_witness :
  (categoryRank (CarbonCalculations.getEmissionCategory 4.99)
   <= categoryRank (CarbonCalculations.getEmissionCategory 5))%nat
  /\ CarbonCalculations.getEmissionCategory nan = high.
Proof.
  destruct emission_category_monotone as [Hmono [_ [_ Hnan]]]. split.
  - apply (Hmono 4.99 5). reflexivity.
  - apply (Hnan nan). reflexivity.
Defined.

Example category_boundaries :
  CarbonCalculations.getEmissionCategory 4.99 = low
  /\ CarbonCalculations.getEmissionCategory 5 = medium
  /\ CarbonCalculations.getEmissionCategory 14.99 = medium
  /\ CarbonCalculations.getEmissionCategory 15 = high.
Proof. repeat split. Qed.

(** X14: the reduction percentage is 0 when both months have the same finite
    positive total, and 0 whenever last month's total is NaN or negative,
    whatever this month's total. *)
Theorem reduction_no_change :
  (forall last : float,
     (0 <? last) = true -> is_finite last = true ->
     Routes.reductionPercentage last last = 0)
  /\ (forall last this : float,
        is_nan last = true \/ (last <? 0) = true ->
        Routes.reductionPercentage last this = 0).
Proof.
  split.
  - intros last Hpos Hfin. unfold Routes.reductionPercentage. rewrite Hpos.
    destruct (positive_finite_SF last Hpos Hfin) as [m [e H]].
    rewrite (sub_self last false m e H), (zero_div_positive last m e H).
    reflexivity.
  - intros last this H. unfold Routes.reductionPercentage.
    replace (0 <? last) with false; [reflexivity|]. symmetry.
    destruct H as [H|H]; [now apply nan_not_gt | now apply lt_asym].
Qed.

Lemma reduction_no_change_witness :
  Routes.reductionPercentage 120.5 120.5 = 0
  /\ Routes.reductionPercentage (-3) 10 = 0.
Proof.
  destruct reduction_no_change as [Hsame Hneg]. split.
  - apply (Hsame 120.5); reflexivity.
  - apply (Hneg (-3) 10). now right.
Defined.

End CategoryExtras.

(* ================================================================== *)
(** * Valid inputs give valid outputs *)
(* ================================================================== *)

Module ValidInputs.
Import FloatFacts FloatOrder CalculatorSpec.
Local Open Scope float_scope.

(** A present input is a finite number that is not negative. *)
Definition validNumber (x : option float) : bool :=
  match x with
  | Some v => (0 <=? v) && is_finite v
  | None => true
  end.

Lemma valid_truthy_SF (v : float) :
  (0 <=? v) = true -> is_finite v = true -> JS.truthy_number v = true ->
  exists m e, Prim2SF v = S754_finite false m e.
Proof.
  unfold JS.truthy_number, is_finite, is_nan, is_infinity.
  rewrite is_zero_spec, leb_spec, !eqb_spec, abs_spec.
  change (Prim2SF 0) with (S754_zero false).
  destruct (Prim2SF v) as [s|[|]| |[|] m e]; try discriminate.
  intros _ _ _. now exists m, e.
Qed.

Lemma nonneg_zero : nonneg 0.
Proof. reflexivity. Qed.

Lemma addServing_nonneg (acc k : float) (x : option float) :
  nonneg acc -> nonneg k -> validNumber x = true ->
  nonneg (addServing acc k x).
Proof.
  intros Hacc Hk Hx. destruct x as [n|]; [|exact Hacc].
  cbn in Hx |- *. apply andb_prop in Hx. destruct Hx as [Hle Hfin].
  destruct (JS.truthy_number n) eqn:Htr; [|exact Hacc].
  destruct (valid_truthy_SF n Hle Hfin Htr) as [m [e E]].
  apply nonneg_add; [exact Hacc|]. now apply (nonneg_mul_r _ _ m e).
Qed.

Lemma factors_nonneg (t : string) (f : float) :
  In (t, f) (transport CarbonCalculations.EMISSION_FACTORS) -> nonneg f.
Proof.
  cbn [transport CarbonCalculations.EMISSION_FACTORS In]. intros H.
  repeat (destruct H as [H|H]; [inversion H; subst; reflexivity|]).
  contradiction.
Qed.

Lemma recognized_step_nonneg (t : string) (f d : float) :
  In (t, f) (transport CarbonCalculations.EMISSION_FACTORS) ->
  validNumber (Some d) = true ->
  nonneg (if JS.truthy_number d then f * d else 0).
Proof.
  intros Hin Hd. cbn in Hd. apply andb_prop in Hd. destruct Hd as [Hle Hfin].
  destruct (JS.truthy_number d) eqn:Htr; [|exact nonneg_zero].
  destruct (valid_truthy_SF d Hle Hfin Htr) as [m [e E]].
  apply (nonneg_mul_r _ _ m e); [|exact E]. exact (factors_nonneg t f Hin).
Qed.

Lemma transportSteps_nonneg (data : ActivityData) :
  transportType data = None
  \/ (exists t, transportType data = Some t /\ In t recognized_types) ->
  validNumber (transportDistance data) = true ->
  nonneg (CarbonCalculations.transportStep data)
  /\ nonneg (Routes.transportStep data).
Proof.
  intros Ht Hd.
  assert (Hzero : JS.truthy_string (transportType data)
                  && JS.truthy (transportDistance data) = false ->
                  nonneg (CarbonCalculations.transportStep data)
                  /\ nonneg (Routes.transportStep data)).
  { intros G. unfold CarbonCalculations.transportStep, Routes.transportStep.
    rewrite G. split; exact nonneg_zero. }
  destruct Ht as [Ht | [t [Ht Hin]]].
  - apply Hzero. now rewrite Ht.
  - destruct (transportDistance data) as [d|] eqn:Ed.
    + destruct (recognized_has_factor t Hin) as [f Hf].
      rewrite (client_transportStep_recognized data t f d Hf Ht Ed).
      rewrite (server_transportStep_recognized data t f d Hf Ht Ed).
      split; now apply (recognized_step_nonneg t).
    + apply Hzero. apply andb_false_r.
Qed.

Lemma energyStep_nonneg (data : ActivityData) :
  validNumber (electricityUsage data) = true ->
  validNumber (naturalGasUsage data) = true ->
  nonneg (CarbonCalculations.energyStep data).
Proof.
  intros He Hg.
  rewrite CalculatorExtras.energyStep_unfold.
  apply addServing_nonneg; [|reflexivity|assumption].
  apply addServing_nonneg; [exact nonneg_zero|reflexivity|assumption].
Qed.

Lemma foodStep_nonneg (data : ActivityData) :
  validNumber (beefServings data) = true ->
  validNumber (chickenServings data) = true ->
  validNumber (vegetableServings data) = true ->
  nonneg (CarbonCalculations.foodStep data).
Proof.
  intros Hb Hc Hv. rewrite foodStep_unfold.
  apply addServing_nonneg; [|reflexivity|assumption].
  apply addServing_nonneg; [|reflexivity|assumption].
  apply addServing_nonneg; [exact nonneg_zero|reflexivity|assumption].
Qed.

(** X15: in both copies of the calculator, when the transport type is
    absent or recognized and every present number is finite and not
    negative, the four outputs are numbers that are not negative (never
    NaN). *)
Theorem outputs_nonnegative
  (calc : ActivityData -> EmissionResults) (data : ActivityData) :
  In calc calculators ->
  transportType data = None
  \/ (exists t, transportType data = Some t /\ In t recognized_types) ->
  validNumber (transportDistance data) = true ->
  validNumber (electricityUsage data) = true ->
  validNumber (naturalGasUsage data) = true ->
  validNumber (beefServings data) = true ->
  validNumber (chickenServings data) = true ->
  validNumber (vegetableServings data) = true ->
  (0 <=? transportEmissions (calc data)) = true
  /\ (0 <=? energyEmissions (calc data)) = true
  /\ (0 <=? foodEmissions (calc data)) = true
  /\ (0 <=? totalEmissions (calc data)) = true.
Proof.
  intros Hcalc Ht Hd He Hg Hb Hc Hv.
  destruct (transportSteps_nonneg data Ht Hd) as [Tc Ts].
  pose proof (energyStep_nonneg data He Hg) as E.
  pose proof (foodStep_nonneg data Hb Hc Hv) as F.
  destruct Hcalc as [<- | [<- | []]].
  - unfold CarbonCalculations.calculateEmissions, CarbonCalculations.rawEmissions.
    cbn [transportEmissions energyEmissions foodEmissions totalEmissions
         rawTransport rawEnergy rawFood].
    repeat split; apply nonneg_leb, nonneg_round2; try assumption.
    now repeat apply nonneg_add.
  - unfold Routes.calculateEmissions, Routes.rawEmissions.
    cbn [transportEmissions energyEmissions foodEmissions totalEmissions
         rawTransport rawEnergy rawFood].
    repeat split; apply nonneg_leb, nonneg_round2; try assumption.
    now repeat apply nonneg_add.
Qed.

Lemma outputs_nonnegative_witness :
  (0 <=? transportEmissions (Routes.calculateEmissions carAndBeef)) = true
  /\ (0 <=? energyEmissions (Routes.calculateEmissions carAndBeef)) = true
  /\ (0 <=? foodEmissions (Routes.calculateEmissions carAndBeef)) = true
  /\ (0 <=? totalEmissions (Routes.calculateEmissions carAndBeef)) = true.
Proof.
  apply (outputs_nonnegative Routes.calculateEmissions carAndBeef);
    try reflexivity.
  - cbn; tauto.
  - right. exists "car_gasoline"%string. split; [reflexivity | cbn; tauto].
Defined.

End ValidInputs.

(* ================================================================== *)
(** * Names inherited from Object.prototype *)
(* ================================================================== *)

Module InheritedNames.
Import FloatFacts CalculatorSpec.
Local Open Scope float_scope.

Lemma inherited_lookup (t : string) :
  In t JS.Object_prototype_keys ->
  JS.get (transport CarbonCalculations.EMISSION_FACTORS) t = JS.Object
  /\ JS.truthy_string (Some t) = true.
Proof.
  unfold JS.Object_prototype_keys. cbn [In]. intros H.
  repeat (destruct H as [<-|H]; [split; reflexivity|]). contradiction.
Qed.

(** X16: the client's guard tests the looked-up factor against undefined
    only, so a transport type that names a property inherited from
    Object.prototype (such as constructor or toString) with a truthy
    distance gives NaN transport and total emissions in the client too. *)
Theorem client_inherited_names_nan (data : ActivityData) (t : string) (d : float) :
  transportType data = Some t -> In t JS.Object_prototype_keys ->
  transportDistance data = Some d -> JS.truthy_number d = true ->
  transportEmissions (CarbonCalculations.calculateEmissions data) = nan
  /\ totalEmissions (CarbonCalculations.calculateEmissions data) = nan.
Proof.
  intros Ht Hin Hd Htr. destruct (inherited_lookup t Hin) as [Hget Hts].
  assert (E : CarbonCalculations.transportStep data = nan).
  { unfold CarbonCalculations.transportStep. rewrite Ht, Hd, Hts, Hget.
    cbn [JS.truthy andb JS.ToNumber]. rewrite Htr. apply mul_nan_l. }
  unfold CarbonCalculations.calculateEmissions, CarbonCalculations.rawEmissions.
  cbn [transportEmissions totalEmissions rawTransport rawEnergy rawFood].
  rewrite E, !add_nan_l. split; apply round2_nan.
Qed.

Lemma client_inherited_names_nan_witness :
  transportEmissions (CarbonCalculations.calculateEmissions (withTransport "toString" 3)) = nan
  /\ totalEmissions (CarbonCalculations.calculateEmissions (withTransport "toString" 3)) = nan.
Proof.
  apply (client_inherited_names_nan (withTransport "toString" 3) "toString" 3);
    [reflexivity | cbn; tauto | reflexivity | reflexivity].
Defined.

End InheritedNames.

(* ================================================================== *)
(** * Order of binary32 values in PostgreSQL *)
(* ================================================================== *)

Module RealOrder.
Import Real.

Ltac compare_cases :=
  change (Pos.compare_cont Eq) with Pos.compare;
  repeat match goal with
         | |- context [Z.compare ?a ?b] => destruct (Z.compare_spec a b)
         | |- context [Pos.compare ?a ?b] => destruct (Pos.compare_spec a b)
         end;
  cbn; try discriminate; try reflexivity; try lia.

Lemma SFleb_trans (X Y Z : spec_float) :
  SFleb X Y = true -> SFleb Y Z = true -> SFleb X Z = true.
Proof.
  unfold SFleb, SFcompare.
  destruct X as [sx|sx| |sx mx ex], Y as [sy|sy| |sy my ey], Z as [sz|sz| |sz mz ez];
    try destruct sx; try destruct sy; try destruct sz;
    try discriminate; try reflexivity.
  all: compare_cases.
Qed.

Lemma SFleb_total (X Y : spec_float) :
  isnan X = false -> isnan Y = false ->
  SFleb X Y = true \/ SFleb Y X = true.
Proof.
  unfold SFleb, SFcompare.
  destruct X as [sx|sx| |sx mx ex], Y as [sy|sy| |sy my ey];
    try destruct sx; try destruct sy;
    try discriminate; intros _ _; try (left; reflexivity); try (right; reflexivity).
  all: change (Pos.compare_cont Eq) with Pos.compare.
  all: destruct (Z.compare_spec ex ey); destruct (Z.compare_spec ey ex);
    try lia; cbn; try (left; reflexivity); try (right; reflexivity).
  all: destruct (Pos.compare_spec mx my); destruct (Pos.compare_spec my mx);
    try lia; cbn; try (left; reflexivity); try (right; reflexivity).
Qed.

(** Between two numbers, [a < b] is the negation of [b <= a]. *)
Lemma SFltb_not_leb (X Y : spec_float) :
  isnan X = false -> isnan Y = false ->
  SFltb X Y = negb (SFleb Y X).
Proof.
  unfold SFleb, SFltb, SFcompare.
  destruct X as [sx|sx| |sx mx ex], Y as [sy|sy| |sy my ey];
    try destruct sx; try destruct sy;
    try discriminate; intros _ _; try reflexivity.
  all: change (Pos.compare_cont Eq) with Pos.compare.
  all: destruct (Z.compare_spec ex ey); destruct (Z.compare_spec ey ex);
    try lia; cbn; try reflexivity.
  all: destruct (Pos.compare_spec mx my); destruct (Pos.compare_spec my mx);
    try lia; cbn; try reflexivity.
Qed.

Lemma float4le_total (a b : real) : float4le a b = true \/ float4le b a = true.
Proof.
  unfold float4le.
  destruct (isnan b) eqn:Eb; [now left|].
  destruct (isnan a) eqn:Ea; [now right|].
  cbn. now apply SFleb_total.
Qed.

Lemma float4le_refl (a : real) : float4le a a = true.
Proof. now destruct (float4le_total a a). Qed.

Lemma float4le_trans (a b c : real) :
  float4le a b = true -> float4le b c = true -> float4le a c = true.
Proof.
  unfold float4le.
  destruct (isnan c) eqn:Ec; [reflexivity|].
  destruct (isnan b) eqn:Eb; cbn; [discriminate|].
  destruct (isnan a) eqn:Ea; cbn; [discriminate|].
  apply SFleb_trans.
Qed.

Lemma float4lt_not_le (a b : real) : float4lt a b = negb (float4le b a).
Proof.
  unfold float4lt, float4le.
  destruct (isnan a) eqn:Ea; [reflexivity|].
  destruct (isnan b) eqn:Eb; [reflexivity|].
  cbn. now apply SFltb_not_leb.
Qed.

Lemma float4lt_irrefl (a : real) : float4lt a a = false.
Proof. now rewrite float4lt_not_le, float4le_refl. Qed.

Lemma float4lt_le_trans (a b c : real) :
  float4lt a b = true -> float4le b c = true -> float4lt a c = true.
Proof.
  rewrite !float4lt_not_le, !negb_true_iff. intros Hab Hbc.
  destruct (float4le c a) eqn:Hca; [|reflexivity].
  now rewrite (float4le_trans _ _ _ Hbc Hca) in Hab.
Qed.

Lemma float4le_lt_trans (a b c : real) :
  float4le a b = true -> float4lt b c = true -> float4lt a c = true.
Proof.
  rewrite !float4lt_not_le, !negb_true_iff. intros Hab Hbc.
  destruct (float4le c a) eqn:Hca; [|reflexivity].
  now rewrite (float4le_trans _ _ _ Hca Hab) in Hbc.
Qed.

Lemma float4lt_le (a b : real) : float4lt a b = true -> float4le a b = true.
Proof.
  rewrite float4lt_not_le, negb_true_iff. intros H.
  destruct (float4le_total a b); congruence.
Qed.

(** NaN is below nothing, and nothing but NaN is at or above it. *)
Lemma float4lt_nan_l (b : real) : float4lt S754_nan b = false.
Proof. reflexivity. Qed.

Lemma float4le_nan_l (b : real) : float4le S754_nan b = isnan b.
Proof. unfold float4le. cbn. now rewrite orb_false_r. Qed.

End RealOrder.

(* ================================================================== *)
(** * The month of the queries *)
(* ================================================================== *)

Module MonthWindow.
Import JSDate.
Local Open Scope Z_scope.

(** The two dates the queries of the current month bind. *)
Definition monthFrom (now : Clock) : Z :=
  toISODate (newDate now (getFullYear now) (getMonth now) 1).

Definition monthTo (now : Clock) : Z :=
  toISODate (newDate now (getFullYear now) (getMonth now + 1) 0).

(** The current calendar month on the server's clock: from its first day
    to the day before the first day of the next month. *)
Definition firstDay (now : Clock) : Z :=
  MakeDay (getFullYear now) (getMonth now) 1.

Definition lastDay (now : Clock) : Z :=
  MakeDay (getFullYear now) (getMonth now + 1) 1 - 1.

(** The offsets in force at local midnight of the first and of the last
    day of the month. *)
Definition offsetFirst (now : Clock) : Z :=
  LocalTZA now (MakeDate (firstDay now) 0).

Definition offsetLast (now : Clock) : Z :=
  LocalTZA now (MakeDate (lastDay now) 0).

(** A server at UTC or west of it, and one east of it. *)
Definition notEastOfUTC (now : Clock) : bool :=
  (- msPerDay <? offsetFirst now) && (offsetFirst now <=? 0)
  && (- msPerDay <? offsetLast now) && (offsetLast now <=? 0).

Definition eastOfUTC (now : Clock) : bool :=
  (0 <? offsetFirst now) && (offsetFirst now <=? msPerDay)
  && (0 <? offsetLast now) && (offsetLast now <=? msPerDay).

Lemma MakeDay_date (y m d : Z) : MakeDay y m d = MakeDay y m 1 + (d - 1).
Proof. unfold MakeDay. lia. Qed.

Lemma lastDay_MakeDay (now : Clock) :
  lastDay now = MakeDay (getFullYear now) (getMonth now + 1) 0.
Proof. unfold lastDay. rewrite (MakeDay_date _ _ 0). lia. Qed.

(** The UTC day of local midnight of day [d], under an offset [off]. *)
Lemma Day_of_midnight (d off : Z) :
  (- msPerDay < off <= 0 -> Day (MakeDate d 0 - off) = d)
  /\ (0 < off <= msPerDay -> Day (MakeDate d 0 - off) = d - 1).
Proof.
  unfold Day, MakeDate, msPerDay. split; intros H.
  - symmetry. apply (Z.div_unique _ _ d (- off)); lia.
  - symmetry. apply (Z.div_unique _ _ (d - 1) (86400000 - off)); lia.
Qed.

Lemma month_notEast (now : Clock) :
  notEastOfUTC now = true ->
  monthFrom now = firstDay now /\ monthTo now = lastDay now.
Proof.
  unfold notEastOfUTC. rewrite !andb_true_iff, !Z.ltb_lt, !Z.leb_le.
  intros [[[H1 H2] H3] H4].
  unfold monthFrom, monthTo, toISODate, newDate, UTC.
  rewrite <- lastDay_MakeDay. fold (firstDay now).
  fold (offsetFirst now) (offsetLast now). split.
  - apply Day_of_midnight. lia.
  - apply Day_of_midnight. lia.
Qed.

Lemma month_east (now : Clock) :
  eastOfUTC now = true ->
  monthFrom now = firstDay now - 1 /\ monthTo now = lastDay now - 1.
Proof.
  unfold eastOfUTC. rewrite !andb_true_iff, !Z.ltb_lt, !Z.leb_le.
  intros [[[H1 H2] H3] H4].
  unfold monthFrom, monthTo, toISODate, newDate, UTC.
  rewrite <- lastDay_MakeDay. fold (firstDay now).
  fold (offsetFirst now) (offsetLast now). split.
  - apply Day_of_midnight. lia.
  - apply Day_of_midnight. lia.
Qed.

(** A calendar month has 28 to 31 days. *)
Lemma DayFromYear_next (y : Z) :
  DayFromYear (y + 1) - DayFromYear y = if InLeapYear y then 366 else 365.
Proof.
  unfold DayFromYear, InLeapYear.
  destruct (Z.eqb_spec (y mod 4) 0) as [E4|E4];
    destruct (Z.eqb_spec (y mod 100) 0) as [E100|E100];
    destruct (Z.eqb_spec (y mod 400) 0) as [E400|E400]; cbn [andb orb negb];
    Z.div_mod_to_equations; lia.
Qed.

Lemma month_length (now : Clock) :
  28 <= lastDay now - firstDay now + 1 <= 31.
Proof.
  unfold lastDay, firstDay, MakeDay.
  set (y := getFullYear now). set (m := getMonth now).
  assert (Hm : 0 <= m mod 12 < 12) by (apply Z.mod_pos_bound; lia).
  assert (Hm1 : 0 <= (m + 1) mod 12 < 12) by (apply Z.mod_pos_bound; lia).
  assert (Hcase : (m + 1) mod 12 = m mod 12 + 1 /\ (m + 1) / 12 = m / 12
                  \/ m mod 12 = 11 /\ (m + 1) mod 12 = 0 /\ (m + 1) / 12 = m / 12 + 1).
  { Z.div_mod_to_equations. lia. }
  destruct Hcase as [[Em Ed] | [E11 [Em Ed]]].
  - rewrite Em, Ed. set (D := DayFromYear (y + m / 12)).
    assert (Hk : m mod 12 = 0 \/ m mod 12 = 1 \/ m mod 12 = 2 \/ m mod 12 = 3
                 \/ m mod 12 = 4 \/ m mod 12 = 5 \/ m mod 12 = 6 \/ m mod 12 = 7
                 \/ m mod 12 = 8 \/ m mod 12 = 9 \/ m mod 12 = 10) by lia.
    destruct (InLeapYear (y + m / 12)).
    all: repeat (destruct Hk as [Hk|Hk]; [rewrite Hk; cbn [monthStart Z.add Pos.add Pos.succ]; lia|]).
    all: rewrite Hk; cbn [monthStart Z.add Pos.add Pos.succ]; lia.
  - rewrite Em, Ed, E11.
    replace (y + (m / 12 + 1)) with (y + m / 12 + 1) by lia.
    pose proof (DayFromYear_next (y + m / 12)) as Hy.
    destruct (InLeapYear (y + m / 12)); cbn [monthStart];
      destruct (InLeapYear (y + m / 12 + 1)); lia.
Qed.

End MonthWindow.

(* ================================================================== *)
(** * Leaderboard and rank *)
(* ================================================================== *)

Module StorageSpec.
Import JSDate Real Storage Samples RealOrder MonthWindow.

(** ** Lists *)

(** Two WHERE conditions applied one after the other. *)
Lemma filter_twice {Row : Type} (first second : Row -> bool) (rows : list Row) :
  filter second (filter first rows)
  = filter (fun r => andb (first r) (second r)) rows.
Proof.
  induction rows as [|r rows IH]; [reflexivity|].
  cbn. destruct (first r); cbn; [destruct (second r)|]; now rewrite IH.
Qed.

Lemma length_filter_map {A B : Type} (f : A -> B) (p : B -> bool) (l : list A) :
  List.length (filter p (map f l)) = List.length (filter (fun x => p (f x)) l).
Proof.
  induction l as [|x l IH]; [reflexivity|].
  cbn. destruct (p (f x)); cbn; now rewrite IH.
Qed.

Lemma mapi_from_nth_error {A B : Type} (f : A -> nat -> B) (rows : list A) (s i : nat) :
  nth_error (map (fun p => f (snd p) (fst p)) (combine (seq s (List.length rows)) rows)) i
  = option_map (fun r => f r (s + i)%nat) (nth_error rows i).
Proof.
  revert s i. induction rows as [|r rows IH]; intros s i.
  - destruct i; reflexivity.
  - destruct i as [|i]; cbn.
    + now rewrite Nat.add_0_r.
    + rewrite IH. now rewrite Nat.add_succ_comm.
Qed.

Lemma mapi_nth_error {A B : Type} (f : A -> nat -> B) (rows : list A) (i : nat) :
  nth_error (mapi f rows) i = option_map (fun r => f r i) (nth_error rows i).
Proof. unfold mapi. now rewrite mapi_from_nth_error. Qed.

Lemma mapi_length {A B : Type} (f : A -> nat -> B) (rows : list A) :
  List.length (mapi f rows) = List.length rows.
Proof.
  unfold mapi. rewrite length_map, length_combine, length_seq.
  apply Nat.min_id.
Qed.

Lemma StronglySorted_nth {A : Type} (R : A -> A -> Prop) (l : list A) :
  StronglySorted R l ->
  forall i j a b, (i < j)%nat ->
  nth_error l i = Some a -> nth_error l j = Some b -> R a b.
Proof.
  induction 1 as [|x l Hs IH Hall]; intros i j a b Hij Ha Hb.
  - destruct i; discriminate.
  - destruct j as [|j]; [lia|]. cbn in Hb.
    destruct i as [|i]; cbn in Ha.
    + injection Ha as <-. rewrite Forall_forall in Hall.
      apply Hall. eapply nth_error_In; eassumption.
    + apply (IH i j); [lia | assumption | assumption].
Qed.

(** The rows kept by LIMIT are rows of the result. *)
Lemma limit_incl {Row : Type} (n : nat) (rows : list Row) :
  incl (firstn n rows) rows.
Proof.
  revert n. induction rows as [|r rows IH]; intros [|n] x Hx;
    try contradiction.
  destruct Hx as [<-|Hx]; [now left|right; now apply (IH n)].
Qed.

Lemma StronglySorted_firstn {A : Type} (R : A -> A -> Prop) (n : nat) (l : list A) :
  StronglySorted R l -> StronglySorted R (firstn n l).
Proof.
  intros H. revert n. induction H as [|x l Hs IH Hall]; intros n.
  - destruct n; constructor.
  - destruct n as [|n]; cbn; constructor; [apply IH|].
    rewrite Forall_forall in *. intros y Hy. apply Hall.
    now apply limit_incl in Hy.
Qed.

Lemma filter_filter_implied {A : Type} (p q : A -> bool) (l : list A) :
  (forall x, In x l -> p x = true -> q x = true) ->
  filter p (filter q l) = filter p l.
Proof.
  intros H. rewrite filter_twice. apply filter_ext_in.
  intros x Hx. destruct (p x) eqn:Ep.
  - now rewrite (H x Hx Ep).
  - apply andb_false_r.
Qed.

Lemma filter_none {A : Type} (p : A -> bool) (l : list A) :
  (forall x, In x l -> p x = false) -> filter p l = [].
Proof.
  induction l as [|x l IH]; intros H; [reflexivity|].
  cbn. rewrite (H x (or_introl eq_refl)). apply IH.
  intros y Hy. apply H. now right.
Qed.

Lemma filter_all {A : Type} (keep : A -> bool) (l : list A) :
  (forall x, In x l -> keep x = true) -> filter keep l = l.
Proof.
  induction l as [|x l IH]; intros H; [reflexivity|].
  cbn. rewrite (H x (or_introl eq_refl)). f_equal. apply IH.
  intros y Hy. apply H. now right.
Qed.

Lemma flat_map_filter_nil {A B : Type} (f : A -> list B) (keep : A -> bool) (l : list A) :
  (forall x, In x l -> keep x = false -> f x = []) ->
  flat_map f (filter keep l) = flat_map f l.
Proof.
  induction l as [|x l IH]; intros H; [reflexivity|].
  cbn. destruct (keep x) eqn:E; cbn.
  - f_equal. apply IH. intros y Hy. apply H. now right.
  - rewrite (H x (or_introl eq_refl) E). cbn.
    apply IH. intros y Hy. apply H. now right.
Qed.

Lemma filter_flat_map {A B : Type} (keep : B -> bool) (f : A -> list B) (l : list A) :
  filter keep (flat_map f l) = flat_map (fun x => filter keep (f x)) l.
Proof.
  induction l as [|x l IH]; [reflexivity|].
  cbn. now rewrite filter_app, IH.
Qed.

Lemma filter_length_le {Row : Type} (p q : Row -> bool) (rows : list Row) :
  (forall r, In r rows -> p r = true -> q r = true) ->
  (List.length (filter p rows) <= List.length (filter q rows))%nat.
Proof.
  induction rows as [|r rows IH]; intros H; [constructor|].
  assert (IH' := IH (fun x Hx => H x (or_intror Hx))).
  cbn. destruct (p r) eqn:Ep.
  - rewrite (H r (or_introl eq_refl) Ep). cbn. lia.
  - destruct (q r); cbn; lia.
Qed.

Lemma filter_length_zero {Row : Type} (p : Row -> bool) (rows : list Row) :
  List.length (filter p rows) = 0%nat <-> forall r, In r rows -> p r = false.
Proof.
  split.
  - intros H r Hr. destruct (p r) eqn:E; [|reflexivity].
    assert (Hin : In r (filter p rows)) by (apply filter_In; tauto).
    destruct (filter p rows); [contradiction|discriminate].
  - intros H. now rewrite filter_none.
Qed.

Lemma limit_NoDup {Row : Type} (n : nat) (rows : list Row) :
  NoDup rows -> NoDup (firstn n rows).
Proof.
  intros H. rewrite <- (firstn_skipn n rows) in H.
  now apply NoDup_app_remove_r in H.
Qed.

Lemma limit_nth {Row : Type} (n i : nat) (rows : list Row) (r : Row) :
  nth_error (firstn n rows) i = Some r <->
  (i < n)%nat /\ nth_error rows i = Some r.
Proof.
  rewrite nth_error_firstn. destruct (Nat.ltb_spec i n); split.
  - tauto.
  - tauto.
  - discriminate.
  - lia.
Qed.

Lemma mapi_limit {Row Out : Type} (f : Row -> nat -> Out) (n : nat) (rows : list Row) :
  firstn n (mapi f rows) = mapi f (firstn n rows).
Proof.
  apply nth_error_ext. intros i.
  rewrite nth_error_firstn, !mapi_nth_error, nth_error_firstn.
  now destruct (Nat.ltb i n).
Qed.

(** ** Promises *)

Lemma await_Resolves {A B : Type} (p : Promise A) (k : A -> Promise B) (b : B) :
  (x <- p ;; k x) = Resolves b <-> exists a, p = Resolves a /\ k a = Resolves b.
Proof.
  destruct p as [a|e]; cbn; split.
  - intros H. now exists a.
  - intros [a' [[= <-] H]]. exact H.
  - discriminate.
  - intros [a' [H _]]. discriminate.
Qed.

Lemma forEach_Resolves {A B : Type} (f : A -> Promise B) (l : list A) (ys : list B) :
  forEach f l = Resolves ys <-> Forall2 (fun x y => f x = Resolves y) l ys.
Proof.
  revert ys. induction l as [|x l IH]; intros ys; cbn.
  - split.
    + intros [= <-]. constructor.
    + intros H. inversion H. reflexivity.
  - rewrite await_Resolves. split.
    + intros [y [Hy H]]. apply await_Resolves in H.
      destruct H as [ys' [Hys [= <-]]]. constructor; [assumption|].
      now apply IH.
    + intros H. inversion H as [|x' y l' ys' Hy Hys]; subst.
      exists y. split; [assumption|]. apply await_Resolves.
      exists ys'. split; [now apply IH | reflexivity].
Qed.

(** A traversal resolves when each of its steps does. *)
Lemma forEach_resolves {A B : Type} (f : A -> Promise B) (l : list A) :
  (forall x, In x l -> exists y, f x = Resolves y) ->
  exists ys, forEach f l = Resolves ys.
Proof.
  induction l as [|x l IH]; intros H; cbn.
  - now exists [].
  - destruct (H x (or_introl eq_refl)) as [y Hy]. rewrite Hy. cbn.
    destruct (IH (fun z Hz => H z (or_intror Hz))) as [ys Hys].
    rewrite Hys. cbn. now exists (y :: ys).
Qed.

Lemma forEach_step {A B : Type} (f : A -> Promise B) (l : list A) (ys : list B) (x : A) :
  forEach f l = Resolves ys -> In x l -> exists y, f x = Resolves y /\ In y ys.
Proof.
  rewrite forEach_Resolves. induction 1 as [|x' y l' ys' Hy _ IH]; intros Hin.
  - contradiction.
  - destruct Hin as [->|Hin].
    + exists y. split; [assumption|now left].
    + destruct (IH Hin) as [y' [H1 H2]]. exists y'. split; [assumption|now right].
Qed.

Lemma forEach_from {A B : Type} (f : A -> Promise B) (l : list A) (ys : list B) (y : B) :
  forEach f l = Resolves ys -> In y ys -> exists x, In x l /\ f x = Resolves y.
Proof.
  rewrite forEach_Resolves. induction 1 as [|x' y' l' ys' Hy _ IH]; intros Hin.
  - contradiction.
  - destruct Hin as [->|Hin].
    + exists x'. split; [now left|assumption].
    + destruct (IH Hin) as [x [H1 H2]]. exists x. split; [now right|assumption].
Qed.

Lemma forEach_ext {A B : Type} (f g : A -> Promise B) (l : list A) :
  (forall x, In x l -> f x = g x) -> forEach f l = forEach g l.
Proof.
  induction l as [|x l IH]; intros H; [reflexivity|].
  cbn. rewrite (H x (or_introl eq_refl)).
  now rewrite (IH (fun z Hz => H z (or_intror Hz))).
Qed.

(** When every step resolves, the traversal is a map. *)
Lemma forEach_map {A B : Type} (f : A -> Promise B) (g : A -> B) (l : list A) :
  (forall x, In x l -> f x = Resolves (g x)) ->
  forEach f l = Resolves (map g l).
Proof.
  induction l as [|x l IH]; intros H; [reflexivity|].
  cbn. rewrite (H x (or_introl eq_refl)). cbn.
  now rewrite (IH (fun z Hz => H z (or_intror Hz))).
Qed.

(** ** ORDER BY *)

Section OrderBy.
Context {A : Type}.
Variable le : A -> A -> bool.
Hypothesis le_total : forall a b, le a b = true \/ le b a = true.
Hypothesis le_trans : forall a b c, le a b = true -> le b c = true -> le a c = true.

Definition sortedBy (l : list A) : Prop :=
  StronglySorted (fun a b => le a b = true) l.

Lemma insertBy_In (x y : A) (l : list A) :
  In y (insertBy le x l) <-> y = x \/ In y l.
Proof.
  induction l as [|z l IH]; cbn.
  - intuition.
  - destruct (le x z); cbn; [intuition|].
    rewrite IH. intuition.
Qed.

Lemma insertBy_sorted (x : A) (l : list A) :
  sortedBy l -> sortedBy (insertBy le x l).
Proof.
  unfold sortedBy. induction 1 as [|z l Hs IH Hall]; cbn.
  - constructor; constructor.
  - destruct (le x z) eqn:E.
    + constructor; [constructor; assumption|].
      constructor; [assumption|].
      rewrite Forall_forall in *. intros y Hy.
      apply le_trans with z; auto.
    + assert (Hzx : le z x = true) by (destruct (le_total z x); congruence).
      constructor; [assumption|].
      rewrite Forall_forall in *. intros y Hy.
      apply insertBy_In in Hy. destruct Hy as [->|Hy]; auto.
Qed.

Lemma insertBy_perm (x : A) (l : list A) :
  Permutation (x :: l) (insertBy le x l).
Proof.
  induction l as [|z l IH]; cbn; [reflexivity|].
  destruct (le x z); [reflexivity|].
  rewrite perm_swap. now constructor.
Qed.

(** The insertion sort is an admissible sort. *)
Lemma orderBy_sortsBy : sortsBy le (orderBy le).
Proof.
  intros rows. induction rows as [|x l [IHp IHs]]; cbn.
  - split; constructor.
  - split.
    + rewrite <- insertBy_perm. now constructor.
    + now apply insertBy_sorted.
Qed.

End OrderBy.

Lemma bySum_total (a b : User * real) : bySum a b = true \/ bySum b a = true.
Proof. apply float4le_total. Qed.

Lemma bySum_trans (a b c : User * real) :
  bySum a b = true -> bySum b c = true -> bySum a c = true.
Proof. apply float4le_trans. Qed.

Lemma stable_sortsBy : sortsBy bySum stable.
Proof. apply orderBy_sortsBy; [exact bySum_total | exact bySum_trans]. Qed.

Lemma reversed_sortsBy : sortsBy bySum reversed.
Proof.
  intros rows. unfold reversed.
  destruct (stable_sortsBy (rev rows)) as [Hp Hs]. split; [|exact Hs].
  apply Permutation_trans with (rev rows); [apply Permutation_rev|exact Hp].
Qed.

(** ** [total || 0] *)

Lemma or_zero_not_nan (t : option real) : isnan (or_zero t) = false.
Proof. destruct t as [[s|s| |s m e]|]; reflexivity. Qed.

(** On a number, [|| 0] changes at most the sign of a zero. *)
Lemma float4lt_or_zero_r (x s : real) :
  isnan s = false -> float4lt x (or_zero (Some s)) = float4lt x s.
Proof.
  destruct s as [sx|sx| |sx mx ex]; try discriminate; intros _; reflexivity.
Qed.

Lemma float4lt_or_zero_l (s t : real) :
  isnan s = false -> float4lt (or_zero (Some s)) t = float4lt s t.
Proof.
  destruct s as [sx|sx| |sx mx ex]; try discriminate; intros _; try reflexivity;
    destruct t as [[|]|[|]| |[|] m e]; reflexivity.
Qed.

Lemma float4le_or_zero (s t : real) :
  isnan s = false -> isnan t = false ->
  float4le (or_zero (Some s)) (or_zero (Some t)) = float4le s t.
Proof.
  destruct s as [sx|sx| |sx mx ex]; try discriminate; intros _;
    destruct t as [[|]|[|]| |[|] m e]; try discriminate; intros _; reflexivity.
Qed.

(** A total of the JavaScript side is below a number exactly when the sum
    is a number below it. *)
Lemma float4lt_number (sum userTotal : real) :
  isnan userTotal = false ->
  float4lt sum userTotal
  = negb (isnan sum) && SFltb (or_zero (Some sum)) userTotal.
Proof.
  intros Hn. unfold float4lt. rewrite Hn. cbn [orb].
  destruct sum as [sx|sx| |sx mx ex]; try reflexivity;
    destruct userTotal as [[|]|[|]| |[|] m e]; reflexivity.
Qed.


(** ** Rows and records in a range of dates *)

(** The rows of a user dated in the range: what [sumInRange] sums. *)
Definition rowsInRange (db : DB) (from to : Z) (uid : string) : list Activity :=
  filter (fun a => String.eqb (userId a) uid && inRange from to (date a))
         (activities db).

(** A user has at least one record dated in the range. *)
Definition hasRecordIn (db : DB) (from to : Z) (uid : string) : bool :=
  existsb (fun a => String.eqb (userId a) uid && inRange from to (date a))
          (activities db).

(** A user has at least one record in the current calendar month. *)
Definition hasRecordThisMonth (db : DB) (now : Clock) (uid : string) : bool :=
  hasRecordIn db (firstDay now) (lastDay now) uid.

Lemma sumInRange_rows (db : DB) (from to : Z) (uid : string) :
  sumInRange db uid from to = sql_sum (map totalEmissions (rowsInRange db from to uid)).
Proof. reflexivity. Qed.

Lemma hasRecord_false (db : DB) (from to : Z) (uid : string) :
  hasRecordIn db from to uid = false ->
  forall a, In a (activities db) -> userId a = uid -> inRange from to (date a) = false.
Proof.
  unfold hasRecordIn. intros H a Ha Hu.
  destruct (inRange from to (date a)) eqn:E; [|reflexivity].
  assert (Hex : existsb (fun a => String.eqb (userId a) uid && inRange from to (date a))
                        (activities db) = true).
  { apply existsb_exists. exists a. split; [assumption|].
    rewrite E, andb_true_r. now apply String.eqb_eq. }
  congruence.
Qed.

Lemma hasRecord_true (db : DB) (from to : Z) (a : Activity) :
  In a (activities db) -> inRange from to (date a) = true ->
  hasRecordIn db from to (userId a) = true.
Proof.
  intros Ha Hm. unfold hasRecordIn. apply existsb_exists.
  exists a. split; [assumption|]. now rewrite String.eqb_refl, Hm.
Qed.

Lemma hasRecord_exists (db : DB) (from to : Z) (uid : string) :
  hasRecordIn db from to uid = true ->
  exists a, In a (activities db) /\ userId a = uid /\ inRange from to (date a) = true.
Proof.
  unfold hasRecordIn. intros H. apply existsb_exists in H.
  destruct H as [a [Ha E]]. apply andb_prop in E. destruct E as [E1 E2].
  exists a. repeat split; try assumption. now apply String.eqb_eq.
Qed.

Lemma rows_hasRecord (db : DB) (from to : Z) (uid : string) :
  hasRecordIn db from to uid = true <-> rowsInRange db from to uid <> [].
Proof.
  unfold hasRecordIn, rowsInRange. split.
  - intros H E. apply existsb_exists in H. destruct H as [a [Ha Hp]].
    assert (Hin : In a (filter (fun a => String.eqb (userId a) uid
                                         && inRange from to (date a))
                               (activities db))).
    { apply filter_In. tauto. }
    rewrite E in Hin. contradiction.
  - intros H.
    destruct (filter _ (activities db)) as [|a l] eqn:E; [contradiction|].
    assert (Hin : In a (filter (fun a => String.eqb (userId a) uid
                                         && inRange from to (date a))
                               (activities db))).
    { rewrite E. now left. }
    apply filter_In in Hin. apply existsb_exists. exists a. tauto.
Qed.

(** The sum of a user without a record in the range is NULL; the sum of a
    user with one is not. *)
Lemma sumInRange_inactive (db : DB) (from to : Z) (uid : string) :
  hasRecordIn db from to uid = false -> sumInRange db uid from to = Resolves None.
Proof.
  intros H. rewrite sumInRange_rows.
  destruct (rowsInRange db from to uid) as [|a l] eqn:E; [reflexivity|].
  assert (Hrec : hasRecordIn db from to uid = true).
  { apply rows_hasRecord. rewrite E. discriminate. }
  congruence.
Qed.

Lemma sumInRange_active (db : DB) (from to : Z) (uid : string) (t : option real) :
  hasRecordIn db from to uid = true ->
  sumInRange db uid from to = Resolves t -> exists s, t = Some s.
Proof.
  intros H. rewrite sumInRange_rows. apply rows_hasRecord in H.
  destruct (rowsInRange db from to uid) as [|a l]; [contradiction|].
  cbn. destruct (sumFrom _ _) as [s|e]; [|discriminate].
  cbn. intros [= <-]. now exists s.
Qed.

(** ** The leaderboard *)

Definition limitOrDefault (limit : option nat) : nat :=
  match limit with
  | Some n => n
  | None => 10%nat
  end.

Definition toEntry (row : User * real) (index : nat) : LeaderboardEntry :=
  {| user := fst row;
     entryTotalEmissions := or_zero (Some (snd row));
     rank := index + 1 |}.

Lemma getLeaderboard_month
  (order : list (User * real) -> list (User * real))
  (db : DB) (now : Clock) (limit : option nat) :
  getLeaderboard order db now limit
  = (groups <- leaderboardGroups db (monthFrom now) (monthTo now) ;;
     Resolves (mapi toEntry (firstn (limitOrDefault limit) (order groups)))).
Proof.
  unfold getLeaderboard, monthFrom, monthTo, limitOrDefault, toEntry.
  reflexivity.
Qed.

Lemma getLeaderboard_Resolves
  (order : list (User * real) -> list (User * real))
  (db : DB) (now : Clock) (limit : option nat) (entries : list LeaderboardEntry) :
  getLeaderboard order db now limit = Resolves entries <->
  exists groups,
    leaderboardGroups db (monthFrom now) (monthTo now) = Resolves groups
    /\ entries = mapi toEntry (firstn (limitOrDefault limit) (order groups)).
Proof.
  rewrite getLeaderboard_month, await_Resolves.
  split; intros [groups [H1 H2]]; exists groups; (split; [exact H1|]).
  - now injection H2 as <-.
  - now rewrite H2.
Qed.

Lemma entries_nth (rows : list (User * real)) (i : nat) (e : LeaderboardEntry) :
  nth_error (mapi toEntry rows) i = Some e <->
  exists row, nth_error rows i = Some row /\ e = toEntry row i.
Proof.
  rewrite mapi_nth_error. destruct (nth_error rows i) as [row|]; cbn; split.
  - intros [= <-]. now exists row.
  - intros [row' [[= <-] ->]]. reflexivity.
  - discriminate.
  - intros [row' [H _]]. discriminate.
Qed.

(** ** Ties *)

(** C9 (amended): entries at different positions of the leaderboard have
    different ranks, whatever their totals: the rank is the 1-based
    position in the ordered result, so tied users get distinct ranks. *)
Theorem leaderboard_ranks_distinct
  (order : list (User * real) -> list (User * real))
  (db : DB) (now : Clock) (limit : option nat) (entries : list LeaderboardEntry)
  (i j : nat) (e1 e2 : LeaderboardEntry) :
  getLeaderboard order db now limit = Resolves entries ->
  nth_error entries i = Some e1 ->
  nth_error entries j = Some e2 ->
  i <> j ->
  rank e1 = (i + 1)%nat /\ rank e2 = (j + 1)%nat /\ rank e1 <> rank e2.
Proof.
  intros H H1 H2 Hne. apply getLeaderboard_Resolves in H.
  destruct H as [groups [_ ->]].
  apply entries_nth in H1, H2.
  destruct H1 as [r1 [_ ->]], H2 as [r2 [_ ->]].
  cbn. repeat split. lia.
Qed.


(** Two rows tied at 50 kg can only come out in one of two orders. *)
Lemma tie_orders (order : list (User * real) -> list (User * real)) :
  sortsBy bySum order ->
  getLeaderboard order db_tie juneUTC None
  = Resolves [toEntry (userA, kg 50) 0; toEntry (userB, kg 50) 1]
  \/ getLeaderboard order db_tie juneUTC None
     = Resolves [toEntry (userB, kg 50) 0; toEntry (userA, kg 50) 1].
Proof.
  intros Horder.
  assert (Hgroups : leaderboardGroups db_tie (monthFrom juneUTC) (monthTo juneUTC)
                    = Resolves [(userA, kg 50); (userB, kg 50)]) by reflexivity.
  destruct (Horder [(userA, kg 50); (userB, kg 50)]) as [Hperm _].
  apply Permutation_length_2_inv in Hperm.
  rewrite getLeaderboard_month, Hgroups. cbn [await].
  destruct Hperm as [E|E]; rewrite E; [left|right]; reflexivity.
Qed.

(** In [db_tie] A and B both total 50 kg, and receive ranks 1 and 2: A
    first with an engine that keeps the order of the groups, B first with
    one that reverses it, and one of the two with any engine. *)
Lemma tied_users_ranks_counterexample :
  getLeaderboard stable db_tie juneUTC None
  = Resolves [ {| user := userA; entryTotalEmissions := kg 50; rank := 1 |};
               {| user := userB; entryTotalEmissions := kg 50; rank := 2 |} ]
  /\ getLeaderboard reversed db_tie juneUTC None
     = Resolves [ {| user := userB; entryTotalEmissions := kg 50; rank := 1 |};
                  {| user := userA; entryTotalEmissions := kg 50; rank := 2 |} ]
  /\ (forall order : list (User * real) -> list (User * real),
        sortsBy bySum order ->
        exists entries,
          getLeaderboard order db_tie juneUTC None = Resolves entries
          /\ ~ (forall e1 e2 : LeaderboardEntry,
                  In e1 entries -> In e2 entries ->
                  entryTotalEmissions e1 = entryTotalEmissions e2 ->
                  rank e1 = rank e2)).
Proof.
  split; [reflexivity|]. split; [reflexivity|].
  intros order Horder.
  assert (Hno : forall u1 u2 : User,
            ~ (forall e1 e2 : LeaderboardEntry,
                 In e1 [toEntry (u1, kg 50) 0; toEntry (u2, kg 50) 1] ->
                 In e2 [toEntry (u1, kg 50) 0; toEntry (u2, kg 50) 1] ->
                 entryTotalEmissions e1 = entryTotalEmissions e2 ->
                 rank e1 = rank e2)).
  { intros u1 u2 H.
    assert (E : rank (toEntry (u1, kg 50) 0) = rank (toEntry (u2, kg 50) 1)).
    { apply H; [now left | right; now left | reflexivity]. }
    discriminate E. }
  destruct (tie_orders order Horder) as [E|E]; rewrite E; eexists;
    (split; [reflexivity|apply Hno]).
Qed.

Lemma leaderboard_ranks_distinct_witness :
  rank (toEntry (userA, kg 50) 0) = (0 + 1)%nat
  /\ rank (toEntry (userB, kg 50) 1) = (1 + 1)%nat
  /\ rank (toEntry (userA, kg 50) 0) <> rank (toEntry (userB, kg 50) 1).
Proof.
  apply (leaderboard_ranks_distinct stable db_tie juneUTC None
           [toEntry (userA, kg 50) 0; toEntry (userB, kg 50) 1] 0 1);
    [reflexivity | reflexivity | reflexivity | lia].
Defined.

(** ** The filtered join of the leaderboard query *)

Definition inRangeOf (from to : Z) (a : Activity) : bool := inRange from to (date a).

(** The rows of one user that survive the WHERE clause. *)
Definition userRangeRows (from to : Z) (acts : list Activity) (u : User)
  : list (User * Activity) :=
  map (pair u)
      (filter (inRangeOf from to) (filter (fun a => String.eqb (id u) (userId a)) acts)).

Lemma whereInRange_app (from to : Z) (l1 l2 : list (User * option Activity)) :
  whereInRange from to (l1 ++ l2) = whereInRange from to l1 ++ whereInRange from to l2.
Proof. unfold whereInRange. apply flat_map_app. Qed.

Lemma whereInRange_matches (from to : Z) (u : User) (l : list Activity) :
  whereInRange from to (map (fun a => (u, Some a)) l)
  = map (pair u) (filter (inRangeOf from to) l).
Proof.
  induction l as [|a l IH]; [reflexivity|].
  cbn. unfold inRangeOf at 1.
  destruct (inRange from to (date a)); cbn; now f_equal.
Qed.

Lemma whereInRange_leftJoin (from to : Z) (us : list User) (acts : list Activity) :
  whereInRange from to (leftJoin us acts) = flat_map (userRangeRows from to acts) us.
Proof.
  induction us as [|u us IH]; [reflexivity|].
  unfold leftJoin. cbn [flat_map]. fold (leftJoin us acts).
  rewrite whereInRange_app. f_equal; [|exact IH].
  unfold userRangeRows.
  destruct (filter (fun a => String.eqb (id u) (userId a)) acts) as [|a l] eqn:E.
  - reflexivity.
  - apply (whereInRange_matches from to u (a :: l)).
Qed.

Definition joinKey (r : User * Activity) : string := id (fst r).

(** The joined rows that pass the WHERE clause. *)
Definition filteredJoin (db : DB) (from to : Z) : list (User * Activity) :=
  flat_map (userRangeRows from to (activities db)) (users db).

(** The selected row of the group of key [k]. *)
Definition groupRow (rows : list (User * Activity)) (k : string)
  : Promise (list (User * real)) :=
  selectGroup (k, filter (fun r => String.eqb (joinKey r) k) rows).

Definition groupKeys (db : DB) (from to : Z) : list string :=
  nodup string_dec (map joinKey (filteredJoin db from to)).

Lemma forEach_of_map {A B C : Type} (g : A -> B) (f : B -> Promise C) (l : list A) :
  forEach f (map g l) = forEach (fun x => f (g x)) l.
Proof.
  induction l as [|x l IH]; [reflexivity|]. cbn. now rewrite IH.
Qed.

Lemma leaderboardGroups_keys (db : DB) (from to : Z) :
  leaderboardGroups db from to
  = (selected <- forEach (groupRow (filteredJoin db from to)) (groupKeys db from to) ;;
     Resolves (List.concat selected)).
Proof.
  unfold leaderboardGroups, groupBy, groupKeys, filteredJoin.
  rewrite whereInRange_leftJoin, forEach_of_map. reflexivity.
Qed.

Lemma leaderboardGroups_Resolves (db : DB) (from to : Z) (groups : list (User * real)) :
  leaderboardGroups db from to = Resolves groups <->
  exists selected,
    forEach (groupRow (filteredJoin db from to)) (groupKeys db from to)
    = Resolves selected
    /\ groups = List.concat selected.
Proof.
  rewrite leaderboardGroups_keys, await_Resolves.
  split; intros [selected [H1 H2]]; exists selected; (split; [exact H1|]).
  - now injection H2 as <-.
  - now rewrite H2.
Qed.

Lemma groupRow_key (rows : list (User * Activity)) (k : string)
  (ys : list (User * real)) (r : User * real) :
  groupRow rows k = Resolves ys -> In r ys -> id (fst r) = k.
Proof.
  unfold groupRow, selectGroup. cbn [snd].
  destruct (filter _ rows) as [|[u a] rest] eqn:E.
  - intros [= <-]. contradiction.
  - rewrite await_Resolves. intros [total [_ [= <-]]] [<-|[]]. cbn [fst].
    assert (H : In (u, a) (filter (fun r => String.eqb (joinKey r) k) rows)).
    { rewrite E. now left. }
    apply filter_In in H. destruct H as [_ H]. now apply String.eqb_eq in H.
Qed.

Lemma groupRow_short (rows : list (User * Activity)) (k : string)
  (ys : list (User * real)) :
  groupRow rows k = Resolves ys -> (List.length ys <= 1)%nat.
Proof.
  unfold groupRow, selectGroup. cbn [snd].
  destruct (filter _ rows) as [|[u a] rest].
  - intros [= <-]. cbn. lia.
  - rewrite await_Resolves. intros [total [_ [= <-]]]. cbn. lia.
Qed.

Lemma groupRows_keys_NoDup (rows : list (User * Activity)) (ks : list string)
  (selected : list (list (User * real))) :
  NoDup ks ->
  forEach (groupRow rows) ks = Resolves selected ->
  NoDup (map (fun r => id (fst r)) (List.concat selected)).
Proof.
  intros Hnd. revert selected.
  induction Hnd as [|k ks Hfresh Hnd IH]; intros selected H.
  - cbn in H. injection H as <-. constructor.
  - cbn [forEach] in H. apply await_Resolves in H.
    destruct H as [ys [Hys H]]. apply await_Resolves in H.
    destruct H as [rest [Hrest [= <-]]].
    cbn [List.concat]. rewrite map_app. apply NoDup_app; [|now apply IH|].
    + pose proof (groupRow_short _ _ _ Hys) as Hlen.
      destruct ys as [|y [|y' ys]]; cbn in Hlen |- *; try lia;
        repeat constructor. intros [].
    + intros key H1 H2.
      apply in_map_iff in H1. destruct H1 as [r1 [<- H1]].
      pose proof (groupRow_key _ _ _ _ Hys H1) as E1.
      apply in_map_iff in H2. destruct H2 as [r2 [E2 H2]].
      apply in_concat in H2. destruct H2 as [ys2 [Hys2 H2]].
      destruct (forEach_from _ _ _ _ Hrest Hys2) as [k2 [Hk2 Hg2]].
      pose proof (groupRow_key _ _ _ _ Hg2 H2) as E3.
      apply Hfresh. congruence.
Qed.

Lemma groups_keys_NoDup (db : DB) (from to : Z) (groups : list (User * real)) :
  leaderboardGroups db from to = Resolves groups ->
  NoDup (map (fun r => id (fst r)) groups).
Proof.
  intros H. apply leaderboardGroups_Resolves in H.
  destruct H as [selected [H ->]].
  eapply groupRows_keys_NoDup; [apply NoDup_nodup|exact H].
Qed.

Lemma userRangeRows_fst (from to : Z) (acts : list Activity) (u : User) (r : User * Activity) :
  In r (userRangeRows from to acts u) -> fst r = u.
Proof.
  unfold userRangeRows. intros H. apply in_map_iff in H.
  destruct H as [a [<- _]]. reflexivity.
Qed.

(** A key of the groups is the id of a user with a record in the range. *)
Lemma groupKeys_active (db : DB) (from to : Z) (k : string) :
  In k (groupKeys db from to) ->
  hasRecordIn db from to k = true
  /\ exists u, In u (users db) /\ id u = k.
Proof.
  unfold groupKeys. intros Hk.
  apply nodup_In, in_map_iff in Hk. destruct Hk as [[v a] [Ev Hva]].
  unfold joinKey in Ev. cbn [fst] in Ev.
  unfold filteredJoin in Hva. apply in_flat_map in Hva.
  destruct Hva as [w [Hw Hva]].
  pose proof (userRangeRows_fst _ _ _ _ _ Hva) as Efst. cbn [fst] in Efst. subst w.
  unfold userRangeRows in Hva. apply in_map_iff in Hva.
  destruct Hva as [a' [Ea Ha]]. injection Ea as ->.
  apply filter_In in Ha. destruct Ha as [Ha Hm].
  apply filter_In in Ha. destruct Ha as [Ha Hid]. apply String.eqb_eq in Hid.
  split.
  - rewrite <- Ev, Hid. now apply hasRecord_true.
  - now exists v.
Qed.

(** Every row of the leaderboard comes from a record of that user in the
    range. *)
Lemma groups_active (db : DB) (from to : Z) (groups : list (User * real))
  (u : User) (s : real) :
  leaderboardGroups db from to = Resolves groups ->
  In (u, s) groups -> hasRecordIn db from to (id u) = true.
Proof.
  intros H Hin. apply leaderboardGroups_Resolves in H.
  destruct H as [selected [H ->]].
  apply in_concat in Hin. destruct Hin as [ys [Hys Hin]].
  destruct (forEach_from _ _ _ _ H Hys) as [k [Hk Hg]].
  pose proof (groupRow_key _ _ _ _ Hg Hin) as E. cbn [fst] in E. rewrite E.
  now apply groupKeys_active.
Qed.

Lemma leaderboard_entry_active
  (order : list (User * real) -> list (User * real))
  (db : DB) (now : Clock) (limit : option nat)
  (entries : list LeaderboardEntry) (e : LeaderboardEntry) :
  sortsBy bySum order ->
  getLeaderboard order db now limit = Resolves entries ->
  In e entries ->
  hasRecordIn db (monthFrom now) (monthTo now) (id (user e)) = true.
Proof.
  intros Horder H He. apply getLeaderboard_Resolves in H.
  destruct H as [groups [Hg ->]].
  apply In_nth_error in He. destruct He as [i He].
  apply entries_nth in He. destruct He as [[u s] [Hrow ->]]. cbn [toEntry user fst].
  apply nth_error_In, limit_incl in Hrow.
  destruct (Horder groups) as [Hperm _].
  apply (Permutation_in _ (Permutation_sym Hperm)) in Hrow.
  exact (groups_active db _ _ groups u s Hg Hrow).
Qed.


(** ** The rank query *)

(** The keys of the groups of the rank query. *)
Definition activeKeys (db : DB) (from to : Z) : list string :=
  nodup string_dec (map userId (filter (inRangeOf from to) (activities db))).

(** The aggregated row of one group of the rank query. *)
Definition rankGroup (db : DB) (from to : Z) (k : string)
  : Promise (string * list Activity * option real) :=
  total <- sumInRange db k from to ;;
  Resolves ((k, rowsInRange db from to k), total).

(** The HAVING test on an aggregated row, and on the key of a group. *)
Definition having (userTotal : real) (g : string * list Activity * option real) : bool :=
  match snd g with
  | Some total => float4lt total userTotal
  | None => false
  end.

Definition passes (db : DB) (from to : Z) (userTotal : real) (k : string) : bool :=
  match sumInRange db k from to with
  | Resolves (Some total) => float4lt total userTotal
  | _ => false
  end.

(** The rows of one group of the rank query are the user's rows of the
    range. *)
Lemma group_rows (db : DB) (from to : Z) (k : string) :
  filter (fun r => String.eqb (userId r) k)
         (filter (inRangeOf from to) (activities db))
  = rowsInRange db from to k.
Proof.
  unfold rowsInRange. rewrite filter_twice. apply filter_ext.
  intros a. apply andb_comm.
Qed.

Lemma betterGroups_keys (db : DB) (from to : Z) (userTotal : real) :
  betterGroups db from to userTotal
  = (groups <- forEach (rankGroup db from to) (activeKeys db from to) ;;
     Resolves (map fst (filter (having userTotal) groups))).
Proof.
  unfold betterGroups, groupBy. rewrite forEach_of_map.
  fold (inRangeOf from to). fold (activeKeys db from to).
  rewrite (forEach_ext _ (rankGroup db from to)); [reflexivity|].
  intros k _. cbn [fst snd]. unfold rankGroup.
  now rewrite sumInRange_rows, group_rows.
Qed.

Lemma having_passes (db : DB) (from to : Z) (userTotal : real)
  (keys : list string) (groups : list (string * list Activity * option real)) :
  forEach (rankGroup db from to) keys = Resolves groups ->
  map (fun g => fst (fst g)) (filter (having userTotal) groups)
  = filter (passes db from to userTotal) keys.
Proof.
  rewrite forEach_Resolves. induction 1 as [|k g keys groups Hg _ IH]; [reflexivity|].
  unfold rankGroup in Hg. apply await_Resolves in Hg.
  destruct Hg as [total [Hsum [= <-]]].
  cbn [filter]. unfold having at 1, passes at 1. cbn [snd]. rewrite Hsum.
  destruct total as [t|]; [destruct (float4lt t userTotal)|]; cbn; now rewrite IH.
Qed.

Lemma getUserRank_month (db : DB) (now : Clock) (uid : string) :
  getUserRank db now uid
  = (userEmissions <- sumInRange db uid (monthFrom now) (monthTo now) ;;
     groups <-
       betterGroups db (monthFrom now) (monthTo now) (or_zero userEmissions) ;;
     Resolves (List.length (map (fun g => List.length (snd g)) groups) + 1)%nat).
Proof. unfold getUserRank, monthFrom, monthTo. reflexivity. Qed.

Lemma getEmissionsThisMonth_month (db : DB) (now : Clock) (uid : string) :
  getEmissionsThisMonth db now uid
  = (result <- sumInRange db uid (monthFrom now) (monthTo now) ;;
     Resolves (or_zero result)).
Proof. unfold getEmissionsThisMonth, monthFrom, monthTo. reflexivity. Qed.

(** The rank is one more than the number of keys that pass the HAVING
    test against the user's total. *)
Lemma rank_by_keys (db : DB) (now : Clock) (uid : string) (r : nat) :
  getUserRank db now uid = Resolves r ->
  exists own,
    sumInRange db uid (monthFrom now) (monthTo now) = Resolves own
    /\ r = (List.length
              (filter (passes db (monthFrom now) (monthTo now) (or_zero own))
                      (activeKeys db (monthFrom now) (monthTo now)))
            + 1)%nat.
Proof.
  rewrite getUserRank_month, await_Resolves. intros [own [Hown H]].
  exists own. split; [exact Hown|].
  rewrite betterGroups_keys in H. apply await_Resolves in H.
  destruct H as [better [H [= <-]]]. apply await_Resolves in H.
  destruct H as [groups [Hg [= <-]]].
  rewrite <- (having_passes _ _ _ _ _ _ Hg), !length_map. reflexivity.
Qed.

Lemma activeKeys_hasRecord (db : DB) (from to : Z) (k : string) :
  In k (activeKeys db from to) <-> hasRecordIn db from to k = true.
Proof.
  unfold activeKeys. rewrite nodup_In, in_map_iff. split.
  - intros [a [<- Ha]]. apply filter_In in Ha. destruct Ha as [Ha Hm].
    now apply hasRecord_true.
  - intros H. destruct (hasRecord_exists db from to k H) as [a [Ha [E Hm]]].
    exists a. split; [assumption|]. apply filter_In. tauto.
Qed.

(** Every monthly sum resolves: none overflows. *)
Definition sumsResolve (db : DB) (from to : Z) : Prop :=
  forall k, exists t, sumInRange db k from to = Resolves t.

(** The rank query resolves exactly when the monthly sum of every user
    does. *)
Lemma rank_resolves (db : DB) (now : Clock) (uid : string) :
  (exists r, getUserRank db now uid = Resolves r)
  <-> sumsResolve db (monthFrom now) (monthTo now).
Proof.
  split.
  - intros [r H] k. rewrite getUserRank_month in H. apply await_Resolves in H.
    destruct H as [own [_ H]]. apply await_Resolves in H.
    destruct H as [better [H _]]. rewrite betterGroups_keys in H.
    apply await_Resolves in H. destruct H as [groups [Hg _]].
    destruct (hasRecordIn db (monthFrom now) (monthTo now) k) eqn:Hrec.
    + apply activeKeys_hasRecord in Hrec.
      destruct (forEach_step _ _ _ _ Hg Hrec) as [g [Hk _]].
      unfold rankGroup in Hk. apply await_Resolves in Hk.
      destruct Hk as [t [Ht _]]. now exists t.
    + exists None. now apply sumInRange_inactive.
  - intros Hall. rewrite getUserRank_month.
    destruct (Hall uid) as [own Hown]. rewrite Hown. cbn [await].
    rewrite betterGroups_keys.
    destruct (forEach_resolves (rankGroup db (monthFrom now) (monthTo now))
                (activeKeys db (monthFrom now) (monthTo now))) as [groups Hg].
    { intros k _. unfold rankGroup. destruct (Hall k) as [t Ht]. rewrite Ht.
      cbn. eauto. }
    rewrite Hg. cbn. eauto.
Qed.

(** Every group counted by the rank query has a record in the range. *)
Lemma betterGroups_active (db : DB) (from to : Z) (userTotal : real)
  (better : list (string * list Activity)) (g : string * list Activity) :
  betterGroups db from to userTotal = Resolves better ->
  In g better -> hasRecordIn db from to (fst g) = true.
Proof.
  rewrite betterGroups_keys, await_Resolves.
  intros [groups [Hg [= <-]]] Hin.
  apply in_map_iff in Hin. destruct Hin as [g' [<- Hin]].
  apply filter_In in Hin. destruct Hin as [Hin _].
  destruct (forEach_from _ _ _ _ Hg Hin) as [k [Hk Hgk]].
  unfold rankGroup in Hgk. apply await_Resolves in Hgk.
  destruct Hgk as [t [_ [= <-]]]. cbn [fst].
  now apply activeKeys_hasRecord.
Qed.

(** ** Users without a record in the range *)

(** The database without a user and without that user's records. *)
Definition withoutUser (uid : string) (db : DB) : DB := {|
  users := filter (fun u => negb (String.eqb (id u) uid)) (users db);
  activities := filter (fun a => negb (String.eqb (userId a) uid)) (activities db)
|}.

Section Inactive.
Variables (db : DB) (from to : Z) (uid : string).
Hypothesis inactive : hasRecordIn db from to uid = false.

Lemma inactive_not_in_range (a : Activity) :
  In a (activities db) -> inRange from to (date a) = true ->
  negb (String.eqb (userId a) uid) = true.
Proof.
  intros Ha Hm. apply negb_true_iff.
  destruct (String.eqb_spec (userId a) uid) as [E|_]; [|reflexivity].
  rewrite (hasRecord_false db from to uid inactive a Ha E) in Hm. discriminate.
Qed.

Lemma rowsInRange_withoutUser (q : string) :
  rowsInRange (withoutUser uid db) from to q = rowsInRange db from to q.
Proof.
  unfold rowsInRange, withoutUser. cbn [activities].
  apply filter_filter_implied. intros a Ha Hp.
  apply andb_prop in Hp. now apply inactive_not_in_range.
Qed.

Lemma sumInRange_withoutUser (q : string) :
  sumInRange (withoutUser uid db) q from to = sumInRange db q from to.
Proof. now rewrite !sumInRange_rows, rowsInRange_withoutUser. Qed.

Lemma inRange_withoutUser :
  filter (inRangeOf from to) (activities (withoutUser uid db))
  = filter (inRangeOf from to) (activities db).
Proof.
  unfold withoutUser. cbn [activities].
  apply filter_filter_implied. intros a Ha Hp.
  now apply inactive_not_in_range.
Qed.

Lemma userRangeRows_withoutUser (u : User) :
  userRangeRows from to (activities (withoutUser uid db)) u
  = userRangeRows from to (activities db) u.
Proof.
  unfold userRangeRows, withoutUser. cbn [activities]. f_equal.
  rewrite !filter_twice. apply filter_ext_in. intros a Ha.
  destruct (inRangeOf from to a) eqn:Hm.
  - unfold inRangeOf in Hm.
    now rewrite (inactive_not_in_range a Ha Hm).
  - now rewrite !andb_false_r.
Qed.

Lemma userRangeRows_inactive (u : User) :
  negb (String.eqb (id u) uid) = false ->
  userRangeRows from to (activities db) u = [].
Proof.
  intros Hu. apply negb_false_iff, String.eqb_eq in Hu.
  unfold userRangeRows. rewrite filter_twice, filter_none; [reflexivity|].
  intros a Ha.
  destruct (String.eqb_spec (id u) (userId a)) as [E|_]; [|reflexivity].
  cbn. apply (hasRecord_false db from to uid inactive a Ha). congruence.
Qed.

Lemma filteredJoin_withoutUser :
  filteredJoin (withoutUser uid db) from to = filteredJoin db from to.
Proof.
  unfold filteredJoin. unfold withoutUser at 2. cbn [users].
  rewrite (flat_map_ext _ _ userRangeRows_withoutUser).
  apply flat_map_filter_nil. intros u _ Hu.
  now apply userRangeRows_inactive.
Qed.

Lemma leaderboardGroups_withoutUser :
  leaderboardGroups (withoutUser uid db) from to = leaderboardGroups db from to.
Proof.
  rewrite !leaderboardGroups_keys. unfold groupKeys.
  now rewrite filteredJoin_withoutUser.
Qed.

Lemma betterGroups_withoutUser (userTotal : real) :
  betterGroups (withoutUser uid db) from to userTotal
  = betterGroups db from to userTotal.
Proof.
  rewrite !betterGroups_keys. unfold activeKeys.
  rewrite inRange_withoutUser. f_equal.
  apply forEach_ext. intros k _. unfold rankGroup.
  now rewrite sumInRange_withoutUser, rowsInRange_withoutUser.
Qed.

End Inactive.

Lemma getLeaderboard_withoutUser
  (order : list (User * real) -> list (User * real))
  (db : DB) (now : Clock) (uid : string) (limit : option nat) :
  hasRecordIn db (monthFrom now) (monthTo now) uid = false ->
  getLeaderboard order (withoutUser uid db) now limit
  = getLeaderboard order db now limit.
Proof.
  intros H. rewrite !getLeaderboard_month.
  now rewrite (leaderboardGroups_withoutUser db _ _ uid H).
Qed.

Lemma getUserRank_withoutUser (db : DB) (now : Clock) (uid q : string) :
  hasRecordIn db (monthFrom now) (monthTo now) uid = false ->
  getUserRank (withoutUser uid db) now q = getUserRank db now q.
Proof.
  intros H. rewrite !getUserRank_month.
  rewrite (sumInRange_withoutUser db _ _ uid H).
  destruct (sumInRange db q (monthFrom now) (monthTo now)) as [own|e];
    [|reflexivity].
  cbn [await]. now rewrite (betterGroups_withoutUser db _ _ uid H).
Qed.


Lemma hasRecordThisMonth_month (db : DB) (now : Clock) (uid : string) :
  notEastOfUTC now = true ->
  hasRecordIn db (monthFrom now) (monthTo now) uid = hasRecordThisMonth db now uid.
Proof.
  intros H. destruct (month_notEast now H) as [-> ->]. reflexivity.
Qed.

(** C4 (amended): on a server that is not east of UTC, a user without a
    record in the current calendar month is no entry of the leaderboard and
    no group counted by the rank query; taking the user and the user's
    records out of the database changes neither the leaderboard nor
    anybody's rank.  The rank query still answers for such a user: the
    user's total is 0 and the rank is computed from it. *)
Theorem inactive_user_excluded
  (order : list (User * real) -> list (User * real))
  (db : DB) (now : Clock) (uid : string) :
  sortsBy bySum order ->
  notEastOfUTC now = true ->
  hasRecordThisMonth db now uid = false ->
  (forall (limit : option nat) (entries : list LeaderboardEntry) (e : LeaderboardEntry),
     getLeaderboard order db now limit = Resolves entries ->
     In e entries -> id (user e) <> uid)
  /\ (forall (userTotal : real) (better : list (string * list Activity))
             (g : string * list Activity),
        betterGroups db (monthFrom now) (monthTo now) userTotal = Resolves better ->
        In g better -> fst g <> uid)
  /\ (forall limit : option nat,
        getLeaderboard order (withoutUser uid db) now limit
        = getLeaderboard order db now limit)
  /\ (forall q : string,
        getUserRank (withoutUser uid db) now q = getUserRank db now q)
  /\ getEmissionsThisMonth db now uid = Resolves zero
  /\ getUserRank db now uid
     = (groups <- betterGroups db (monthFrom now) (monthTo now) zero ;;
        Resolves (List.length (map (fun g => List.length (snd g)) groups) + 1)%nat).
Proof.
  intros Horder Hnow H. rewrite <- (hasRecordThisMonth_month db now uid Hnow) in H.
  split; [|split; [|split; [|split; [|split]]]].
  - intros limit entries e Hres He E.
    pose proof (leaderboard_entry_active order db now limit entries e Horder Hres He).
    congruence.
  - intros userTotal better g Hres Hg E.
    pose proof (betterGroups_active db _ _ userTotal better g Hres Hg). congruence.
  - intros limit. now apply getLeaderboard_withoutUser.
  - intros q. now apply getUserRank_withoutUser.
  - rewrite getEmissionsThisMonth_month, (sumInRange_inactive db _ _ uid H).
    reflexivity.
  - rewrite getUserRank_month, (sumInRange_inactive db _ _ uid H). reflexivity.
Qed.

Lemma inactive_user_excluded_witness :
  (forall limit : option nat,
     getLeaderboard stable (withoutUser "C" db_two) juneUTC limit
     = getLeaderboard stable db_two juneUTC limit)
  /\ (forall q : string,
        getUserRank (withoutUser "C" db_two) juneUTC q = getUserRank db_two juneUTC q)
  /\ getEmissionsThisMonth db_two juneUTC "C" = Resolves zero.
Proof.
  destruct (inactive_user_excluded stable db_two juneUTC "C" stable_sortsBy
              eq_refl eq_refl) as [_ [_ [H3 [H4 [H5 _]]]]].
  split; [exact H3|]. split; [exact H4|exact H5].
Defined.

(** The claim as stated fails: C has no record in June, yet the rank query
    answers 1 for C, the rank it also gives to B, who has the lowest total
    of the month. *)
Lemma inactive_user_ranked_counterexample :
  notEastOfUTC juneUTC = true
  /\ hasRecordThisMonth db_two juneUTC "C" = false
  /\ getUserRank db_two juneUTC "C" = Resolves 1%nat
  /\ getUserRank db_two juneUTC "B" = Resolves 1%nat
  /\ ~ (forall r : nat, getUserRank db_two juneUTC "C" <> Resolves r).
Proof.
  repeat split. intros H. now apply (H 1%nat).
Qed.

(** ** The rank *)

Lemma distinct_NoDup (l : list string) : distinct l = true -> NoDup l.
Proof.
  induction l as [|x l IH]; cbn; intros H; constructor.
  - apply andb_prop in H. destruct H as [H _].
    apply negb_true_iff in H. intros Hin.
    assert (E : existsb (String.eqb x) l = true).
    { apply existsb_exists. exists x. split; [assumption|apply String.eqb_refl]. }
    congruence.
  - apply IH. apply andb_prop in H. tauto.
Qed.

(** A selection of the users keeps their ids distinct. *)
Lemma selected_ids_NoDup (keep : User -> bool) (us : list User) :
  NoDup (map id us) -> NoDup (map id (filter keep us)).
Proof.
  intros Hnd. induction us as [|u us IH]; [constructor|].
  apply NoDup_cons_iff in Hnd. destruct Hnd as [Hfresh Hnd].
  cbn. destruct (keep u); [|now apply IH].
  cbn. apply NoDup_cons_iff. split; [|now apply IH].
  intros Hin. apply Hfresh.
  apply in_map_iff in Hin. destruct Hin as [v [E Hv]].
  apply filter_In in Hv. apply in_map_iff. exists v. tauto.
Qed.

Lemma wellFormed_primary_key (db : DB) :
  wellFormed db = true -> NoDup (map id (users db)).
Proof.
  unfold wellFormed. intros H. apply andb_prop in H.
  now apply distinct_NoDup.
Qed.

Lemma wellFormed_foreign_key (db : DB) (a : Activity) :
  wellFormed db = true -> In a (activities db) ->
  exists u, In u (users db) /\ id u = userId a.
Proof.
  unfold wellFormed. intros H Ha. apply andb_prop in H. destruct H as [_ H].
  rewrite forallb_forall in H. specialize (H a Ha).
  apply existsb_exists in H. destruct H as [u [Hu E]].
  exists u. split; [assumption|]. now apply String.eqb_eq.
Qed.

(** A sum is never below the total made of it. *)
Lemma own_sum_not_below (own : option real) :
  match own with
  | Some total => float4lt total (or_zero own)
  | None => false
  end = false.
Proof.
  destruct own as [t|]; [|reflexivity].
  destruct (isnan t) eqn:E.
  - destruct t; try discriminate. reflexivity.
  - rewrite (float4lt_or_zero_r t t E). apply float4lt_irrefl.
Qed.

(** Whether a user counts as better than [uid]: another user, with a record
    in the range, whose sum passes the HAVING test. *)
Definition betterThan (db : DB) (from to : Z) (uid : string) (userTotal : real)
  (u : User) : bool :=
  negb (String.eqb (id u) uid)
  && hasRecordIn db from to (id u)
  && passes db from to userTotal (id u).

Lemma better_keys_users (db : DB) (from to : Z) (uid k : string) (own : option real) :
  wellFormed db = true ->
  sumInRange db uid from to = Resolves own ->
  In k (filter (passes db from to (or_zero own)) (activeKeys db from to))
  <-> In k (map id (filter (betterThan db from to uid (or_zero own)) (users db))).
Proof.
  intros Hwf Hown. rewrite filter_In, activeKeys_hasRecord. split.
  - intros [Hrec Hpass].
    destruct (hasRecord_exists db from to k Hrec) as [a [Ha [E Hm]]].
    destruct (wellFormed_foreign_key db a Hwf Ha) as [u [Hu Eu]].
    apply in_map_iff. exists u. split; [congruence|].
    apply filter_In. split; [assumption|]. unfold betterThan.
    replace (id u) with k by congruence.
    rewrite Hrec, Hpass, !andb_true_r. apply negb_true_iff.
    destruct (String.eqb_spec k uid) as [Ek|_]; [|reflexivity].
    rewrite Ek in Hpass. unfold passes in Hpass. rewrite Hown in Hpass.
    now rewrite own_sum_not_below in Hpass.
  - intros H. apply in_map_iff in H. destruct H as [u [<- Hu]].
    apply filter_In in Hu. destruct Hu as [Hu Hb]. unfold betterThan in Hb.
    apply andb_prop in Hb. destruct Hb as [Hb Hpass].
    apply andb_prop in Hb. tauto.
Qed.

(** With [users.id] a primary key referenced by [activities.userId], the
    rank is 1 plus the number of other users with a record in the range
    whose sum is below the user's total. *)
Lemma rank_count (db : DB) (now : Clock) (uid : string) (r : nat) :
  wellFormed db = true ->
  getUserRank db now uid = Resolves r ->
  exists own,
    sumInRange db uid (monthFrom now) (monthTo now) = Resolves own
    /\ r = (1 + List.length
                  (filter (betterThan db (monthFrom now) (monthTo now) uid (or_zero own))
                          (users db)))%nat.
Proof.
  intros Hwf H. apply rank_by_keys in H. destruct H as [own [Hown ->]].
  exists own. split; [exact Hown|]. rewrite Nat.add_comm. f_equal.
  rewrite <- (length_map id (filter (betterThan _ _ _ _ _) (users db))).
  apply Permutation_length, NoDup_Permutation.
  - apply NoDup_filter, NoDup_nodup.
  - apply selected_ids_NoDup. now apply wellFormed_primary_key.
  - intros k. now apply better_keys_users.
Qed.

Example rank_of_A : getUserRank db_two juneUTC "A" = Resolves 2%nat.
Proof. reflexivity. Qed.

Example rank_of_B : getUserRank db_two juneUTC "B" = Resolves 1%nat.
Proof. reflexivity. Qed.

(** Tied users share the rank computed by the rank query. *)
Example rank_of_tied : getUserRank db_tie juneUTC "A" = Resolves 1%nat
                       /\ getUserRank db_tie juneUTC "B" = Resolves 1%nat.
Proof. split; reflexivity. Qed.


(** ** The rows of the leaderboard, user by user *)

(** The selected row of a user, from the user's sum. *)
Definition rowOf (u : User) (sum : Promise (option real)) : Promise (list (User * real)) :=
  total <- sum ;;
  Resolves (match total with
            | Some t => [(u, t)]
            | None => []
            end).

Lemma userRangeRows_rows (db : DB) (from to : Z) (u : User) :
  userRangeRows from to (activities db) u
  = map (pair u) (rowsInRange db from to (id u)).
Proof.
  unfold userRangeRows, rowsInRange. f_equal.
  rewrite filter_twice. apply filter_ext.
  intros a. unfold inRangeOf. now rewrite String.eqb_sym.
Qed.

(** Rows of a user with another id are not in the group. *)
Lemma other_user_rows (from to : Z) (acts : list Activity) (k : string) (v : User) :
  id v <> k ->
  filter (fun r => String.eqb (joinKey r) k) (userRangeRows from to acts v) = [].
Proof.
  intros Hne. apply filter_none. intros r Hr.
  apply userRangeRows_fst in Hr. unfold joinKey. rewrite Hr.
  now apply String.eqb_neq.
Qed.

Lemma own_user_rows (from to : Z) (acts : list Activity) (u : User) :
  filter (fun r => String.eqb (joinKey r) (id u)) (userRangeRows from to acts u)
  = userRangeRows from to acts u.
Proof.
  apply filter_all. intros r Hr.
  apply userRangeRows_fst in Hr. unfold joinKey. rewrite Hr.
  apply String.eqb_refl.
Qed.

Lemma group_of_user_in (from to : Z) (acts : list Activity) (u : User) (us : list User) :
  NoDup (map id us) -> In u us ->
  flat_map (fun v => filter (fun r => String.eqb (joinKey r) (id u))
                            (userRangeRows from to acts v)) us
  = userRangeRows from to acts u.
Proof.
  induction us as [|v us IH]; intros Hnd Hin; [contradiction|].
  cbn [map] in Hnd. apply NoDup_cons_iff in Hnd. destruct Hnd as [Hfresh Hnd].
  cbn [flat_map]. destruct Hin as [->|Hin].
  - rewrite own_user_rows.
    replace (flat_map _ us) with (@nil (User * Activity)); [apply app_nil_r|].
    symmetry. clear IH Hnd. induction us as [|w us IHus]; [reflexivity|].
    cbn [flat_map]. rewrite other_user_rows.
    + apply IHus. intros H. apply Hfresh. now right.
    + intros E. apply Hfresh. left. exact E.
  - rewrite other_user_rows.
    + now apply IH.
    + intros E. apply Hfresh. rewrite E. now apply in_map.
Qed.

(** With [users.id] a primary key, the group of a user's id holds exactly
    that user's rows of the range. *)
Lemma group_of_user (db : DB) (from to : Z) (u : User) :
  wellFormed db = true -> In u (users db) ->
  filter (fun r => String.eqb (joinKey r) (id u)) (filteredJoin db from to)
  = userRangeRows from to (activities db) u.
Proof.
  intros Hwf Hu. unfold filteredJoin. rewrite filter_flat_map.
  apply group_of_user_in; [now apply wellFormed_primary_key | assumption].
Qed.

(** The selected row of a user: the user and the sum that [sumInRange]
    computes for the user. *)
Lemma groupRow_of_user (db : DB) (from to : Z) (u : User) :
  wellFormed db = true -> In u (users db) ->
  groupRow (filteredJoin db from to) (id u)
  = rowOf u (sumInRange db (id u) from to).
Proof.
  intros Hwf Hu. unfold groupRow, selectGroup. cbn [snd].
  rewrite (group_of_user db from to u Hwf Hu), userRangeRows_rows, sumInRange_rows.
  destruct (rowsInRange db from to (id u)) as [|a rest]; [reflexivity|].
  cbn [map sql_sum rowOf]. rewrite map_map. cbn [snd].
  destruct (sumFrom _ _); reflexivity.
Qed.

Lemma groupKeys_of_user (db : DB) (from to : Z) (u : User) :
  In u (users db) -> hasRecordIn db from to (id u) = true ->
  In (id u) (groupKeys db from to).
Proof.
  intros Hu Hrec. unfold groupKeys. apply nodup_In, in_map_iff.
  apply rows_hasRecord in Hrec.
  destruct (rowsInRange db from to (id u)) as [|a rest] eqn:E; [contradiction|].
  exists (u, a). split; [reflexivity|].
  unfold filteredJoin. apply in_flat_map. exists u. split; [assumption|].
  rewrite userRangeRows_rows, E. now left.
Qed.

(** The rows of the leaderboard before they are ordered are the users with
    a record in the range, each with the user's sum. *)
Lemma groups_iff (db : DB) (from to : Z) (groups : list (User * real))
  (u : User) (s : real) :
  wellFormed db = true ->
  leaderboardGroups db from to = Resolves groups ->
  In (u, s) groups
  <-> In u (users db)
      /\ hasRecordIn db from to (id u) = true
      /\ sumInRange db (id u) from to = Resolves (Some s).
Proof.
  intros Hwf H. apply leaderboardGroups_Resolves in H.
  destruct H as [selected [H ->]]. split.
  - intros Hin. apply in_concat in Hin. destruct Hin as [ys [Hys Hin]].
    destruct (forEach_from _ _ _ _ H Hys) as [k [Hk Hg]].
    destruct (groupKeys_active db from to k Hk) as [Hrec [v [Hv Ev]]].
    subst k. rewrite (groupRow_of_user db from to v Hwf Hv) in Hg.
    unfold rowOf in Hg. apply await_Resolves in Hg.
    destruct Hg as [total [Hsum [= <-]]].
    destruct total as [t|]; [|contradiction].
    destruct Hin as [[= <- <-]|[]]. auto.
  - intros [Hu [Hrec Hsum]].
    pose proof (groupKeys_of_user db from to u Hu Hrec) as Hk.
    destruct (forEach_step _ _ _ _ H Hk) as [ys [Hg Hys]].
    rewrite (groupRow_of_user db from to u Hwf Hu), Hsum in Hg.
    cbn in Hg. injection Hg as <-.
    apply in_concat. exists [(u, s)]. split; [assumption|now left].
Qed.

(** The leaderboard query resolves when every monthly sum does. *)
Lemma groups_resolve (db : DB) (from to : Z) :
  wellFormed db = true ->
  sumsResolve db from to ->
  exists groups, leaderboardGroups db from to = Resolves groups.
Proof.
  intros Hwf Hall. rewrite leaderboardGroups_keys.
  destruct (forEach_resolves (groupRow (filteredJoin db from to))
              (groupKeys db from to)) as [selected Hs].
  { intros k Hk. destruct (groupKeys_active db from to k Hk) as [_ [v [Hv <-]]].
    rewrite (groupRow_of_user db from to v Hwf Hv).
    destruct (Hall (id v)) as [t Ht]. rewrite Ht. cbn. eauto. }
  rewrite Hs. cbn. eauto.
Qed.

Lemma groups_sums_resolve (db : DB) (from to : Z) (groups : list (User * real)) :
  wellFormed db = true ->
  leaderboardGroups db from to = Resolves groups ->
  sumsResolve db from to.
Proof.
  intros Hwf H k. apply leaderboardGroups_Resolves in H.
  destruct H as [selected [H _]].
  destruct (hasRecordIn db from to k) eqn:Hrec.
  - destruct (hasRecord_exists db from to k Hrec) as [a [Ha [E Hm]]].
    destruct (wellFormed_foreign_key db a Hwf Ha) as [u [Hu Eu]].
    assert (Ek : k = id u) by congruence. rewrite Ek in Hrec |- *.
    pose proof (groupKeys_of_user db from to u Hu Hrec) as Hk.
    destruct (forEach_step _ _ _ _ H Hk) as [ys [Hg _]].
    rewrite (groupRow_of_user db from to u Hwf Hu) in Hg.
    unfold rowOf in Hg. apply await_Resolves in Hg.
    destruct Hg as [t [Ht _]]. now exists t.
  - exists None. now apply sumInRange_inactive.
Qed.

(** ** Order of the leaderboard *)

(** The rows the leaderboard is made of: an admissible order of the
    groups, cut at the limit. *)
Lemma leaderboard_rows
  (order : list (User * real) -> list (User * real))
  (db : DB) (now : Clock) (limit : option nat) (entries : list LeaderboardEntry) :
  sortsBy bySum order ->
  getLeaderboard order db now limit = Resolves entries ->
  exists groups rows,
    leaderboardGroups db (monthFrom now) (monthTo now) = Resolves groups
    /\ Permutation groups rows
    /\ sortedBy bySum rows
    /\ entries = mapi toEntry (firstn (limitOrDefault limit) rows).
Proof.
  intros Horder H. apply getLeaderboard_Resolves in H.
  destruct H as [groups [Hg ->]]. destruct (Horder groups) as [Hp Hs].
  exists groups, (order groups). auto.
Qed.

Lemma leaderboard_length
  (order : list (User * real) -> list (User * real))
  (db : DB) (now : Clock) (limit : option nat) (entries : list LeaderboardEntry) :
  getLeaderboard order db now limit = Resolves entries ->
  (List.length entries <= limitOrDefault limit)%nat.
Proof.
  intros H. apply getLeaderboard_Resolves in H. destruct H as [groups [_ ->]].
  rewrite mapi_length. apply firstn_le_length.
Qed.


(** A sort of one row, and of two rows that are strictly ordered. *)
Lemma order_one {A : Type} (le : A -> A -> bool) (order : list A -> list A) (x : A) :
  sortsBy le order -> order [x] = [x].
Proof.
  intros H. destruct (H [x]) as [Hp _]. now apply Permutation_length_1_inv.
Qed.

Lemma order_two {A : Type} (le : A -> A -> bool) (order : list A -> list A)
  (x y : A) (l : list A) :
  sortsBy le order -> le y x = false ->
  l = [x; y] \/ l = [y; x] ->
  order l = [x; y].
Proof.
  intros H Hyx Hl. destruct (H l) as [Hp Hs].
  assert (Hp' : Permutation [x; y] (order l)).
  { destruct Hl as [->| ->]; [exact Hp|].
    apply Permutation_trans with [y; x]; [apply perm_swap|exact Hp]. }
  apply Permutation_length_2_inv in Hp'. destruct Hp' as [E|E]; [exact E|].
  rewrite E in Hs. inversion Hs as [|a l' _ Hall]; subst.
  inversion Hall as [|b l'' Hle _]; subst. congruence.
Qed.

(** ** The rank and the calendar month *)

(** Strictly below, on totals that resolved. *)
Definition totalBelow (p q : Promise real) : bool :=
  match p, q with
  | Resolves x, Resolves y => SFltb x y
  | _, _ => false
  end.

(** The total of a user over the current calendar month, and the rank as
    the specification words it: 1 plus the number of other users with a
    record in the current calendar month whose total of that month is
    strictly less. *)
Definition calendarTotal (db : DB) (now : Clock) (uid : string) : Promise real :=
  result <- sumInRange db uid (firstDay now) (lastDay now) ;;
  Resolves (or_zero result).

Definition rankAsSpecified (db : DB) (now : Clock) (uid : string) : nat :=
  (1 + List.length
         (filter
            (fun u =>
               negb (String.eqb (id u) uid)
               && hasRecordThisMonth db now (id u)
               && totalBelow (calendarTotal db now (id u)) (calendarTotal db now uid))
            (users db)))%nat.

(** C3: on a server east of UTC the rank is computed over the days from
    the last day of the previous month to the last day but one of the
    current month, not over the calendar month; and a user whose sum is NaN
    is not counted as better than anybody.  With B's 50 kg against A's
    100 kg dated on the last day of June, A has rank 1 where the
    specification gives 2; with A's sum NaN (read as a total of 0) against
    B's 50 kg, B has rank 1 where the specification gives 2. *)
Theorem user_rank_diverges :
  (forall (db : DB) (now : Clock) (uid : string) (r : nat),
     wellFormed db = true ->
     eastOfUTC now = true ->
     getUserRank db now uid = Resolves r ->
     exists own,
       sumInRange db uid (firstDay now - 1) (lastDay now - 1) = Resolves own
       /\ r = (1 + List.length
                     (filter (betterThan db (firstDay now - 1) (lastDay now - 1)
                                         uid (or_zero own))
                             (users db)))%nat)
  /\ (getUserRank db_lastDay juneEast "A" = Resolves 1%nat
      /\ rankAsSpecified db_lastDay juneEast "A" = 2%nat)
  /\ (getUserRank db_nan juneUTC "B" = Resolves 1%nat
      /\ rankAsSpecified db_nan juneUTC "B" = 2%nat).
Proof.
  split; [|repeat split].
  intros db now uid r Hwf Hnow H.
  destruct (month_east now Hnow) as [Ef Et]. rewrite <- Ef, <- Et.
  now apply rank_count.
Qed.

Lemma user_rank_diverges_witness :
  exists own,
    sumInRange db_lastDay "A" (firstDay juneEast - 1) (lastDay juneEast - 1)
    = Resolves own
    /\ 1%nat
       = (1 + List.length
                (filter (betterThan db_lastDay (firstDay juneEast - 1)
                                    (lastDay juneEast - 1) "A" (or_zero own))
                        (users db_lastDay)))%nat.
Proof.
  apply (proj1 user_rank_diverges db_lastDay juneEast "A"%string 1%nat);
    reflexivity.
Defined.

(** ** The leaderboard and the calendar month *)

(** C5: on a server east of UTC the leaderboard lists the users with a
    record between the last day of the previous month and the last day but
    one of the current month.  With A's 100 kg dated on the last day of
    June and B's 50 kg, the leaderboard is B alone, not B then A; with A's
    sum NaN and B's 50 kg, it is B with 50 followed by A with 0, which is
    not in ascending order. *)
Theorem leaderboard_diverges :
  (forall (order : list (User * real) -> list (User * real))
          (db : DB) (now : Clock) (limit : option nat)
          (entries : list LeaderboardEntry) (e : LeaderboardEntry),
     sortsBy bySum order ->
     eastOfUTC now = true ->
     getLeaderboard order db now limit = Resolves entries ->
     In e entries ->
     hasRecordIn db (firstDay now - 1) (lastDay now - 1) (id (user e)) = true)
  /\ (forall order : list (User * real) -> list (User * real),
        sortsBy bySum order ->
        getLeaderboard order db_lastDay juneEast None
        = Resolves [ {| user := userB; entryTotalEmissions := kg 50; rank := 1 |} ])
  /\ (calendarTotal db_lastDay juneEast "A" = Resolves (kg 100)
      /\ calendarTotal db_lastDay juneEast "B" = Resolves (kg 50)
      /\ hasRecordThisMonth db_lastDay juneEast "A" = true)
  /\ (forall order : list (User * real) -> list (User * real),
        sortsBy bySum order ->
        getLeaderboard order db_nan juneUTC None
        = Resolves [ {| user := userB; entryTotalEmissions := kg 50; rank := 1 |};
                     {| user := userA; entryTotalEmissions := zero; rank := 2 |} ])
  /\ SFleb (kg 50) zero = false.
Proof.
  split; [|split; [|split; [|split]]].
  - intros order db now limit entries e Horder Hnow H He.
    destruct (month_east now Hnow) as [Ef Et]. rewrite <- Ef, <- Et.
    exact (leaderboard_entry_active order db now limit entries e Horder H He).
  - intros order Horder. rewrite getLeaderboard_month.
    replace (leaderboardGroups db_lastDay (monthFrom juneEast) (monthTo juneEast))
      with (Resolves [(userB, kg 50)]) by reflexivity.
    cbn [await]. now rewrite (order_one bySum order _ Horder).
  - repeat split.
  - intros order Horder. rewrite getLeaderboard_month.
    replace (leaderboardGroups db_nan (monthFrom juneUTC) (monthTo juneUTC))
      with (Resolves [(userA, S754_nan); (userB, kg 50)]) by reflexivity.
    cbn [await].
    rewrite (order_two bySum order (userB, kg 50) (userA, S754_nan) _ Horder);
      [reflexivity | reflexivity | now right].
  - reflexivity.
Qed.

Lemma leaderboard_diverges_witness :
  hasRecordIn db_lastDay (firstDay juneEast - 1) (lastDay juneEast - 1)
    (id (user {| user := userB; entryTotalEmissions := kg 50; rank := 1 |})) = true.
Proof.
  apply (proj1 leaderboard_diverges stable db_lastDay juneEast None
           [ {| user := userB; entryTotalEmissions := kg 50; rank := 1 |} ]);
    [exact stable_sortsBy | reflexivity | reflexivity | now left].
Defined.

End StorageSpec.

(* ================================================================== *)
(** * More on the rank and the leaderboard *)
(* ================================================================== *)

Module RankExtras.
Import JSDate Real Storage Samples RealOrder MonthWindow StorageSpec.

(** ** The rank against the monthly totals *)

Lemma number_float4le (x y : real) :
  isnan x = false -> isnan y = false -> float4le x y = SFleb x y.
Proof. unfold float4le. now intros -> ->. Qed.

Lemma SFeqb_SFleb (x y : spec_float) :
  SFeqb x y = true -> SFleb x y = true /\ SFleb y x = true.
Proof.
  unfold SFeqb, SFleb, SFcompare.
  destruct x as [sx|sx| |sx mx ex], y as [sy|sy| |sy my ey];
    try destruct sx; try destruct sy; try discriminate; try (split; reflexivity).
  all: change (Pos.compare_cont Eq) with Pos.compare.
  all: destruct (Z.compare_spec ex ey); try discriminate;
    destruct (Pos.compare_spec mx my); try discriminate; cbn; intros _; subst;
    rewrite Z.compare_refl, Pos.compare_refl; split; reflexivity.
Qed.

Lemma getEmissionsThisMonth_Resolves (db : DB) (now : Clock) (uid : string) (own : option real) :
  sumInRange db uid (monthFrom now) (monthTo now) = Resolves own ->
  getEmissionsThisMonth db now uid = Resolves (or_zero own).
Proof. intros H. now rewrite getEmissionsThisMonth_month, H. Qed.

Lemma rank_le (db : DB) (now : Clock) (u v : string) (ownU ownV : option real) (ru rv : nat) :
  sumInRange db u (monthFrom now) (monthTo now) = Resolves ownU ->
  sumInRange db v (monthFrom now) (monthTo now) = Resolves ownV ->
  getUserRank db now u = Resolves ru ->
  getUserRank db now v = Resolves rv ->
  SFleb (or_zero ownU) (or_zero ownV) = true ->
  (ru <= rv)%nat.
Proof.
  intros Hu Hv Ru Rv Hle.
  apply rank_by_keys in Ru, Rv.
  destruct Ru as [ownU' [Hu' ->]], Rv as [ownV' [Hv' ->]].
  assert (ownU' = ownU) by congruence. assert (ownV' = ownV) by congruence.
  subst ownU' ownV'. apply Nat.add_le_mono_r.
  apply filter_length_le. intros k _. unfold passes.
  destruct (sumInRange db k (monthFrom now) (monthTo now)) as [[s|]|e];
    try discriminate.
  intros Hlt. apply float4lt_le_trans with (or_zero ownU); [exact Hlt|].
  now rewrite number_float4le by apply or_zero_not_nan.
Qed.

(** X3: the rank query is monotone in the monthly total: a user with a
    total no greater than another's has a rank no greater, and users with
    equal totals have the same rank. *)
Theorem rank_monotone (db : DB) (now : Clock) (u v : string) (ru rv : nat) :
  getUserRank db now u = Resolves ru ->
  getUserRank db now v = Resolves rv ->
  exists tu tv,
    getEmissionsThisMonth db now u = Resolves tu
    /\ getEmissionsThisMonth db now v = Resolves tv
    /\ (SFleb tu tv = true -> (ru <= rv)%nat)
    /\ (SFeqb tu tv = true -> ru = rv).
Proof.
  intros Ru Rv.
  destruct (rank_by_keys db now u ru Ru) as [ownU [Hu _]].
  destruct (rank_by_keys db now v rv Rv) as [ownV [Hv _]].
  exists (or_zero ownU), (or_zero ownV).
  split; [now apply getEmissionsThisMonth_Resolves|].
  split; [now apply getEmissionsThisMonth_Resolves|].
  split.
  - now apply (rank_le db now u v ownU ownV).
  - intros E. apply SFeqb_SFleb in E. destruct E as [E1 E2].
    apply Nat.le_antisymm.
    + now apply (rank_le db now u v ownU ownV).
    + now apply (rank_le db now v u ownV ownU).
Qed.

Lemma rank_monotone_witness :
  exists tu tv,
    getEmissionsThisMonth db_two juneUTC "B" = Resolves tu
    /\ getEmissionsThisMonth db_two juneUTC "A" = Resolves tv
    /\ (SFleb tu tv = true -> (1 <= 2)%nat)
    /\ (SFeqb tu tv = true -> 1%nat = 2%nat).
Proof.
  apply (rank_monotone db_two juneUTC "B" "A" 1 2); reflexivity.
Defined.

(** ** Sums that are NaN, and sums of values that are not negative *)

(** The monthly sum of a user is NaN: a record of the month holds NaN, or
    the records hold infinities of both signs. *)
Definition sumIsNaN (db : DB) (now : Clock) (uid : string) : bool :=
  match sumInRange db uid (monthFrom now) (monthTo now) with
  | Resolves (Some s) => isnan s
  | _ => false
  end.

(** NaN, or a value with a clear sign bit. *)
Definition notNegative (x : real) : bool := isnan x || FloatOrder.sf_pos x.

Lemma float4pl_notNegative (x y r : real) :
  notNegative x = true -> notNegative y = true ->
  float4pl x y = Resolves r -> notNegative r = true.
Proof.
  unfold notNegative, float4pl. intros Hx Hy.
  destruct (isinf _ && _ && _); [discriminate|]. intros [= <-].
  destruct (isnan x) eqn:Ex.
  { destruct x; try discriminate. reflexivity. }
  destruct (isnan y) eqn:Ey.
  { destruct y; try discriminate. destruct x; reflexivity. }
  cbn [orb] in Hx, Hy.
  rewrite (FloatOrder.SFadd_pos FLT_MANT_DIG FLT_MAX_EXP x y Hx Hy).
  apply orb_true_r.
Qed.

Lemma sumFrom_notNegative (values : list real) (state total : real) :
  notNegative state = true ->
  (forall x, In x values -> notNegative x = true) ->
  sumFrom state values = Resolves total -> notNegative total = true.
Proof.
  revert state. induction values as [|x rest IH]; intros state Hs Hall; cbn.
  - now intros [= <-].
  - rewrite await_Resolves. intros [next [Hnext H]].
    apply (IH next); [|intros y Hy; apply Hall; now right|exact H].
    apply (float4pl_notNegative state x); [assumption| |assumption].
    apply Hall. now left.
Qed.

Lemma notNegative_not_below_zero (s : real) :
  notNegative s = true -> float4lt s zero = false.
Proof. destruct s as [[|]|[|]| |[|] m e]; try discriminate; reflexivity. Qed.

Lemma sql_sum_notNegative (values : list real) (s : real) :
  (forall x, In x values -> notNegative x = true) ->
  sql_sum values = Resolves (Some s) -> float4lt s zero = false.
Proof.
  intros Hall. destruct values as [|x rest]; [discriminate|].
  cbn [sql_sum]. rewrite await_Resolves. intros [total [H [= <-]]].
  apply notNegative_not_below_zero.
  apply (sumFrom_notNegative rest x total); [|intros y Hy|exact H];
    apply Hall; [now left|now right].
Qed.

(** The HAVING test of a user with a record, read on the monthly totals. *)
Lemma passes_totals (db : DB) (now : Clock) (k : string) (s : real) (userTotal : real) :
  isnan userTotal = false ->
  sumInRange db k (monthFrom now) (monthTo now) = Resolves (Some s) ->
  passes db (monthFrom now) (monthTo now) userTotal k
  = negb (sumIsNaN db now k)
    && totalBelow (getEmissionsThisMonth db now k) (Resolves userTotal).
Proof.
  intros Hn Hs. unfold passes, sumIsNaN.
  rewrite (getEmissionsThisMonth_Resolves db now k (Some s) Hs), Hs.
  now apply float4lt_number.
Qed.

(** X4: a user has rank 1 exactly when every user with a record in the
    month has a NaN sum or a monthly total that is not strictly smaller; in
    particular, when no value stored for the month is negative, a user
    without a record in the month, or whose own sum is NaN, has rank 1. *)
Theorem rank_one (db : DB) (now : Clock) (uid : string) (r : nat) :
  getUserRank db now uid = Resolves r ->
  (r = 1%nat
   <-> forall k, hasRecordIn db (monthFrom now) (monthTo now) k = true ->
                 sumIsNaN db now k = true
                 \/ totalBelow (getEmissionsThisMonth db now k)
                               (getEmissionsThisMonth db now uid) = false)
  /\ ((forall a, In a (activities db) ->
                 inRange (monthFrom now) (monthTo now) (date a) = true ->
                 notNegative (totalEmissions a) = true) ->
      hasRecordIn db (monthFrom now) (monthTo now) uid = false
      \/ sumIsNaN db now uid = true ->
      r = 1%nat).
Proof.
  intros Hr.
  assert (Hres : sumsResolve db (monthFrom now) (monthTo now)).
  { apply (rank_resolves db now uid). now exists r. }
  destruct (rank_by_keys db now uid r Hr) as [own [Hown ->]].
  rewrite (getEmissionsThisMonth_Resolves db now uid own Hown).
  set (T := or_zero own).
  assert (HT : isnan T = false) by apply or_zero_not_nan.
  assert (Hone : forall n : nat, (n + 1 = 1)%nat <-> n = 0%nat) by (intros n; lia).
  rewrite Hone, filter_length_zero.
  assert (Hkey : forall k,
            hasRecordIn db (monthFrom now) (monthTo now) k = true ->
            passes db (monthFrom now) (monthTo now) T k
            = negb (sumIsNaN db now k)
              && totalBelow (getEmissionsThisMonth db now k) (Resolves T)).
  { intros k Hk. destruct (Hres k) as [t Ht].
    destruct (sumInRange_active db _ _ k t Hk Ht) as [s ->].
    now apply (passes_totals db now k s T). }
  split.
  - split.
    + intros H k Hk. apply activeKeys_hasRecord in Hk as Hin.
      specialize (H k Hin). rewrite (Hkey k Hk) in H.
      apply andb_false_iff in H. destruct H as [H|H]; [left|now right].
      now apply negb_false_iff in H.
    + intros H k Hin. apply activeKeys_hasRecord in Hin as Hk.
      rewrite (Hkey k Hk). apply andb_false_iff.
      destruct (H k Hk) as [E|E]; [left|now right]. now rewrite E.
  - intros Hnn Hcase.
    assert (ET : T = zero).
    { unfold T. destruct Hcase as [Hno|Hnan].
      - rewrite (sumInRange_inactive db _ _ uid Hno) in Hown.
        now injection Hown as <-.
      - unfold sumIsNaN in Hnan. rewrite Hown in Hnan.
        destruct own as [[s|s| |s m e]|]; try discriminate. reflexivity. }
    rewrite ET. intros k Hin. unfold passes.
    destruct (sumInRange db k (monthFrom now) (monthTo now)) as [[s|]|e] eqn:Hs;
      try reflexivity.
    rewrite sumInRange_rows in Hs.
    apply (sql_sum_notNegative _ s) in Hs; [exact Hs|].
    intros x Hx. apply in_map_iff in Hx. destruct Hx as [a [<- Ha]].
    unfold rowsInRange in Ha. apply filter_In in Ha. destruct Ha as [Ha Hp].
    apply andb_prop in Hp. apply Hnn; tauto.
Qed.

Lemma rank_one_witness :
  (1%nat = 1%nat
   <-> forall k, hasRecordIn db_nan (monthFrom juneUTC) (monthTo juneUTC) k = true ->
                 sumIsNaN db_nan juneUTC k = true
                 \/ totalBelow (getEmissionsThisMonth db_nan juneUTC k)
                               (getEmissionsThisMonth db_nan juneUTC "A") = false)
  /\ ((forall a, In a (activities db_nan) ->
                 inRange (monthFrom juneUTC) (monthTo juneUTC) (date a) = true ->
                 notNegative (totalEmissions a) = true) ->
      hasRecordIn db_nan (monthFrom juneUTC) (monthTo juneUTC) "A" = false
      \/ sumIsNaN db_nan juneUTC "A" = true ->
      1%nat = 1%nat).
Proof. apply (rank_one db_nan juneUTC "A" 1). reflexivity. Defined.

(** A's only record of June holds NaN: A's total reads 0 and A's rank 1. *)
Example rank_with_nan :
  getEmissionsThisMonth db_nan juneUTC "A" = Resolves zero
  /\ getUserRank db_nan juneUTC "A" = Resolves 1%nat.
Proof. split; reflexivity. Qed.

(** ** The rank over the calendar month *)

Lemma month_totals (db : DB) (now : Clock) (uid : string) :
  notEastOfUTC now = true ->
  calendarTotal db now uid = getEmissionsThisMonth db now uid.
Proof.
  intros H. rewrite getEmissionsThisMonth_month. unfold calendarTotal.
  now destruct (month_notEast now H) as [-> ->].
Qed.

(** X17: the rank query resolves exactly when the monthly total of every
    user does.  On a server that is not east of UTC, with [users.id] a
    primary key referenced by [activities.userId], the rank is 1 plus the
    number of other users who have a record in the current calendar month,
    whose sum of the month is not NaN and whose monthly total is strictly
    less than that of the user; when no sum of the month is NaN this is the
    rank of the specification. *)
Theorem user_rank_count (db : DB) (now : Clock) (uid : string) :
  ((exists r, getUserRank db now uid = Resolves r)
   <-> forall k, exists t, getEmissionsThisMonth db now k = Resolves t)
  /\ (forall r : nat,
        wellFormed db = true ->
        notEastOfUTC now = true ->
        getUserRank db now uid = Resolves r ->
        r = (1 + List.length
                   (filter
                      (fun u =>
                         negb (String.eqb (id u) uid)
                         && hasRecordThisMonth db now (id u)
                         && (negb (sumIsNaN db now (id u))
                             && totalBelow (getEmissionsThisMonth db now (id u))
                                           (getEmissionsThisMonth db now uid)))
                      (users db)))%nat
        /\ ((forall u, In u (users db) -> sumIsNaN db now (id u) = false) ->
            r = rankAsSpecified db now uid)).
Proof.
  split.
  - rewrite rank_resolves. unfold sumsResolve.
    split; intros H k; destruct (H k) as [t Ht].
    + exists (or_zero t). now apply getEmissionsThisMonth_Resolves.
    + rewrite getEmissionsThisMonth_month in Ht. apply await_Resolves in Ht.
      destruct Ht as [own [Hown _]]. now exists own.
  - intros r Hwf Hnow Hr.
    assert (Hres : sumsResolve db (monthFrom now) (monthTo now)).
    { apply (rank_resolves db now uid). now exists r. }
    destruct (rank_count db now uid r Hwf Hr) as [own [Hown ->]].
    rewrite (getEmissionsThisMonth_Resolves db now uid own Hown).
    assert (Hpred : forall u,
              betterThan db (monthFrom now) (monthTo now) uid (or_zero own) u
              = negb (String.eqb (id u) uid)
                && hasRecordThisMonth db now (id u)
                && (negb (sumIsNaN db now (id u))
                    && totalBelow (getEmissionsThisMonth db now (id u))
                                  (Resolves (or_zero own)))).
    { intros u. unfold betterThan.
      rewrite (hasRecordThisMonth_month db now (id u) Hnow).
      destruct (hasRecordThisMonth db now (id u)) eqn:Hrec;
        [|now rewrite !andb_false_r].
      rewrite <- (hasRecordThisMonth_month db now (id u) Hnow) in Hrec.
      destruct (Hres (id u)) as [t Ht].
      destruct (sumInRange_active db _ _ (id u) t Hrec Ht) as [s ->].
      rewrite (passes_totals db now (id u) s (or_zero own));
        [reflexivity | apply or_zero_not_nan | exact Ht]. }
    rewrite (filter_ext _ _ Hpred). split; [reflexivity|].
    intros Hnan. unfold rankAsSpecified. do 2 f_equal.
    apply filter_ext_in. intros u Hu.
    rewrite (Hnan u Hu), !(month_totals db now _ Hnow).
    now rewrite (getEmissionsThisMonth_Resolves db now uid own Hown).
Qed.

Lemma user_rank_count_witness :
  2%nat
  = (1 + List.length
           (filter
              (fun u =>
                 negb (String.eqb (id u) "A")
                 && hasRecordThisMonth db_two juneUTC (id u)
                 && (negb (sumIsNaN db_two juneUTC (id u))
                     && totalBelow (getEmissionsThisMonth db_two juneUTC (id u))
                                   (getEmissionsThisMonth db_two juneUTC "A")))
              (users db_two)))%nat
  /\ ((forall u, In u (users db_two) -> sumIsNaN db_two juneUTC (id u) = false) ->
      2%nat = rankAsSpecified db_two juneUTC "A").
Proof.
  apply (proj2 (user_rank_count db_two juneUTC "A") 2%nat); reflexivity.
Defined.

(** ** The rank query against the leaderboard *)

Lemma groups_sum_unique (db : DB) (from to : Z) (groups : list (User * real))
  (u v : User) (su sv : real) :
  wellFormed db = true ->
  leaderboardGroups db from to = Resolves groups ->
  In (u, su) groups -> In (v, sv) groups -> id u = id v -> su = sv.
Proof.
  intros Hwf Hg Hu Hv E.
  apply (groups_iff db from to groups u su Hwf Hg) in Hu.
  apply (groups_iff db from to groups v sv Hwf Hg) in Hv.
  destruct Hu as [_ [_ Hu]], Hv as [_ [_ Hv]]. rewrite E in Hu. congruence.
Qed.

(** A sum at or above another is not below the total made of that one. *)
Lemma at_or_above_not_below (su sv : real) :
  float4le su sv = true -> float4lt sv (or_zero (Some su)) = false.
Proof.
  intros H. destruct (isnan su) eqn:E.
  - destruct su; try discriminate. rewrite float4le_nan_l in H.
    unfold float4lt. now rewrite H.
  - rewrite (float4lt_or_zero_r sv su E), float4lt_not_le. now rewrite H.
Qed.

Section RankVsLeaderboard.
Variables (db : DB) (from to : Z).
Variables (groups rows : list (User * real)).
Variables (i : nat) (u : User) (su : real).
Hypothesis wf : wellFormed db = true.
Hypothesis resolved : leaderboardGroups db from to = Resolves groups.
Hypothesis perm : Permutation groups rows.
Hypothesis sorted : sortedBy bySum rows.
Hypothesis at_i : nth_error rows i = Some (u, su).

Lemma rows_groups (r : User * real) : In r rows <-> In r groups.
Proof.
  split; apply Permutation_in; [now apply Permutation_sym|assumption].
Qed.

Lemma rows_keys_NoDup : NoDup (map (fun r => id (fst r)) rows).
Proof.
  apply (Permutation_NoDup (Permutation_map _ perm)).
  exact (groups_keys_NoDup db from to groups resolved).
Qed.

Lemma own_sum : sumInRange db (id u) from to = Resolves (Some su).
Proof.
  assert (H : In (u, su) groups) by (apply rows_groups, (nth_error_In _ i), at_i).
  apply (groups_iff db from to groups u su wf resolved) in H. tauto.
Qed.

Lemma better_is_earlier (v : User) :
  In v (filter (betterThan db from to (id u) (or_zero (Some su))) (users db)) ->
  In v (map fst (firstn i rows)).
Proof.
  intros Hv. apply filter_In in Hv. destruct Hv as [Hv Hb].
  unfold betterThan in Hb. apply andb_prop in Hb. destruct Hb as [Hb Hpass].
  apply andb_prop in Hb. destruct Hb as [Hne Hrec].
  unfold passes in Hpass.
  destruct (sumInRange db (id v) from to) as [[sv|]|e] eqn:Hsv; try discriminate.
  assert (Hrow : In (v, sv) rows).
  { apply rows_groups, (groups_iff db from to groups v sv wf resolved). auto. }
  destruct (In_nth_error _ _ Hrow) as [p Hp].
  assert (Hpi : (p < i)%nat).
  { destruct (Nat.lt_ge_cases p i) as [Hlt'|Hge]; [assumption|exfalso].
    destruct (Nat.eq_dec i p) as [E|Hneq].
    - subst p. rewrite at_i in Hp. injection Hp as -> _.
      rewrite String.eqb_refl in Hne. discriminate.
    - assert (Hord : bySum (u, su) (v, sv) = true).
      { apply (StronglySorted_nth _ _ sorted i p); [lia | assumption | assumption]. }
      unfold bySum in Hord. cbn [snd] in Hord.
      rewrite (at_or_above_not_below su sv Hord) in Hpass. discriminate. }
  apply in_map_iff. exists (v, sv). split; [reflexivity|].
  apply (nth_error_In _ p). apply limit_nth. tauto.
Qed.

Lemma better_count_le :
  (List.length (filter (betterThan db from to (id u) (or_zero (Some su))) (users db))
   <= i)%nat.
Proof.
  apply Nat.le_trans with (List.length (map fst (firstn i rows))).
  - apply NoDup_incl_length.
    + apply NoDup_filter.
      exact (NoDup_map_inv _ _ (wellFormed_primary_key db wf)).
    + intros v. apply better_is_earlier.
  - rewrite length_map. apply firstn_le_length.
Qed.

Lemma earlier_is_better (v : User) :
  (forall j r, (j < i)%nat -> nth_error rows j = Some r ->
               SFltb (or_zero (Some (snd r))) (or_zero (Some su)) = true) ->
  In v (map fst (firstn i rows)) ->
  In v (filter (betterThan db from to (id u) (or_zero (Some su))) (users db)).
Proof.
  intros Hstrict Hv. apply in_map_iff in Hv. destruct Hv as [[v' sv] [E Hv]].
  cbn in E. subst v'. destruct (In_nth_error _ _ Hv) as [j Hj].
  apply limit_nth in Hj. destruct Hj as [Hji Hj].
  pose proof (Hstrict j (v, sv) Hji Hj) as Hlt. cbn [snd] in Hlt.
  pose proof (nth_error_In _ _ Hj) as Hrow.
  assert (Hord : bySum (v, sv) (u, su) = true).
  { apply (StronglySorted_nth _ _ sorted j i); [lia | assumption | assumption]. }
  unfold bySum in Hord. cbn [snd] in Hord.
  assert (Hgv : In (v, sv) groups) by now apply rows_groups.
  assert (Hgu : In (u, su) groups) by (apply rows_groups, (nth_error_In _ i), at_i).
  apply (groups_iff db from to groups v sv wf resolved) in Hgv as Hv'.
  destruct Hv' as [Hin [Hrec Hsum]].
  apply filter_In. split; [assumption|]. unfold betterThan, passes.
  rewrite Hrec, Hsum, andb_true_r.
  assert (Hnum : isnan sv = false).
  { destruct (isnan sv) eqn:En; [|reflexivity].
    destruct sv; try discriminate. rewrite float4le_nan_l in Hord.
    destruct su; discriminate. }
  rewrite (float4lt_number sv (or_zero (Some su))) by apply or_zero_not_nan.
  rewrite Hnum, Hlt. cbn [negb andb]. rewrite andb_true_r.
  apply negb_true_iff.
  destruct (String.eqb_spec (id v) (id u)) as [Eid|_]; [|reflexivity].
  rewrite (groups_sum_unique db from to groups v u sv su wf resolved Hgv Hgu Eid) in Hlt.
  unfold SFltb in Hlt.
  destruct (or_zero (Some su)) as [[|]|[|]| |[|] m e]; try discriminate;
    cbn in Hlt; rewrite Z.compare_refl, Pos.compare_cont_refl in Hlt; discriminate.
Qed.

Lemma better_count_ge :
  (forall j r, (j < i)%nat -> nth_error rows j = Some r ->
               SFltb (or_zero (Some (snd r))) (or_zero (Some su)) = true) ->
  (i <= List.length
          (filter (betterThan db from to (id u) (or_zero (Some su))) (users db)))%nat.
Proof.
  intros Hstrict.
  assert (Hlen : List.length (map fst (firstn i rows)) = i).
  { rewrite length_map, length_firstn. apply Nat.min_l.
    apply Nat.lt_le_incl. apply nth_error_Some. rewrite at_i. discriminate. }
  rewrite <- Hlen at 1. apply NoDup_incl_length.
  - apply (NoDup_map_inv id). rewrite map_map, <- firstn_map.
    apply limit_NoDup, rows_keys_NoDup.
  - intros v. now apply earlier_is_better.
Qed.

End RankVsLeaderboard.

(** X5: the rank query never ranks a user worse than the leaderboard does:
    for the entry at any position, the rank of its user is at most the
    entry's rank, and equals it when every earlier entry has a strictly
    smaller total. *)
Theorem rank_at_most_leaderboard_rank
  (order : list (User * real) -> list (User * real))
  (db : DB) (now : Clock) (limit : option nat)
  (entries : list LeaderboardEntry) (i : nat) (e : LeaderboardEntry) :
  sortsBy bySum order ->
  wellFormed db = true ->
  getLeaderboard order db now limit = Resolves entries ->
  nth_error entries i = Some e ->
  exists r,
    getUserRank db now (id (user e)) = Resolves r
    /\ (r <= rank e)%nat
    /\ ((forall j e', (j < i)%nat ->
                      nth_error entries j = Some e' ->
                      SFltb (entryTotalEmissions e') (entryTotalEmissions e) = true) ->
        r = rank e).
Proof.
  intros Horder Hwf Hres He.
  destruct (leaderboard_rows order db now limit entries Horder Hres)
    as [groups [rows [Hg [Hperm [Hsorted ->]]]]].
  apply entries_nth in He. destruct He as [[u su] [Hrow ->]].
  apply limit_nth in Hrow. destruct Hrow as [HiL Hrow].
  cbn [toEntry user rank entryTotalEmissions fst snd].
  destruct (proj2 (rank_resolves db now (id u))
              (groups_sums_resolve db _ _ groups Hwf Hg)) as [r Hr].
  exists r. split; [exact Hr|].
  destruct (rank_count db now (id u) r Hwf Hr) as [own [Hown ->]].
  rewrite (own_sum db _ _ groups rows i u su Hwf Hg Hperm Hrow) in Hown.
  injection Hown as <-.
  pose proof (better_count_le db _ _ groups rows i u su Hwf Hg Hperm Hsorted Hrow)
    as Hle.
  split; [lia|]. intros Hstrict.
  assert (Hge : (i <= List.length
                        (filter (betterThan db (monthFrom now) (monthTo now)
                                            (id u) (or_zero (Some su)))
                                (users db)))%nat).
  { apply (better_count_ge db _ _ groups rows i u su Hwf Hg Hperm Hsorted Hrow).
    intros j r Hji Hj.
    apply (Hstrict j (toEntry r j) Hji).
    apply entries_nth. exists r. split; [|reflexivity].
    apply limit_nth. split; [lia|assumption]. }
  lia.
Qed.

Lemma rank_at_most_leaderboard_rank_witness :
  exists r,
    getUserRank db_two juneUTC (id (user (toEntry (userA, kg 100) 1))) = Resolves r
    /\ (r <= rank (toEntry (userA, kg 100) 1))%nat
    /\ ((forall j e', (j < 1)%nat ->
           nth_error [toEntry (userB, kg 50) 0; toEntry (userA, kg 100) 1] j = Some e' ->
           SFltb (entryTotalEmissions e')
                 (entryTotalEmissions (toEntry (userA, kg 100) 1)) = true) ->
        r = rank (toEntry (userA, kg 100) 1)).
Proof.
  apply (rank_at_most_leaderboard_rank stable db_two juneUTC None
           [toEntry (userB, kg 50) 0; toEntry (userA, kg 100) 1] 1);
    [exact stable_sortsBy | reflexivity | reflexivity | reflexivity].
Defined.


(** ** Who is on the leaderboard *)

Lemma entries_ids (rows : list (User * real)) :
  map (fun e => id (user e)) (mapi toEntry rows) = map (fun r => id (fst r)) rows.
Proof.
  apply nth_error_ext. intros i.
  rewrite !nth_error_map, mapi_nth_error.
  now destruct (nth_error rows i).
Qed.

(** The users with a record in the range. *)
Definition activeUsers (db : DB) (from to : Z) : list User :=
  filter (fun u => hasRecordIn db from to (id u)) (users db).

Lemma groups_length (db : DB) (from to : Z) (groups : list (User * real)) :
  wellFormed db = true ->
  leaderboardGroups db from to = Resolves groups ->
  List.length groups = List.length (activeUsers db from to).
Proof.
  intros Hwf Hg. rewrite <- (length_map fst groups).
  apply Permutation_length, NoDup_Permutation.
  - apply (NoDup_map_inv id). rewrite map_map.
    exact (groups_keys_NoDup db from to groups Hg).
  - apply NoDup_filter.
    exact (NoDup_map_inv _ _ (wellFormed_primary_key db Hwf)).
  - intros u. unfold activeUsers. rewrite filter_In, in_map_iff. split.
    + intros [[u' s] [E H]]. cbn in E. subst u'.
      apply (groups_iff db from to groups u s Hwf Hg) in H. tauto.
    + intros [Hu Hrec].
      destruct (groups_sums_resolve db from to groups Hwf Hg (id u)) as [t Ht].
      destruct (sumInRange_active db from to (id u) t Hrec Ht) as [s ->].
      exists (u, s). split; [reflexivity|].
      apply (groups_iff db from to groups u s Hwf Hg). auto.
Qed.

(** X6: no user is listed twice on the leaderboard; and when the limit is
    at least the number of users with a record in the month of the query,
    each of them is listed. *)
Theorem leaderboard_users
  (order : list (User * real) -> list (User * real))
  (db : DB) (now : Clock) (limit : option nat) (entries : list LeaderboardEntry) :
  sortsBy bySum order ->
  getLeaderboard order db now limit = Resolves entries ->
  NoDup (map (fun e => id (user e)) entries)
  /\ (wellFormed db = true ->
      (List.length (activeUsers db (monthFrom now) (monthTo now))
       <= limitOrDefault limit)%nat ->
      forall u, In u (users db) ->
                hasRecordIn db (monthFrom now) (monthTo now) (id u) = true ->
                exists e, In e entries /\ user e = u).
Proof.
  intros Horder Hres.
  destruct (leaderboard_rows order db now limit entries Horder Hres)
    as [groups [rows [Hg [Hperm [Hsorted ->]]]]].
  split.
  - rewrite entries_ids, <- firstn_map. apply limit_NoDup.
    apply (Permutation_NoDup (Permutation_map _ Hperm)).
    exact (groups_keys_NoDup db _ _ groups Hg).
  - intros Hwf Hlen u Hu Hrec.
    destruct (groups_sums_resolve db _ _ groups Hwf Hg (id u)) as [t Ht].
    destruct (sumInRange_active db _ _ (id u) t Hrec Ht) as [s ->].
    assert (Hrow : In (u, s) rows).
    { apply (Permutation_in _ Hperm).
      apply (groups_iff db _ _ groups u s Hwf Hg). auto. }
    destruct (In_nth_error _ _ Hrow) as [i Hi].
    assert (HiL : (i < limitOrDefault limit)%nat).
    { apply Nat.lt_le_trans with (List.length rows).
      - apply nth_error_Some. rewrite Hi. discriminate.
      - rewrite <- (Permutation_length Hperm).
        now rewrite (groups_length db _ _ groups Hwf Hg). }
    exists (toEntry (u, s) i). split; [|reflexivity].
    apply (nth_error_In _ i). apply entries_nth.
    exists (u, s). split; [|reflexivity]. apply limit_nth. tauto.
Qed.

Lemma leaderboard_users_witness :
  NoDup (map (fun e => id (user e))
             [toEntry (userB, kg 50) 0; toEntry (userA, kg 100) 1])
  /\ (wellFormed db_two = true ->
      (List.length (activeUsers db_two (monthFrom juneUTC) (monthTo juneUTC))
       <= limitOrDefault None)%nat ->
      forall u, In u (users db_two) ->
                hasRecordIn db_two (monthFrom juneUTC) (monthTo juneUTC) (id u) = true ->
                exists e, In e [toEntry (userB, kg 50) 0; toEntry (userA, kg 100) 1]
                          /\ user e = u).
Proof.
  apply (leaderboard_users stable db_two juneUTC None);
    [exact stable_sortsBy | reflexivity].
Defined.

(** ** The limit *)

(** The representative of a sum among the sums that compare equal to it:
    NaN for NaN, +0 for both zeros. *)
Definition canon (s : real) : real :=
  if isnan s then S754_nan else or_zero (Some s).

Lemma canon_idem (s : real) : canon (canon s) = canon s.
Proof. destruct s as [[|]|[|]| |[|] m e]; reflexivity. Qed.

Lemma or_zero_canon (s : real) : or_zero (Some (canon s)) = or_zero (Some s).
Proof. destruct s as [[|]|[|]| |[|] m e]; reflexivity. Qed.

Lemma float4le_canon (a b : real) : float4le (canon a) (canon b) = float4le a b.
Proof.
  destruct a as [sa|sa| |sa ma ea]; destruct b as [sb|sb| |sb mb eb]; reflexivity.
Qed.

Lemma float4le_antisym (a b : real) :
  float4le a b = true -> float4le b a = true -> canon a = canon b.
Proof.
  unfold float4le, SFleb, SFcompare.
  destruct a as [sa|sa| |sa ma ea]; destruct b as [sb|sb| |sb mb eb];
    try destruct sa; try destruct sb; cbn; try discriminate; try reflexivity.
  all: change (Pos.compare_cont Eq) with Pos.compare.
  all: destruct (Z.compare_spec ea eb); destruct (Z.compare_spec eb ea);
    try lia; cbn; try discriminate.
  all: destruct (Pos.compare_spec ma mb); destruct (Pos.compare_spec mb ma);
    try lia; cbn; try discriminate; intros _ _; subst; reflexivity.
Qed.

Lemma sorted_perm_eq (l1 l2 : list real) :
  Forall (fun x => canon x = x) l1 ->
  Permutation l1 l2 ->
  StronglySorted (fun a b => float4le a b = true) l1 ->
  StronglySorted (fun a b => float4le a b = true) l2 ->
  l1 = l2.
Proof.
  revert l2. induction l1 as [|a t1 IH]; intros l2 Hc Hp H1 H2.
  - apply Permutation_nil in Hp. now subst.
  - destruct l2 as [|b t2].
    { apply Permutation_sym, Permutation_nil in Hp. discriminate. }
    inversion H1 as [|? ? Hs1 Ha]; subst. inversion H2 as [|? ? Hs2 Hb]; subst.
    inversion Hc as [|? ? Ca Ct]; subst.
    rewrite Forall_forall in Ha, Hb.
    assert (Cb : canon b = b).
    { assert (Hin : In b (a :: t1)).
      { apply (Permutation_in _ (Permutation_sym Hp)). now left. }
      rewrite Forall_forall in Hc. now apply Hc. }
    assert (E : a = b).
    { assert (Hb1 : In b (a :: t1)).
      { apply (Permutation_in _ (Permutation_sym Hp)). now left. }
      assert (Ha2 : In a (b :: t2)).
      { apply (Permutation_in _ Hp). now left. }
      destruct Hb1 as [E|Hb1]; [exact E|].
      destruct Ha2 as [E|Ha2]; [now symmetry|].
      rewrite <- Ca, <- Cb. apply float4le_antisym; auto. }
    subst b. f_equal. apply IH; try assumption.
    now apply Permutation_cons_inv in Hp.
Qed.

Lemma sortedBy_keys (rows : list (User * real)) :
  sortedBy bySum rows ->
  StronglySorted (fun a b => float4le a b = true) (map (fun r => canon (snd r)) rows).
Proof.
  unfold sortedBy. induction 1 as [|r rows Hs IH Hall]; cbn; constructor.
  - exact IH.
  - rewrite Forall_forall in *. intros k Hk.
    apply in_map_iff in Hk. destruct Hk as [r' [<- Hr']].
    rewrite float4le_canon. now apply Hall.
Qed.

(** The totals shown by a leaderboard, in its order. *)
Definition shown (rows : list (User * real)) : list real :=
  map (fun r => or_zero (Some (snd r))) rows.

(** Two admissible orders of the same groups show the same totals. *)
Lemma shown_unique (rows1 rows2 : list (User * real)) :
  Permutation rows1 rows2 ->
  sortedBy bySum rows1 -> sortedBy bySum rows2 ->
  shown rows1 = shown rows2.
Proof.
  intros Hp H1 H2.
  assert (E : map (fun r => canon (snd r)) rows1 = map (fun r => canon (snd r)) rows2).
  { apply sorted_perm_eq.
    - apply Forall_forall. intros k Hk. apply in_map_iff in Hk.
      destruct Hk as [r [<- _]]. apply canon_idem.
    - now apply Permutation_map.
    - now apply sortedBy_keys.
    - now apply sortedBy_keys. }
  unfold shown.
  rewrite <- (map_ext (fun r => or_zero (Some (canon (snd r)))) _
                (fun r => or_zero_canon (snd r)) rows1).
  rewrite <- (map_ext (fun r => or_zero (Some (canon (snd r)))) _
                (fun r => or_zero_canon (snd r)) rows2).
  rewrite <- !(map_map (fun r => canon (snd r)) (fun k => or_zero (Some k))).
  now rewrite E.
Qed.

Definition position (e : LeaderboardEntry) : nat * real :=
  (rank e, entryTotalEmissions e).

Lemma entries_positions (rows : list (User * real)) :
  map position (mapi toEntry rows) = mapi (fun t i => ((i + 1)%nat, t)) (shown rows).
Proof.
  apply nth_error_ext. intros i. unfold shown.
  rewrite nth_error_map, !mapi_nth_error, nth_error_map.
  now destruct (nth_error rows i).
Qed.

(** X7: a smaller limit gives the first ranks and totals of the result of
    a larger one, whichever order the engine gives to ties in either
    query: for [n] at most the limit in force (10 without one), the
    leaderboard of limit [n] resolves and shows, position by position, the
    ranks and totals of the first [n] entries. *)
Theorem leaderboard_limit_prefix
  (order1 order2 : list (User * real) -> list (User * real))
  (db : DB) (now : Clock) (n : nat) (limit : option nat)
  (large : list LeaderboardEntry) :
  sortsBy bySum order1 ->
  sortsBy bySum order2 ->
  (n <= limitOrDefault limit)%nat ->
  getLeaderboard order2 db now limit = Resolves large ->
  exists small,
    getLeaderboard order1 db now (Some n) = Resolves small
    /\ map position small = firstn n (map position large).
Proof.
  intros H1 H2 Hn Hlarge.
  apply getLeaderboard_Resolves in Hlarge. destruct Hlarge as [groups [Hg ->]].
  exists (mapi toEntry (firstn n (order1 groups))). split.
  - apply getLeaderboard_Resolves. now exists groups.
  - destruct (H1 groups) as [Hp1 Hs1], (H2 groups) as [Hp2 Hs2].
    rewrite !entries_positions, mapi_limit. unfold shown.
    rewrite firstn_map, firstn_firstn, Nat.min_l by exact Hn.
    rewrite <- !firstn_map.
    fold (shown (order1 groups)) (shown (order2 groups)).
    rewrite (shown_unique (order1 groups) (order2 groups)); [reflexivity| | |].
    + apply Permutation_trans with groups; [now apply Permutation_sym|assumption].
    + exact Hs1.
    + exact Hs2.
Qed.

Lemma leaderboard_limit_prefix_witness :
  exists small,
    getLeaderboard stable db_tie juneUTC (Some 1%nat) = Resolves small
    /\ map position small
       = firstn 1 (map position [toEntry (userB, kg 50) 0; toEntry (userA, kg 50) 1]).
Proof.
  apply (leaderboard_limit_prefix stable reversed db_tie juneUTC 1 None);
    [exact stable_sortsBy | exact reversed_sortsBy | cbn; lia | reflexivity].
Defined.

(** With limit 1 the first engine lists A and the second B, both at rank 1
    with 50 kg. *)
Example tie_order_differs :
  getLeaderboard stable db_tie juneUTC (Some 1%nat)
  = Resolves [toEntry (userA, kg 50) 0]
  /\ getLeaderboard reversed db_tie juneUTC (Some 1%nat)
     = Resolves [toEntry (userB, kg 50) 0].
Proof. split; reflexivity. Qed.


(** ** The leaderboard over the calendar month *)

Lemma SFleb_refl (x : real) : isnan x = false -> SFleb x x = true.
Proof. intros H. now destruct (SFleb_total x x H H). Qed.

(** Sums in order, the later of them a number, give totals in order. *)
Lemma totals_in_order (s t : real) :
  isnan t = false -> float4le s t = true ->
  SFleb (or_zero (Some s)) (or_zero (Some t)) = true.
Proof.
  intros Ht H.
  assert (Hs : isnan s = false).
  { destruct s; try reflexivity. rewrite float4le_nan_l in H. congruence. }
  rewrite <- number_float4le by apply or_zero_not_nan.
  now rewrite float4le_or_zero.
Qed.

Lemma or_zero_value (own : option real) (x : real) :
  or_zero own = x -> iszero x = false -> own = Some x.
Proof.
  destruct own as [[s|s| |s m e]|]; cbn; intros <-; try discriminate; reflexivity.
Qed.

Lemma total_value (db : DB) (now : Clock) (uid : string) (x : real) :
  getEmissionsThisMonth db now uid = Resolves x -> iszero x = false ->
  sumInRange db uid (monthFrom now) (monthTo now) = Resolves (Some x)
  /\ hasRecordIn db (monthFrom now) (monthTo now) uid = true.
Proof.
  rewrite getEmissionsThisMonth_month, await_Resolves.
  intros [own [Hown [= E]]] Hx.
  apply (or_zero_value own x E) in Hx. subst own. split; [exact Hown|].
  destruct (hasRecordIn db (monthFrom now) (monthTo now) uid) eqn:Hrec;
    [reflexivity|].
  rewrite (sumInRange_inactive db _ _ uid Hrec) in Hown. discriminate.
Qed.

(** X18: with [users.id] a primary key referenced by [activities.userId],
    the leaderboard resolves exactly when the monthly total of every user
    does.  On a server that is not east of UTC it then has at most [limit]
    entries (10 without a limit); the entry at 0-based position [i] has rank
    [i + 1], its user has a record in the current calendar month and its
    total is the monthly total of that user; the totals are in ascending
    order up to an entry whose sum is NaN; and when exactly two users have
    records in the month, with monthly totals 100 and 50, and the limit
    admits two entries, the result is the 50-kg user with rank 1 followed by
    the 100-kg user with rank 2. *)
Theorem leaderboard_month
  (order : list (User * real) -> list (User * real))
  (db : DB) (now : Clock) (limit : option nat) :
  sortsBy bySum order ->
  wellFormed db = true ->
  ((exists entries, getLeaderboard order db now limit = Resolves entries)
   <-> forall k, exists t, getEmissionsThisMonth db now k = Resolves t)
  /\ (forall entries : list LeaderboardEntry,
        notEastOfUTC now = true ->
        getLeaderboard order db now limit = Resolves entries ->
        (List.length entries <= match limit with Some n => n | None => 10 end)%nat
        /\ (forall (i : nat) (e : LeaderboardEntry),
              nth_error entries i = Some e ->
              rank e = (i + 1)%nat
              /\ In (user e) (users db)
              /\ hasRecordThisMonth db now (id (user e)) = true
              /\ getEmissionsThisMonth db now (id (user e))
                 = Resolves (entryTotalEmissions e))
        /\ (forall (i j : nat) (e1 e2 : LeaderboardEntry),
              (i <= j)%nat ->
              nth_error entries i = Some e1 ->
              nth_error entries j = Some e2 ->
              sumIsNaN db now (id (user e2)) = false ->
              SFleb (entryTotalEmissions e1) (entryTotalEmissions e2) = true)
        /\ (forall ua ub : User,
              In ua (users db) -> In ub (users db) ->
              (forall u, In u (users db) ->
                         hasRecordThisMonth db now (id u) = true -> u = ua \/ u = ub) ->
              getEmissionsThisMonth db now (id ua) = Resolves (kg 100) ->
              getEmissionsThisMonth db now (id ub) = Resolves (kg 50) ->
              (2 <= match limit with Some n => n | None => 10 end)%nat ->
              entries
              = [ {| user := ub; entryTotalEmissions := kg 50; rank := 1 |};
                  {| user := ua; entryTotalEmissions := kg 100; rank := 2 |} ])).
Proof.
  intros Horder Hwf. split.
  - split.
    + intros [entries H] k. apply getLeaderboard_Resolves in H.
      destruct H as [groups [Hg _]].
      destruct (groups_sums_resolve db _ _ groups Hwf Hg k) as [t Ht].
      exists (or_zero t). now apply getEmissionsThisMonth_Resolves.
    + intros H.
      destruct (groups_resolve db (monthFrom now) (monthTo now) Hwf) as [groups Hg].
      { intros k. destruct (H k) as [t Ht].
        rewrite getEmissionsThisMonth_month in Ht. apply await_Resolves in Ht.
        destruct Ht as [own [Hown _]]. now exists own. }
      exists (mapi toEntry (firstn (limitOrDefault limit) (order groups))).
      apply getLeaderboard_Resolves. now exists groups.
  - intros entries Hnow Hres.
    pose proof (leaderboard_length order db now limit entries Hres) as Hlen.
    destruct (leaderboard_rows order db now limit entries Horder Hres)
      as [groups [rows [Hg [Hperm [Hsorted ->]]]]].
    assert (Hrows : forall i row,
              nth_error (firstn (limitOrDefault limit) rows) i = Some row ->
              In (fst row) (users db)
              /\ hasRecordIn db (monthFrom now) (monthTo now) (id (fst row)) = true
              /\ sumInRange db (id (fst row)) (monthFrom now) (monthTo now)
                 = Resolves (Some (snd row))).
    { intros i [u s] Hrow. apply nth_error_In, limit_incl in Hrow.
      apply (Permutation_in _ (Permutation_sym Hperm)) in Hrow.
      now apply (groups_iff db _ _ groups u s Hwf Hg). }
    split; [exact Hlen|]. split; [|split].
    + intros i e He. apply entries_nth in He. destruct He as [row [Hrow ->]].
      destruct (Hrows i row Hrow) as [Hu [Hrec Hsum]].
      cbn [toEntry rank user entryTotalEmissions].
      rewrite <- (hasRecordThisMonth_month db now _ Hnow).
      repeat split; try assumption.
      now apply (getEmissionsThisMonth_Resolves db now _ (Some (snd row))).
    + intros i j e1 e2 Hij H1 H2 Hnan.
      apply entries_nth in H1, H2.
      destruct H1 as [r1 [Hr1 ->]], H2 as [r2 [Hr2 ->]].
      cbn [toEntry user entryTotalEmissions] in *.
      destruct (Hrows j r2 Hr2) as [_ [_ Hsum2]].
      unfold sumIsNaN in Hnan. rewrite Hsum2 in Hnan.
      destruct (Nat.eq_dec i j) as [E|Hne].
      * subst j. rewrite Hr1 in Hr2. injection Hr2 as <-.
        apply SFleb_refl, or_zero_not_nan.
      * apply totals_in_order; [exact Hnan|].
        apply limit_nth in Hr1, Hr2.
        apply (StronglySorted_nth _ _ Hsorted i j r1 r2); [lia|tauto|tauto].
    + intros ua ub Ha Hb Honly Ta Tb Hlim.
      destruct (total_value db now (id ua) (kg 100) Ta eq_refl) as [Sa Ra].
      destruct (total_value db now (id ub) (kg 50) Tb eq_refl) as [Sb Rb].
      assert (Hne : (ua, kg 100) <> (ub, kg 50)) by (intros E; discriminate E).
      assert (Hpair : groups = [(ub, kg 50); (ua, kg 100)]
                      \/ groups = [(ua, kg 100); (ub, kg 50)]).
      { apply Permutation_length_2_inv, NoDup_Permutation.
        - repeat constructor; cbn; intuition.
        - exact (NoDup_map_inv _ _ (groups_keys_NoDup db _ _ groups Hg)).
        - intros [u s]. rewrite (groups_iff db _ _ groups u s Hwf Hg). cbn [In]. split.
          + intros [[= <- <-] | [[= <- <-] | []]]; auto.
          + intros [Hu [Hrec Hsum]].
            rewrite (hasRecordThisMonth_month db now _ Hnow) in Hrec.
            destruct (Honly u Hu Hrec) as [-> | ->]; [right; left|left];
              f_equal; congruence. }
      assert (Hrows2 : rows = [(ub, kg 50); (ua, kg 100)]).
      { destruct (Permutation_length_2_inv
                    (l := rows) (a1 := (ub, kg 50)) (a2 := (ua, kg 100))) as [E|E].
        - apply Permutation_trans with groups; [|exact Hperm].
          destruct Hpair as [-> | ->]; [reflexivity|apply perm_swap].
        - exact E.
        - rewrite E in Hsorted. inversion Hsorted as [|a l' _ Hall]; subst.
          inversion Hall as [|b l'' Hle _]; subst. discriminate Hle. }
      rewrite Hrows2, firstn_all2; [reflexivity|exact Hlim].
Qed.

Lemma leaderboard_month_witness :
  (List.length [toEntry (userB, kg 50) 0; toEntry (userA, kg 100) 1] <= 10)%nat
  /\ getEmissionsThisMonth db_two juneUTC "A" = Resolves (kg 100)
  /\ SFleb (kg 50) (kg 100) = true.
Proof.
  destruct (proj2 (leaderboard_month stable db_two juneUTC None
                     stable_sortsBy eq_refl)
              [toEntry (userB, kg 50) 0; toEntry (userA, kg 100) 1]
              eq_refl eq_refl) as [Hlen [Hentry [Hasc _]]].
  split; [exact Hlen|]. split.
  - exact (proj2 (proj2 (proj2 (Hentry 1%nat (toEntry (userA, kg 100) 1) eq_refl)))).
  - exact (Hasc 0%nat 1%nat _ _ (Nat.le_succ_diag_r 0) eq_refl eq_refl eq_refl).
Defined.

Example leaderboard_two_users :
  getLeaderboard stable db_two juneUTC None
  = Resolves [ {| user := userB; entryTotalEmissions := kg 50; rank := 1 |};
               {| user := userA; entryTotalEmissions := kg 100; rank := 2 |} ].
Proof. reflexivity. Qed.

Example leaderboard_limit_one :
  getLeaderboard stable db_two juneUTC (Some 1%nat)
  = Resolves [ {| user := userB; entryTotalEmissions := kg 50; rank := 1 |} ].
Proof. reflexivity. Qed.

End RankExtras.

(* ================================================================== *)
(** * The other queries on activities *)
(* ================================================================== *)

Module StorageExtras.
Import JSDate Real Storage Samples RealOrder MonthWindow StorageSpec RankExtras.

(** ** ORDER BY date DESC *)

Lemma byDateDesc_total (a b : Activity) :
  byDateDesc a b = true \/ byDateDesc b a = true.
Proof. unfold byDateDesc. rewrite !Z.leb_le. lia. Qed.

Lemma byDateDesc_trans (a b c : Activity) :
  byDateDesc a b = true -> byDateDesc b c = true -> byDateDesc a c = true.
Proof. unfold byDateDesc. rewrite !Z.leb_le. lia. Qed.

(** One admissible sort of activities. *)
Definition newestFirst : list Activity -> list Activity := orderBy byDateDesc.

Lemma newestFirst_sortsBy : sortsBy byDateDesc newestFirst.
Proof. apply orderBy_sortsBy; [exact byDateDesc_total | exact byDateDesc_trans]. Qed.

(** In a list sorted newest first, the rows after the first [n] are no
    newer than any of the first [n]. *)
Lemma sorted_split (n : nat) (l : list Activity) :
  sortedBy byDateDesc l ->
  forall a b, In a (skipn n l) -> In b (firstn n l) -> (date a <= date b)%Z.
Proof.
  intros Hs a b Ha Hb.
  destruct (In_nth_error _ _ Ha) as [j Hj].
  destruct (In_nth_error _ _ Hb) as [i Hi].
  apply limit_nth in Hi. destruct Hi as [Hin Hi].
  rewrite nth_error_skipn in Hj.
  apply Z.leb_le.
  apply (StronglySorted_nth _ _ Hs i (n + j) b a); [lia | assumption | assumption].
Qed.

Lemma sorted_dates (l : list Activity) (i j : nat) (a b : Activity) :
  sortedBy byDateDesc l -> (i <= j)%nat ->
  nth_error l i = Some a -> nth_error l j = Some b -> (date b <= date a)%Z.
Proof.
  intros Hs Hij Ha Hb. destruct (Nat.eq_dec i j) as [->|Hne].
  - rewrite Ha in Hb. injection Hb as <-. lia.
  - apply Z.leb_le.
    apply (StronglySorted_nth _ _ Hs i j a b); [lia | assumption | assumption].
Qed.

Definition activityLimit (limit : option nat) : nat :=
  match limit with
  | Some n => n
  | None => 30%nat
  end.

Definition userRows (db : DB) (uid : string) : list Activity :=
  filter (fun a => String.eqb (userId a) uid) (activities db).

(** X8: getUserActivities returns at most [limit] rows (30 without a
    limit), all of them rows of that user, newest first; the user's rows
    left out are no newer than any row returned. *)
Theorem getUserActivities_spec
  (order : list Activity -> list Activity)
  (db : DB) (uid : string) (limit : option nat) :
  sortsBy byDateDesc order ->
  (List.length (getUserActivities order db uid limit)
   <= match limit with Some n => n | None => 30 end)%nat
  /\ (forall a, In a (getUserActivities order db uid limit) ->
                In a (activities db) /\ userId a = uid)
  /\ (forall i j a b, (i <= j)%nat ->
        nth_error (getUserActivities order db uid limit) i = Some a ->
        nth_error (getUserActivities order db uid limit) j = Some b ->
        (date b <= date a)%Z)
  /\ (exists rest,
        Permutation (getUserActivities order db uid limit ++ rest)
                    (filter (fun a => String.eqb (userId a) uid) (activities db))
        /\ forall a b, In a rest -> In b (getUserActivities order db uid limit) ->
                       (date a <= date b)%Z).
Proof.
  intros Horder.
  unfold getUserActivities. fold (activityLimit limit). fold (userRows db uid).
  destruct (Horder (userRows db uid)) as [Hp Hs].
  split; [|split; [|split]].
  - apply firstn_le_length.
  - intros a Ha. apply limit_incl in Ha.
    apply (Permutation_in _ (Permutation_sym Hp)) in Ha.
    unfold userRows in Ha. apply filter_In in Ha.
    split; [tauto|]. now apply String.eqb_eq.
  - intros i j a b Hij Ha Hb. apply limit_nth in Ha, Hb.
    apply (sorted_dates (order (userRows db uid)) i j); tauto.
  - exists (skipn (activityLimit limit) (order (userRows db uid))).
    split.
    + rewrite firstn_skipn. now apply Permutation_sym.
    + intros a b. now apply sorted_split.
Qed.

Lemma getUserActivities_spec_witness :
  (List.length (getUserActivities newestFirst db_two "A" (Some 1%nat)) <= 1)%nat
  /\ (forall a, In a (getUserActivities newestFirst db_two "A" (Some 1%nat)) ->
                In a (activities db_two) /\ userId a = "A"%string).
Proof.
  destruct (getUserActivities_spec newestFirst db_two "A" (Some 1%nat)
              newestFirst_sortsBy) as [Hlen [Hin _]].
  split; [exact Hlen|exact Hin].
Defined.

Example recent_of_A :
  getUserActivities newestFirst db_two "A" (Some 1%nat)
  = [ {| userId := "A"; date := ymd 2025 6 10; totalEmissions := kg 40 |} ].
Proof. reflexivity. Qed.

(** ** A range of dates given as strings *)

(** A reading of dates that knows the two ends of June 2025. *)
Definition juneDates (s : string) : option Z :=
  if String.eqb s "2025-06-01" then Some (ymd 2025 6 1)
  else if String.eqb s "2025-06-30" then Some (ymd 2025 6 30)
  else None.

(** X9: the date-range query rejects with an invalid-date error exactly
    when PostgreSQL refuses one of the two strings as a date; otherwise it
    resolves to the rows of that user dated inside the range, each once,
    newest first: up to their order, the rows that the monthly sum of the
    same range adds. *)
Theorem date_range_spec
  (date_in : string -> option Z)
  (order : list Activity -> list Activity)
  (db : DB) (uid startDate endDate : string) :
  sortsBy byDateDesc order ->
  (date_in startDate = None \/ date_in endDate = None <->
   getUserActivitiesByDateRange date_in order db uid startDate endDate
   = Rejects InvalidDate)
  /\ (forall from to : Z,
        date_in startDate = Some from -> date_in endDate = Some to ->
        exists rows,
          getUserActivitiesByDateRange date_in order db uid startDate endDate
          = Resolves rows
          /\ (forall a, In a rows <->
                        In a (activities db) /\ userId a = uid
                        /\ (from <= date a <= to)%Z)
          /\ (forall i j a b, (i <= j)%nat ->
                nth_error rows i = Some a -> nth_error rows j = Some b ->
                (date b <= date a)%Z)
          /\ Permutation rows (rowsInRange db from to uid)).
Proof.
  intros Horder. unfold getUserActivitiesByDateRange. split.
  - destruct (date_in startDate) as [from|], (date_in endDate) as [to|];
      split; try discriminate; try reflexivity; try tauto.
    intros [H|H]; discriminate H.
  - intros from to -> ->.
    set (inside := filter (fun a => String.eqb (userId a) uid
                                    && (from <=? date a)%Z && (date a <=? to)%Z)
                          (activities db)).
    assert (Einside : inside = rowsInRange db from to uid).
    { unfold inside, rowsInRange, inRange. apply filter_ext.
      intros a. now rewrite andb_assoc. }
    destruct (Horder inside) as [Hp Hs].
    exists (order inside). split; [reflexivity|]. split; [|split].
    + intros a. split.
      * intros Ha. apply (Permutation_in _ (Permutation_sym Hp)) in Ha.
        apply filter_In in Ha. destruct Ha as [Ha Hc].
        apply andb_prop in Hc. destruct Hc as [Hc He].
        apply andb_prop in Hc. destruct Hc as [Hu Hf].
        apply String.eqb_eq in Hu. apply Z.leb_le in Hf, He. auto.
      * intros [Ha [Hu [Hf He]]]. apply (Permutation_in _ Hp).
        apply filter_In. split; [assumption|].
        apply Z.leb_le in Hf, He. rewrite Hf, He, !andb_true_r.
        now apply String.eqb_eq.
    + intros i j a b. now apply sorted_dates.
    + rewrite <- Einside. now apply Permutation_sym.
Qed.

Lemma date_range_spec_witness :
  exists rows,
    getUserActivitiesByDateRange juneDates newestFirst db_two "A"
      "2025-06-01" "2025-06-30" = Resolves rows
    /\ (forall a, In a rows <->
                  In a (activities db_two) /\ userId a = "A"%string
                  /\ (ymd 2025 6 1 <= date a <= ymd 2025 6 30)%Z)
    /\ (forall i j a b, (i <= j)%nat ->
          nth_error rows i = Some a -> nth_error rows j = Some b ->
          (date b <= date a)%Z)
    /\ Permutation rows (rowsInRange db_two (ymd 2025 6 1) (ymd 2025 6 30) "A").
Proof.
  apply (proj2 (date_range_spec juneDates newestFirst db_two "A"
                  "2025-06-01" "2025-06-30" newestFirst_sortsBy));
    reflexivity.
Defined.

Example range_of_A :
  getUserActivitiesByDateRange juneDates newestFirst db_two "A"
    "2025-06-01" "2025-06-30"
  = Resolves
      [ {| userId := "A"; date := ymd 2025 6 10; totalEmissions := kg 40 |};
        {| userId := "A"; date := ymd 2025 6 3; totalEmissions := kg 60 |} ]
  /\ getUserActivitiesByDateRange juneDates newestFirst db_two "A"
       "June" "2025-06-30"
     = Rejects InvalidDate.
Proof. split; reflexivity. Qed.


(** ** Totals over records that hold NaN *)

Lemma float4pl_nan_r (x : real) : float4pl x S754_nan = Resolves S754_nan.
Proof. destruct x as [[|]|[|]| |[|] m e]; reflexivity. Qed.

Lemma sumFrom_nan (values : list real) :
  sumFrom S754_nan values = Resolves S754_nan.
Proof. induction values as [|x rest IH]; [reflexivity|exact IH]. Qed.

(** Once a NaN is among the values, the sum is NaN, unless an addition
    before it overflowed. *)
Lemma sumFrom_with_nan (values : list real) (state : real) :
  In S754_nan values ->
  sumFrom state values = Resolves S754_nan
  \/ sumFrom state values = Rejects FloatOverflow.
Proof.
  revert state. induction values as [|x rest IH]; intros state Hin;
    [contradiction|].
  cbn [sumFrom]. destruct Hin as [->|Hin].
  - rewrite float4pl_nan_r. cbn [await]. left. apply sumFrom_nan.
  - destruct (float4pl state x) as [next|[|]] eqn:E; cbn [await].
    + now apply IH.
    + now right.
    + unfold float4pl in E. destruct (isinf _ && _ && _); discriminate E.
Qed.

Lemma sql_sum_with_nan (values : list real) :
  In S754_nan values ->
  sql_sum values = Resolves (Some S754_nan)
  \/ sql_sum values = Rejects FloatOverflow.
Proof.
  destruct values as [|x rest]; [contradiction|]. intros [->|Hin]; cbn [sql_sum].
  - rewrite sumFrom_nan. now left.
  - destruct (sumFrom_with_nan rest x Hin) as [-> | ->]; [now left|now right].
Qed.

Lemma sumFrom_error (values : list real) (state : real) (e : DatabaseError) :
  sumFrom state values = Rejects e -> e = FloatOverflow.
Proof.
  revert state. induction values as [|x rest IH]; intros state; cbn; [discriminate|].
  destruct (float4pl state x) as [next|e'] eqn:E; cbn [await].
  - apply IH.
  - intros [= <-]. unfold float4pl in E.
    destruct (isinf _ && _ && _); [|discriminate E]. now injection E as <-.
Qed.

(** The two dates the query of last month binds. *)
Definition lastMonthFrom (now : Clock) : Z :=
  toISODate (newDate now (getFullYear now) (getMonth now - 1) 1).

Definition lastMonthTo (now : Clock) : Z :=
  toISODate (newDate now (getFullYear now) (getMonth now) 0).

Lemma getEmissionsLastMonth_month (db : DB) (now : Clock) (uid : string) :
  getEmissionsLastMonth db now uid
  = (result <- sumInRange db uid (lastMonthFrom now) (lastMonthTo now) ;;
     Resolves (or_zero result)).
Proof. unfold getEmissionsLastMonth, lastMonthFrom, lastMonthTo. reflexivity. Qed.

Lemma total_of (sum : Promise (option real)) :
  (forall t, (result <- sum ;; Resolves (or_zero result)) = Resolves t ->
             isnan t = false /\ t <> S754_zero true)
  /\ (sum = Resolves (Some S754_nan) \/ sum = Rejects FloatOverflow ->
      (result <- sum ;; Resolves (or_zero result)) = Resolves zero
      \/ (result <- sum ;; Resolves (or_zero result)) = Rejects FloatOverflow).
Proof.
  split.
  - intros t H. apply await_Resolves in H. destruct H as [own [_ [= <-]]].
    split; [apply or_zero_not_nan|].
    destruct own as [[[|]|[|]| |[|] m e]|]; discriminate.
  - intros [-> | ->]; [now left|now right].
Qed.

(** X10: none of the three totals of a user is ever NaN or -0.  When one
    of the records a total sums holds NaN (what the server stores for an
    unrecognized transport type with a distance), the total is 0, whatever
    the other records hold, unless the sum fails with an overflow. *)
Theorem totals_with_nan (db : DB) (now : Clock) (uid : string) :
  (forall t,
     getTotalEmissions db uid = Resolves t
     \/ getEmissionsThisMonth db now uid = Resolves t
     \/ getEmissionsLastMonth db now uid = Resolves t ->
     isnan t = false /\ t <> S754_zero true)
  /\ (forall a, In a (activities db) -> userId a = uid ->
                totalEmissions a = S754_nan ->
                (getTotalEmissions db uid = Resolves zero
                 \/ getTotalEmissions db uid = Rejects FloatOverflow)
                /\ (inRange (monthFrom now) (monthTo now) (date a) = true ->
                    getEmissionsThisMonth db now uid = Resolves zero
                    \/ getEmissionsThisMonth db now uid = Rejects FloatOverflow)
                /\ (inRange (lastMonthFrom now) (lastMonthTo now) (date a) = true ->
                    getEmissionsLastMonth db now uid = Resolves zero
                    \/ getEmissionsLastMonth db now uid = Rejects FloatOverflow)).
Proof.
  rewrite getEmissionsThisMonth_month, getEmissionsLastMonth_month.
  unfold getTotalEmissions. split.
  - intros t [H|[H|H]]; now apply total_of in H.
  - intros a Ha Hu Hnan.
    assert (Hrange : forall from to,
              inRange from to (date a) = true ->
              In S754_nan (map totalEmissions (rowsInRange db from to uid))).
    { intros from to Hin. rewrite <- Hnan. apply in_map.
      unfold rowsInRange. apply filter_In. split; [assumption|].
      rewrite Hin, andb_true_r. now apply String.eqb_eq. }
    split; [|split].
    + apply total_of, sql_sum_with_nan. rewrite <- Hnan. apply in_map.
      apply filter_In. split; [assumption|]. now apply String.eqb_eq.
    + intros Hin. apply total_of. rewrite sumInRange_rows.
      now apply sql_sum_with_nan, Hrange.
    + intros Hin. apply total_of. rewrite sumInRange_rows.
      now apply sql_sum_with_nan, Hrange.
Qed.

(** A has 20 kg, then a record that holds NaN, then 30 kg, all in June. *)
Definition db_plane : DB := {|
  users := [userA];
  activities :=
    [ {| userId := "A"; date := ymd 2025 6 3; totalEmissions := kg 20 |};
      {| userId := "A"; date := ymd 2025 6 4; totalEmissions := S754_nan |};
      {| userId := "A"; date := ymd 2025 6 9; totalEmissions := kg 30 |} ]
|}.

Lemma totals_with_nan_witness :
  (getTotalEmissions db_plane "A" = Resolves zero
   \/ getTotalEmissions db_plane "A" = Rejects FloatOverflow)
  /\ (inRange (monthFrom juneUTC) (monthTo juneUTC) (ymd 2025 6 4) = true ->
      getEmissionsThisMonth db_plane juneUTC "A" = Resolves zero
      \/ getEmissionsThisMonth db_plane juneUTC "A" = Rejects FloatOverflow)
  /\ (inRange (lastMonthFrom juneUTC) (lastMonthTo juneUTC) (ymd 2025 6 4) = true ->
      getEmissionsLastMonth db_plane juneUTC "A" = Resolves zero
      \/ getEmissionsLastMonth db_plane juneUTC "A" = Rejects FloatOverflow).
Proof.
  apply (proj2 (totals_with_nan db_plane juneUTC "A")
           {| userId := "A"; date := ymd 2025 6 4; totalEmissions := S754_nan |});
    [cbn; tauto | reflexivity | reflexivity].
Defined.

Example totals_of_plane :
  getTotalEmissions db_plane "A" = Resolves zero
  /\ getEmissionsThisMonth db_plane juneUTC "A" = Resolves zero
  /\ getEmissionsLastMonth db_plane juneUTC "A" = Resolves zero
  /\ getUserRank db_plane juneUTC "A" = Resolves 1%nat.
Proof. repeat split. Qed.

(** Binary32 sums round: 1 + 3.47 is 4.4700003, and 0.13 + 0.07 is
    0.19999999, below the binary32 value of 0.2; two values near the top of
    the range do not add. *)
Example float4_sums :
  sql_sum [float4 1 0; decimal 347 2] = Resolves (Some (float4 9374270 (-21)))
  /\ sql_sum [decimal 13 2; decimal 7 2] = Resolves (Some (float4 13421772 (-26)))
  /\ decimal 2 1 = float4 13421773 (-26)
  /\ sql_sum [float4 1 127; float4 1 127] = Rejects FloatOverflow.
Proof. repeat split. Qed.

(** ** The window of last month *)

(** The offsets in force at local midnight of the first day of last month
    and of the day before the first day of this month. *)
Definition offsetLastFrom (now : Clock) : Z :=
  LocalTZA now (MakeDate (MakeDay (getFullYear now) (getMonth now - 1) 1) 0).

Definition offsetLastTo (now : Clock) : Z :=
  LocalTZA now (MakeDate (MakeDay (getFullYear now) (getMonth now) 0) 0).

Local Open Scope Z_scope.

(** X19: on a server that is not east of UTC the query of last month runs
    from the first day of the previous calendar month to the day before
    the first day of the current one; in January the previous month is
    December of the year before.  When one offset is in force at the four
    midnights, the windows of last month and of this month are adjacent:
    no date lies in both. *)
Theorem last_month_window (now : Clock) :
  (- msPerDay < offsetLastFrom now <= 0 ->
   - msPerDay < offsetLastTo now <= 0 ->
   lastMonthFrom now = MakeDay (getFullYear now) (getMonth now - 1) 1
   /\ lastMonthTo now = firstDay now - 1)
  /\ (getMonth now = 0 ->
      MakeDay (getFullYear now) (getMonth now - 1) 1
      = MakeDay (getFullYear now - 1) 11 1
      /\ firstDay now - 1 = MakeDay (getFullYear now - 1) 11 31)
  /\ (forall off : Z,
        - msPerDay < off <= msPerDay ->
        (forall t, LocalTZA now t = off) ->
        lastMonthTo now = monthFrom now - 1
        /\ forall d, inRange (lastMonthFrom now) (lastMonthTo now) d = true ->
                     inRange (monthFrom now) (monthTo now) d = true -> False).
Proof.
  split; [|split].
  - intros H1 H2. unfold lastMonthFrom, lastMonthTo, toISODate, newDate, UTC.
    fold (offsetLastFrom now) (offsetLastTo now). split.
    + now apply Day_of_midnight.
    + rewrite (proj1 (Day_of_midnight _ _) H2).
      unfold firstDay. rewrite (MakeDay_date _ _ 0). lia.
  - intros Hm. unfold firstDay. rewrite Hm. unfold MakeDay.
    change ((0 - 1) / 12) with (-1). change ((0 - 1) mod 12) with 11.
    change (0 / 12) with 0. change (0 mod 12) with 0.
    change (11 / 12) with 0. change (11 mod 12) with 11.
    replace (getFullYear now + -1) with (getFullYear now - 1 + 0) by lia.
    split; [reflexivity|].
    replace (getFullYear now + 0) with (getFullYear now - 1 + 1) by lia.
    replace (getFullYear now - 1 + 0) with (getFullYear now - 1) by lia.
    pose proof (DayFromYear_next (getFullYear now - 1)) as Hy.
    destruct (InLeapYear (getFullYear now - 1)); cbn [monthStart];
      destruct (InLeapYear (getFullYear now - 1 + 1)); lia.
  - intros off Hoff Hconst.
    assert (Hto : lastMonthTo now = monthFrom now - 1).
    { unfold lastMonthTo, monthFrom, toISODate, newDate, UTC.
      rewrite !Hconst, (MakeDay_date _ _ 0).
      destruct (Z_le_gt_dec off 0) as [Hw|He].
      - rewrite !(proj1 (Day_of_midnight _ off)) by lia. lia.
      - rewrite !(proj2 (Day_of_midnight _ off)) by lia. lia. }
    split; [exact Hto|].
    intros d H1 H2. unfold inRange in H1, H2.
    apply andb_prop in H1, H2. destruct H1 as [_ H1], H2 as [H2 _].
    apply Z.leb_le in H1, H2. lia.
Qed.

Lemma last_month_window_witness :
  lastMonthTo juneUTC = monthFrom juneUTC - 1
  /\ forall d, inRange (lastMonthFrom juneUTC) (lastMonthTo juneUTC) d = true ->
               inRange (monthFrom juneUTC) (monthTo juneUTC) d = true -> False.
Proof.
  apply (proj2 (proj2 (last_month_window juneUTC)) 0).
  - unfold msPerDay. lia.
  - reflexivity.
Defined.

(** April 2024 in a zone that keeps UTC until local midnight of 31 March
    and is one hour east of it from then on (summer time begins on that
    day): a record dated 31 March is in the window of last month and in the
    window of this month. *)
Definition aprilSummerTime : Clock :=
  {| getFullYear := 2024;
     getMonth := 3;
     LocalTZA := fun t => if t <=? MakeDate (ymd 2024 3 31) 0 then 0 else 3600000 |}.

Example counted_twice :
  inRange (lastMonthFrom aprilSummerTime) (lastMonthTo aprilSummerTime)
          (ymd 2024 3 31) = true
  /\ inRange (monthFrom aprilSummerTime) (monthTo aprilSummerTime)
             (ymd 2024 3 31) = true.
Proof. split; reflexivity. Qed.

End StorageExtras.
